(** * archive-workdir: the reconciler of [archive_workdir.py]

    A shallow embedding of [src/archive_workdir/archive_workdir.py]
    (functions [read_dir_id], [mark_dir], [rsync_dir] and [main]) over an
    explicit model of the two root directories, followed by the properties
    of the reconciliation loop.

    Scope of the model.
    - The work root and the archive root are two distinct, unrelated
      directories; each is a listing of named entries in the order in which
      [iterdir()] enumerates them.
    - An entry is a directory (with its [.awid] sentinel and the names of its
      other children) or something that is not a directory.
    - Writing into an existing directory succeeds; the failures that are
      modelled are the ones the code can meet on its own paths: a missing
      directory, a non-directory in the way, an unreadable sentinel, and the
      POSIX failures of [os.rename].
    - [attempt_renames] and the [rsync] process work below this granularity:
      their invocations are recorded in the trace, in program order.
    - Logging is not modelled. *)

From Stdlib Require Import Ascii String ZArith Lia.
From stdpp Require Import base list gmap strings sorting.

Local Open Scope Z_scope.
Local Open Scope nat_scope.

(** ** Python strings *)

Module Py.

Definition LF : ascii := ascii_of_nat 10.
Definition CR : ascii := ascii_of_nat 13.

(** [str.isspace] on one character, for code points below 256:
    TAB LF VT FF CR, FS GS RS US, SPACE, NEL and NBSP. *)
Definition isspace (c : ascii) : bool :=
  let n := nat_of_ascii c in
  ((9 <=? n) && (n <=? 13)) || ((28 <=? n) && (n <=? 32))
  || (n =? 133) || (n =? 160).

Fixpoint lstrip (s : string) : string :=
  match s with
  | EmptyString => EmptyString
  | String c s' => if isspace c then lstrip s' else s
  end.

Fixpoint rstrip (s : string) : string :=
  match s with
  | EmptyString => EmptyString
  | String c s' =>
      match rstrip s' with
      | EmptyString => if isspace c then EmptyString else String c EmptyString
      | r => String c r
      end
  end.

(** [s.strip()] *)
Definition strip (s : string) : string := rstrip (lstrip s).

(** [f.readline()] on a file opened with [mode="r"]: universal newlines,
    so the line ends after the first LF, CR or CR LF, which is returned
    as a single LF. *)
Fixpoint readline (s : string) : string :=
  match s with
  | EmptyString => EmptyString
  | String c s' =>
      if Ascii.eqb c LF then String LF EmptyString
      else if Ascii.eqb c CR then String LF EmptyString
      else String c (readline s')
  end.

(** Truth value of a string: non-empty. *)
Definition truthy (s : string) : bool :=
  match s with EmptyString => false | String _ _ => true end.

(** [str.splitlines()] restricted to the line ends of universal newlines. *)
Fixpoint splitlines_go (cur : string) (s : string) : list string :=
  match s with
  | EmptyString => match cur with EmptyString => [] | _ => [cur] end
  | String c s' =>
      if Ascii.eqb c LF then cur :: splitlines_go EmptyString s'
      else if Ascii.eqb c CR then
        match s' with
        | String c' s'' =>
            if Ascii.eqb c' LF then cur :: splitlines_go EmptyString s''
            else cur :: splitlines_go EmptyString s'
        | EmptyString => [cur]
        end
      else splitlines_go (cur +:+ String c EmptyString) s'
  end.

Definition splitlines : string -> list string := splitlines_go EmptyString.

(** Decimal digit, and fixed-width zero-padded rendering ([%02d] ...). *)
Definition digit (n : nat) : ascii := ascii_of_nat (48 + n mod 10).

Fixpoint zfill (width n : nat) (acc : string) : string :=
  match width with
  | O => acc
  | S w => zfill w (n / 10) (String (digit n) acc)
  end.

End Py.

(** ** Timestamps: [datetime.now()] and its [str] *)

Record datetime : Type := mk_datetime {
  year : nat; month : nat; day : nat;
  hour : nat; minute : nat; second : nat; microsecond : nat
}.

(** [str(datetime)] is [isoformat(sep=' ')]: the fields have fixed widths
    (the year of a [datetime] is at most 9999) and the fraction is left out
    when it is zero. *)
Definition datetime_str (t : datetime) : string :=
  Py.zfill 4 (year t) EmptyString +:+ "-" +:+ Py.zfill 2 (month t) EmptyString
  +:+ "-" +:+ Py.zfill 2 (day t) EmptyString +:+ " "
  +:+ Py.zfill 2 (hour t) EmptyString +:+ ":" +:+ Py.zfill 2 (minute t) EmptyString
  +:+ ":" +:+ Py.zfill 2 (second t) EmptyString
  +:+ (if microsecond t =? 0 then EmptyString
       else "." +:+ Py.zfill 6 (microsecond t) EmptyString).

(** ** The two directory trees *)

(** The sentinel file [.awid] of a directory. [Unreadable] is a file that
    exists ([os.path.isfile] holds) but whose [open]/[readline] raises:
    no read permission, or bytes that do not decode. *)
Inductive sentinel : Type :=
| Absent
| Text (content : string)
| Unreadable.

Record directory : Type := mk_directory {
  awid : sentinel;
  others : list string   (* names of the other children *)
}.

Inductive node : Type :=
| Dir (d : directory)
| NotDir.                (* a regular file, or anything else that is not a directory *)

Definition listing : Type := list (string * node).

Inductive base : Type := WorkBase | ArchiveBase.

(** A [pathlib.Path] of the form [root / name]. *)
Record Path : Type := mk_Path { parent : base; name : string }.

#[global] Instance base_eq_dec : EqDecision base.
Proof. solve_decision. Defined.
#[global] Instance Path_eq_dec : EqDecision Path.
Proof. solve_decision. Defined.
#[global] Instance sentinel_eq_dec : EqDecision sentinel.
Proof. solve_decision. Defined.
#[global] Instance directory_eq_dec : EqDecision directory.
Proof. solve_decision. Defined.
#[global] Instance node_eq_dec : EqDecision node.
Proof. solve_decision. Defined.

Definition WORK_DIR_ID_FILENAME : string := ".awid".
Definition RSYNC_FLAGS : list string := ["-a"; "--delete"].

(** Effects on the outside world, in program order. *)
Inductive event : Type :=
| EvWrite (p : Path) (dir_id : string)        (* [open(p/.awid, "w")], [f.write(dir_id)] *)
| EvRename (src dst : Path)                   (* [os.rename(src, dst)] *)
| EvAttemptRenames (dry : bool) (work_path archive_path : Path)
| EvRun (command : list string).              (* [subprocess.run(command)] *)

Inductive exn : Type :=
| FileNotFoundError
| NotADirectoryError
| IsADirectoryError
| DirectoryNotEmpty        (* [OSError] with ENOTEMPTY *)
| SentinelReadError.       (* [PermissionError], [UnicodeDecodeError], ... *)

Record world : Type := mk_world {
  work : listing;
  archive : listing;
  clock : nat -> datetime;   (* the successive readings of [datetime.now()] *)
  ticks : nat;               (* how many readings were taken *)
  trace : list event
}.

(** ** Listings *)

Fixpoint assoc (n : string) (l : listing) : option node :=
  match l with
  | [] => None
  | (k, v) :: l' => if decide (k = n) then Some v else assoc n l'
  end.

(** Replace the node of [n], in place. *)
Fixpoint put (n : string) (v : node) (l : listing) : listing :=
  match l with
  | [] => []
  | (k, x) :: l' =>
      if decide (k = n) then (k, v) :: l' else (k, x) :: put n v l'
  end.

Fixpoint drop_entry (n : string) (l : listing) : listing :=
  match l with
  | [] => []
  | (k, x) :: l' => if decide (k = n) then l' else (k, x) :: drop_entry n l'
  end.

(** Give the entry [src] the name [dst], in place. *)
Fixpoint rekey (src dst : string) (l : listing) : listing :=
  match l with
  | [] => []
  | (k, x) :: l' =>
      if decide (k = src) then (dst, x) :: l' else (k, x) :: rekey src dst l'
  end.

Definition keys (l : listing) : list string := l.*1.

Definition is_empty_dir (d : directory) : bool :=
  match awid d, others d with
  | Absent, [] => true
  | _, _ => false
  end.

(** ** The monad of the program: state, with exceptions that keep the state *)

Inductive outcome (A : Type) : Type :=
| Ret (a : A)
| Raise (e : exn).
Arguments Ret {A} a.
Arguments Raise {A} e.

Definition M (A : Type) : Type := world -> outcome A * world.

Definition ret {A} (a : A) : M A := fun w => (Ret a, w).
Definition raise {A} (e : exn) : M A := fun w => (Raise e, w).
Definition bind {A B} (m : M A) (k : A -> M B) : M B :=
  fun w =>
    match m w with
    | (Ret a, w') => k a w'
    | (Raise e, w') => (Raise e, w')
    end.

Declare Scope prog_scope.
Delimit Scope prog_scope with prog.
Notation "x <- m ;; k" := (bind m (fun x => k))
  (at level 100, m at next level, right associativity) : prog_scope.
Notation "m ;;; k" := (bind m (fun _ => k))
  (at level 100, right associativity) : prog_scope.
Local Open Scope prog_scope.

Definition listing_of (b : base) (w : world) : listing :=
  match b with WorkBase => work w | ArchiveBase => archive w end.

Definition set_listing (b : base) (l : listing) (w : world) : world :=
  match b with
  | WorkBase => mk_world l (archive w) (clock w) (ticks w) (trace w)
  | ArchiveBase => mk_world (work w) l (clock w) (ticks w) (trace w)
  end.

Definition emit (e : event) : M unit :=
  fun w => (Ret tt, mk_world (work w) (archive w) (clock w) (ticks w) (trace w ++ [e])).

Definition node_at (p : Path) (w : world) : option node :=
  assoc (name p) (listing_of (parent p) w).

(** [p.exists()], [p.is_dir()], [p.iterdir()] *)
Definition exists_ (p : Path) : M bool :=
  fun w => (Ret (bool_decide (is_Some (node_at p w))), w).

Definition is_dir (p : Path) : M bool :=
  fun w => (Ret (match node_at p w with Some (Dir _) => true | _ => false end), w).

Definition iterdir (b : base) : M (list Path) :=
  fun w => (Ret (mk_Path b <$> keys (listing_of b w)), w).

(** [datetime.now()] *)
Definition tick (w : world) : world :=
  mk_world (work w) (archive w) (clock w) (S (ticks w)) (trace w).

Definition datetime_now : M datetime :=
  fun w => (Ret (clock w (ticks w)), tick w).

(** [with open(os.path.join(p, ".awid"), mode="w") as f: f.write(dir_id)] *)
Definition write_awid (p : Path) (dir_id : string) : M unit :=
  fun w =>
    match node_at p w with
    | None => (Raise FileNotFoundError, w)
    | Some NotDir => (Raise NotADirectoryError, w)
    | Some (Dir d) =>
        emit (EvWrite p dir_id)
          (set_listing (parent p)
             (put (name p) (Dir (mk_directory (Text dir_id) (others d)))
                (listing_of (parent p) w)) w)
    end.

(** [os.rename(src, dst)] inside the archive root, POSIX semantics: an
    existing destination is replaced only when it is an empty directory
    (for a directory source) or a non-directory (for a non-directory
    source). *)
Definition os_rename (src dst : Path) : M unit :=
  fun w =>
    let l := listing_of (parent src) w in
    let move l' := emit (EvRename src dst)
                     (set_listing (parent src) (rekey (name src) (name dst) l') w) in
    match assoc (name src) l with
    | None => (Raise FileNotFoundError, w)
    | Some (Dir _) =>
        match assoc (name dst) l with
        | None => move l
        | Some NotDir => (Raise NotADirectoryError, w)
        | Some (Dir d') =>
            if is_empty_dir d' then move (drop_entry (name dst) l)
            else (Raise DirectoryNotEmpty, w)
        end
    | Some NotDir =>
        match assoc (name dst) l with
        | None => move l
        | Some NotDir => move (drop_entry (name dst) l)
        | Some (Dir _) => (Raise IsADirectoryError, w)
        end
    end.

(** ** Command line *)

Record Args : Type := mk_Args {
  work_dir : string;          (* the work root, as [str(Path(...))] renders it *)
  archive_dir : string;
  dry_run : bool;
  report_skipped : bool;
  mark : option string;       (* [--mark SUBDIR_NAME], one path component *)
  mark_new : bool;
  rename : bool;
  verbose : bool;
  rsync_arg : list string;
  test_no_rsync : bool
}.

Definition base_str (args : Args) (b : base) : string :=
  match b with WorkBase => work_dir args | ArchiveBase => archive_dir args end.

(** [str(root / name)] *)
Definition path_str (args : Args) (p : Path) : string :=
  let r := base_str args (parent p) in
  if decide (r = "/") then "/" +:+ name p
  else if decide (r = ".") then name p
  else r +:+ "/" +:+ name p.

(** ** [read_dir_id] (lines 85-97) *)

Definition read_dir_id (path : Path) : M (option string) :=
  fun w =>
    match node_at path w with
    | Some (Dir d) =>
        match awid d with
        | Absent => (Ret None, w)                     (* not [os.path.isfile] *)
        | Unreadable => (Raise SentinelReadError, w)
        | Text content =>
            let dir_id := Py.strip (Py.readline content) in
            (Ret (if Py.truthy dir_id then Some dir_id else None), w)
        end
    | _ => (Ret None, w)
    end.

(** ** [mark_dir] (lines 100-115) *)

Fixpoint mark_paths (args : Args) (dir_id : string) (paths : list Path) : M unit :=
  match paths with
  | [] => ret tt
  | path :: rest =>
      (if dry_run args then ret tt else write_awid path dir_id) ;;;
      mark_paths args dir_id rest
  end.

Definition mark_dir (args : Args) (path1 : Path) (path2 : option Path) : M string :=
  t <- datetime_now ;;
  let dir_id := datetime_str t +:+ " " +:+ path_str args path1 in
  mark_paths args dir_id (path1 :: option_list path2) ;;;
  ret dir_id.

(** ** [rsync_dir] (lines 170-183) and the call of [attempt_renames] *)

Definition rsync_command (args : Args) (work_path archive_path : Path) : list string :=
  ["rsync"] ++ RSYNC_FLAGS
  ++ (if dry_run args then ["--dry-run"] else [])
  ++ (if verbose args then ["-v"] else [])
  ++ rsync_arg args
  ++ [path_str args work_path +:+ "/"; path_str args archive_path].

Definition rsync_dir (args : Args) (work_path archive_path : Path) : M unit :=
  emit (EvRun (rsync_command args work_path archive_path)).

Definition attempt_renames (args : Args) (work_path archive_path : Path) : M unit :=
  emit (EvAttemptRenames (dry_run args) work_path archive_path).

(** ** [main] (lines 186-290) *)

(** The value of [action], one constructor per message of the source. *)
Inductive action : Type :=
| NEW
| NEW_CONFLICT_OVERWRITE
| NEW_CONFLICT_SKIP
| RESYNC
| RENAMED (old_name : string)
| CONFLICT_SKIP
| RESTORE.

#[global] Instance action_eq_dec : EqDecision action.
Proof. solve_decision. Defined.

Definition action_text (a : action) : string :=
  match a with
  | NEW => "NEW"
  | NEW_CONFLICT_OVERWRITE => "NEW OVERWRITING directory of same name in archive"
  | NEW_CONFLICT_SKIP =>
      "SKIPPING: new, but exists in archive. Mark with --mark to sync in future"
  | RESYNC => "re-syncing"
  | RENAMED old => "has been renamed from " +:+ old +:+ ", archive to be updated"
  | CONFLICT_SKIP =>
      "SKIPPING because marked but conflicts with archive. Re-mark with --mark to overwrite"
  | RESTORE => "RESTORING to archive"
  end.

(** What one turn of the scan loop leaves in [action] and [archive_subdir]. *)
Record decision : Type := mk_decision {
  d_work : Path;
  d_action : action;
  d_archive : option Path
}.

#[global] Instance decision_eq_dec : EqDecision decision.
Proof. solve_decision. Defined.

(** Lines 210-215: the dictionary [known_archive_dirs]. *)
Fixpoint collect_known (dirs : list Path) (known : gmap string Path)
  : M (gmap string Path) :=
  match dirs with
  | [] => ret known
  | archive_dir :: rest =>
      d <- is_dir archive_dir ;;
      if d then
        dir_id <- read_dir_id archive_dir ;;
        match dir_id with
        | Some i => collect_known rest (<[i := archive_dir]> known)
        | None => collect_known rest known
        end
      else collect_known rest known
  end.

Definition known_archive_dirs : M (gmap string Path) :=
  dirs <- iterdir ArchiveBase ;;
  collect_known dirs ∅.

Definition node_is_dir (v : node) : bool :=
  match v with Dir _ => true | NotDir => false end.

(** [sorted(filter(lambda p: p.is_dir(), work_base_path.iterdir()))]:
    paths of one root compare by their last component, as strings. *)
Definition sorted_work_dirs : M (list Path) :=
  fun w =>
    let dirs := (List.filter (fun e => node_is_dir e.2) (work w)).*1 in
    (Ret (mk_Path WorkBase <$> merge_sort String.le dirs), w).

(** Lines 221-261: the body of the scan loop, up to the two appends. *)
Definition scan_body (args : Args) (known : gmap string Path) (work_dir : Path)
  : M decision :=
  work_dir_id <- read_dir_id work_dir ;;
  match work_dir_id with
  | None =>
      let test_known_archive_subdir := mk_Path ArchiveBase (name work_dir) in
      e <- exists_ test_known_archive_subdir ;;
      if e then
        if mark_new args then
          mark_dir args work_dir (Some test_known_archive_subdir) ;;;
          ret (mk_decision work_dir NEW_CONFLICT_OVERWRITE (Some test_known_archive_subdir))
        else
          ret (mk_decision work_dir NEW_CONFLICT_SKIP None)
      else
        mark_dir args work_dir None ;;;
        ret (mk_decision work_dir NEW (Some test_known_archive_subdir))
  | Some i =>
      match known !! i with
      | Some known_archive_subdir =>
          if decide (name known_archive_subdir ≠ name work_dir) then
            let act := RENAMED (name known_archive_subdir) in
            if dry_run args then ret (mk_decision work_dir act None)
            else
              let new_known_archive_subdir :=
                mk_Path (parent known_archive_subdir) (name work_dir) in
              os_rename known_archive_subdir new_known_archive_subdir ;;;
              ret (mk_decision work_dir act (Some new_known_archive_subdir))
          else ret (mk_decision work_dir RESYNC (Some known_archive_subdir))
      | None =>
          let test_archive_subdir := mk_Path ArchiveBase (name work_dir) in
          e <- exists_ test_archive_subdir ;;
          if e then ret (mk_decision work_dir CONFLICT_SKIP None)
          else ret (mk_decision work_dir RESTORE (Some test_archive_subdir))
      end
  end.

Fixpoint scan_loop (args : Args) (known : gmap string Path) (dirs : list Path)
  : M (list decision) :=
  match dirs with
  | [] => ret []
  | work_dir :: rest =>
      d <- scan_body args known work_dir ;;
      ds <- scan_loop args known rest ;;
      ret (d :: ds)
  end.

(** Lines 264-267: a turn whose [archive_subdir] is set goes to
    [rsync_todo], any other to [skipped]. *)
Record rsync_item : Type := mk_rsync_item { work_path : Path; archive_path : Path }.
Record skipped_item : Type := mk_skipped_item { skipped_path : Path; skipped_action : action }.

Definition rsync_todo (ds : list decision) : list rsync_item :=
  omap (fun d => mk_rsync_item (d_work d) <$> d_archive d) ds.

Definition skipped (ds : list decision) : list skipped_item :=
  omap (fun d => match d_archive d with
                 | Some _ => None
                 | None => Some (mk_skipped_item (d_work d) (d_action d))
                 end) ds.

(** Lines 208-267: index build and work scan. *)
Definition reconcile (args : Args) : M (list decision) :=
  known <- known_archive_dirs ;;
  dirs <- sorted_work_dirs ;;
  scan_loop args known dirs.

(** Lines 271-280. *)
Fixpoint sync_loop (args : Args) (todo : list rsync_item) : M unit :=
  match todo with
  | [] => ret tt
  | it :: rest =>
      (if rename args then attempt_renames args (work_path it) (archive_path it)
       else ret tt) ;;;
      (if test_no_rsync args then ret tt
       else rsync_dir args (work_path it) (archive_path it)) ;;;
      sync_loop args rest
  end.

Definition mark_requested (args : Args) : option string :=
  match mark args with
  | Some m => if Py.truthy m then Some m else None
  | None => None
  end.

(** [main] returns [None] after [--mark], otherwise 0 or 1. *)
Definition main (args : Args) : M (option Z) :=
  match mark_requested args with
  | Some m =>
      mark_dir args (mk_Path WorkBase m) (Some (mk_Path ArchiveBase m)) ;;;
      ret None
  | None =>
      ds <- reconcile args ;;
      sync_loop args (rsync_todo ds) ;;;
      match skipped ds with
      | _ :: _ => if report_skipped args then ret (Some 1%Z) else ret (Some 0%Z)
      | [] => ret (Some 0%Z)
      end
  end.

(** [sys.exit(main())] *)
Definition exit_status (r : option Z) : Z :=
  match r with
  | None => 0%Z
  | Some n => n
  end.

(** ** [attempt_renames] (lines 118-167) *)

(** The rename pass works on the trees below a work subdirectory and its
    archive counterpart, which the listings above do not hold. It is
    modelled on its own: an entry is a regular file with its [st_size] or
    a directory with its entries in the order of [iterdir()]; the work tree
    is only read, the archive tree is the state, and an exception leaves
    the archive as the renames done so far made it. *)
Module Renames.

Inductive tree : Type :=
| File (st_size : N)
| Folder (entries : list (string * tree)).

Definition dir : Type := list (string * tree).

Fixpoint get (n : string) (l : dir) : option tree :=
  match l with
  | [] => None
  | (k, t) :: l' => if decide (k = n) then Some t else get n l'
  end.

Fixpoint set (n : string) (t : tree) (l : dir) : dir :=
  match l with
  | [] => []
  | (k, x) :: l' => if decide (k = n) then (k, t) :: l' else (k, x) :: set n t l'
  end.

Fixpoint remove (n : string) (l : dir) : dir :=
  match l with
  | [] => []
  | (k, x) :: l' => if decide (k = n) then l' else (k, x) :: remove n l'
  end.

Fixpoint rekey (src dst : string) (l : dir) : dir :=
  match l with
  | [] => []
  | (k, x) :: l' => if decide (k = src) then (dst, x) :: l' else (k, x) :: rekey src dst l'
  end.

Definition is_file (t : tree) : bool :=
  match t with File _ => true | Folder _ => false end.

(** [f.name for f in filter(lambda p: p.is_file(), path.iterdir())] *)
Definition fnames (l : dir) : list string :=
  (List.filter (fun e => is_file e.2) l).*1.

(** [src.rename(dst)] for two names of one directory, POSIX semantics. *)
Definition rename (src dst : string) (l : dir) : outcome unit * dir :=
  if decide (src = dst) then
    match get src l with
    | Some _ => (Ret tt, l)
    | None => (Raise FileNotFoundError, l)
    end
  else
    match get src l with
    | None => (Raise FileNotFoundError, l)
    | Some (File _) =>
        match get dst l with
        | None => (Ret tt, rekey src dst l)
        | Some (File _) => (Ret tt, rekey src dst (remove dst l))
        | Some (Folder _) => (Raise IsADirectoryError, l)
        end
    | Some (Folder _) =>
        match get dst l with
        | None => (Ret tt, rekey src dst l)
        | Some (File _) => (Raise NotADirectoryError, l)
        | Some (Folder []) => (Ret tt, rekey src dst (remove dst l))
        | Some (Folder (_ :: _)) => (Raise DirectoryNotEmpty, l)
        end
    end.

(** [get_stat_id], lines 145-151. It is called on candidates only, which
    are regular files of the directory. *)
Definition st_size_of (l : dir) (n : string) : N :=
  match get n l with
  | Some (File s) => s
  | _ => 0%N
  end.

(** Lines 156-167: the loop over [work_to_id.items()]. *)
Fixpoint rename_loop (dry_run : bool) (id_to_arch : gmap N string)
    (work_to_id : list (string * N)) (l : dir) : outcome unit * dir :=
  match work_to_id with
  | [] => (Ret tt, l)
  | (work, fid) :: rest =>
      match id_to_arch !! fid with
      | None => rename_loop dry_run id_to_arch rest l
      | Some arch =>
          if dry_run then rename_loop dry_run id_to_arch rest l
          else
            match rename arch work l with
            | (Ret _, l') => rename_loop dry_run id_to_arch rest l'
            | (Raise e, l') => (Raise e, l')
            end
      end
  end.

(** Lines 131-134: the recursion into the subdirectories that both sides
    have, [call] being [attempt_renames] itself. *)
Section recurse.
Variable call : tree -> tree -> outcome unit * tree.

Fixpoint recurse (subs : dir) (archive : dir) : outcome unit * dir :=
  match subs with
  | [] => (Ret tt, archive)
  | (n, sub) :: rest =>
      match sub with
      | File _ => recurse rest archive
      | Folder _ =>
          match get n archive with
          | Some (Folder arch_sub) =>
              match call sub (Folder arch_sub) with
              | (Ret _, a) => recurse rest (set n a archive)
              | (Raise e, a) => (Raise e, set n a archive)
              end
          | _ => recurse rest archive
          end
      end
  end.
End recurse.

(** The order in which Python iterates over a set is not specified:
    [difference a b] stands for the enumeration of [set(a) - set(b)]. *)
Section order.
Variable difference : list string -> list string -> list string.

(** Lines 136-167. *)
Definition rename_files (dry_run : bool) (work archive : dir) : outcome unit * dir :=
  let work_fnames := fnames work in
  let arch_fnames := fnames archive in
  let work_candidates := difference work_fnames arch_fnames in
  let arch_candidates := difference arch_fnames work_fnames in
  match work_candidates, arch_candidates with
  | [], _ | _, [] => (Ret tt, archive)
  | _, _ =>
      let work_to_id := (fun p => (p, st_size_of work p)) <$> work_candidates in
      let id_to_arch :=
        foldl (fun m p => <[st_size_of archive p := p]> m) ∅ arch_candidates in
      rename_loop dry_run id_to_arch work_to_id archive
  end.

Fixpoint attempt_renames (dry_run : bool) (work_path archive_path : tree) {struct work_path}
  : outcome unit * tree :=
  match archive_path with
  | File _ => (Ret tt, archive_path)           (* [not archive_path.is_dir()] *)
  | Folder archive =>
      match work_path with
      | File _ => (Raise NotADirectoryError, archive_path)   (* [work_path.iterdir()] *)
      | Folder work =>
          match recurse (attempt_renames dry_run) work archive with
          | (Raise e, archive') => (Raise e, Folder archive')
          | (Ret _, archive') =>
              let (o, archive'') := rename_files dry_run work archive' in
              (o, Folder archive'')
          end
      end
  end.
End order.

End Renames.

(** ** The older script [src/archive_workdir.py] *)

(** The script at the top of [src] has the same [read_dir_id], [mark_dir],
    [rsync_dir] and scan; it has no rename pass, and [--test-no-rsync]
    makes its [main] return before the loop over [rsync_todo]
    (lines 214-221). *)
Module Legacy.

Fixpoint sync_loop (args : Args) (todo : list rsync_item) : M unit :=
  match todo with
  | [] => ret tt
  | it :: rest =>
      rsync_dir args (work_path it) (archive_path it) ;;;
      sync_loop args rest
  end.

(** [main] returns [None] after [--mark] and with [--test-no-rsync],
    otherwise 0 or 1. *)
Definition main (args : Args) : M (option Z) :=
  match mark_requested args with
  | Some m =>
      mark_dir args (mk_Path WorkBase m) (Some (mk_Path ArchiveBase m)) ;;;
      ret None
  | None =>
      ds <- reconcile args ;;
      if test_no_rsync args then ret None
      else
        sync_loop args (rsync_todo ds) ;;;
        match skipped ds with
        | _ :: _ => if report_skipped args then ret (Some 1%Z) else ret (Some 0%Z)
        | [] => ret (Some 0%Z)
        end
  end.

End Legacy.

(** * Vocabulary of the properties *)

(** Same listings and same trace: nothing was written or renamed. *)
Definition same_files (w w' : world) : Prop :=
  work w' = work w /\ archive w' = archive w /\ trace w' = trace w.

(** The first line of a text, without its line end. *)
Definition first_line (content : string) : string :=
  match Py.splitlines content with
  | [] => EmptyString
  | l :: _ => l
  end.

(** [dir_id if dir_id else None] *)
Definition nonblank (s : string) : option string :=
  if Py.truthy s then Some s else None.

(** The reading of the specification: the first line that is not empty,
    each line taken without the white space around it. *)
Definition first_nonempty_line (content : string) : option string :=
  head (List.filter Py.truthy (Py.strip <$> Py.splitlines content)).

(** A clock reading and a directory for the examples. *)
Definition epoch : datetime := mk_datetime 1970 1 1 0 0 0 0.

Definition dir_with (s : sentinel) : node := Dir (mk_directory s ["notes.txt"]).

(** The world after [dir_id] was written into the sentinel of directory [p]. *)
Definition written (p : Path) (dir_id : string) (w : world) : world :=
  match node_at p w with
  | Some (Dir d) =>
      let w' := set_listing (parent p)
                  (put (name p) (Dir (mk_directory (Text dir_id) (others d)))
                     (listing_of (parent p) w)) w in
      mk_world (work w') (archive w') (clock w') (ticks w') (trace w' ++ [EvWrite p dir_id])
  | _ => w
  end.

(** The marker that [mark_dir] generates for [path1] in world [w]. *)
Definition fresh_id (args : Args) (path1 : Path) (w : world) : string :=
  datetime_str (clock w (ticks w)) +:+ " " +:+ path_str args path1.

(** The world after the archive entry [src] took the name of [dst]. *)
Definition moved (src dst : Path) (w : world) : world :=
  let l := listing_of (parent src) w in
  let w' := set_listing (parent src)
              (rekey (name src) (name dst) (drop_entry (name dst) l)) w in
  mk_world (work w') (archive w') (clock w') (ticks w') (trace w' ++ [EvRename src dst]).

(** What [os.rename] of a directory does, by the state of the destination. *)
Inductive rename_target : Type :=
| TargetFree | TargetEmptyDir | TargetFullDir | TargetNotDir.

(** The state of the destination [dst] in the root [b]. *)
Definition target_state (dst : Path) (b : base) (w : world) : rename_target :=
  match assoc (name dst) (listing_of b w) with
  | None => TargetFree
  | Some NotDir => TargetNotDir
  | Some (Dir d) => if is_empty_dir d then TargetEmptyDir else TargetFullDir
  end.

(** [archive_base_path / n] and [work_base_path / n] *)
Definition ap (n : string) : Path := mk_Path ArchiveBase n.

Definition wp (n : string) : Path := mk_Path WorkBase n.

(** Every run of [m] relates the world before to the world after. *)
Definition preserves {A} (R : relation world) (m : M A) : Prop :=
  forall w o w', m w = (o, w') -> R w w'.

(** The index holds paths of the archive root only. *)
Definition known_in_archive (known : gmap string Path) : Prop :=
  forall i k, known !! i = Some k -> parent k = ArchiveBase.

(** The work entry [n] is as it was. *)
Definition work_kept (n : string) : relation world :=
  fun w w' => assoc n (work w') = assoc n (work w).

(** The names of the directories of a listing, in its order. *)
Definition dir_names (l : listing) : list string :=
  (List.filter (fun e => node_is_dir e.2) l).*1.

(** The entries that a run of [main] skipped. *)
Definition skipped_of_run (args : Args) (w : world) : list skipped_item :=
  match mark_requested args, reconcile args w with
  | None, (Ret ds, _) => skipped ds
  | _, _ => []
  end.

(** [m] cannot tell two worlds related by [R] apart, and keeps them related. *)
Definition respects {A} (R : relation world) (m : M A) : Prop :=
  forall w w2, R w w2 -> (m w).1 = (m w2).1 /\ R (m w).2 (m w2).2.

(** The same entries under every name of the work root, whatever the order
    of enumeration, and everything else equal. *)
Definition same_entries (w w2 : world) : Prop :=
  (forall n, assoc n (work w) = assoc n (work w2)) /\
  archive w = archive w2 /\ clock w = clock w2 /\ ticks w = ticks w2 /\
  trace w = trace w2.

(** Events of the scan: sentinel writes and archive renames. *)
Definition is_scan_event (e : event) : Prop :=
  match e with
  | EvWrite _ _ | EvRename _ _ => True
  | EvAttemptRenames _ _ _ | EvRun _ => False
  end.

(** The trace got longer, by events that satisfy [P]. *)
Definition trace_grows (P : event -> Prop) : relation world :=
  fun w w' => exists evs, trace w' = trace w ++ evs /\ Forall P evs.

(** What the loop of lines 271-280 runs, for one entry and for all. *)
Definition sync_events (args : Args) (todo : list rsync_item) : list event :=
  it ← todo;
  (if rename args
   then [EvAttemptRenames (dry_run args) (work_path it) (archive_path it)] else [])
  ++ (if test_no_rsync args then []
      else [EvRun (rsync_command args (work_path it) (archive_path it))]).

(** The list over which the scan loop runs. *)
Definition scan_dirs (w : world) : list Path :=
  wp <$> merge_sort String.le (dir_names (work w)).

(** The archive entry [n] is as it was. *)
Definition archive_kept (n : string) : relation world :=
  fun w w' => assoc n (archive w') = assoc n (archive w).

(** The same command line with [--dry-run] given or not. *)
Definition set_dry_run (b : bool) (args : Args) : Args :=
  mk_Args (work_dir args) (archive_dir args) b (report_skipped args) (mark args)
    (mark_new args) (rename args) (verbose args) (rsync_arg args) (test_no_rsync args).

(** What a dry run may still do: call [attempt_renames] and [rsync], each
    told that the run is a dry run. *)
Definition is_dry_sync_event (e : event) : Prop :=
  match e with
  | EvRun command => "--dry-run" ∈ command
  | EvAttemptRenames dry _ _ => dry = true
  | EvWrite _ _ | EvRename _ _ => False
  end.

(** The archive has the same names. *)
Definition archive_names_kept : relation world :=
  fun w w' => forall n, is_Some (assoc n (archive w')) <-> is_Some (assoc n (archive w)).

(** A decision other than [RENAMED]. *)
Definition not_renamed (d : decision) : Prop :=
  forall old, d_action d <> RENAMED old.

(** Give [n] the node [v]: in place when the name exists, as a new last
    entry otherwise. *)
Definition upsert (n : string) (v : node) (l : listing) : listing :=
  match assoc n l with
  | Some _ => put n v l
  | None => l ++ [(n, v)]
  end.

(** The effect of the [rsync] process on the two roots is outside the
    program. This is the mirror as section 6 of the specification describes
    it: after [rsync -a --delete source/ destination] the destination is a
    copy of the source, sentinel included. *)
Definition mirror (w : world) (it : rsync_item) : world :=
  match node_at (work_path it) w with
  | Some v =>
      set_listing (parent (archive_path it))
        (upsert (name (archive_path it)) v (listing_of (parent (archive_path it)) w)) w
  | None => w
  end.

(** The mirror, run for every entry of [rsync_todo] in order. *)
Definition after_mirror (todo : list rsync_item) (w : world) : world :=
  foldl mirror w todo.

(** The identity that [read_dir_id] finds in a node. *)
Definition node_id (v : node) : option string :=
  match v with
  | Dir d =>
      match awid d with
      | Text content => nonblank (Py.strip (Py.readline content))
      | _ => None
      end
  | NotDir => None
  end.

(** [read_dir_id] does not raise on this node. *)
Definition readable (v : node) : Prop :=
  match v with
  | Dir d => awid d <> Unreadable
  | NotDir => True
  end.

(** No two entries of a listing carry the same identity. *)
Definition unique_ids (l : listing) : Prop :=
  forall n m vn vm i,
    assoc n l = Some vn -> assoc m l = Some vm ->
    node_id vn = Some i -> node_id vm = Some i -> n = m.

(** The items that a scan produces: [work_root/n] to [archive_root/n]. *)
Definition item (n : string) : rsync_item := mk_rsync_item (wp n) (ap n).

(** [p] is a directory. *)
Definition is_dir_at (p : Path) (w : world) : Prop :=
  exists d, node_at p w = Some (Dir d).

(** The state of the work subdirectory of a decision, as a run that is not
    a dry run leaves it. *)
Definition settled (args : Args) (known : gmap string Path) (w : world)
    (d : decision) : Prop :=
  let n := name (d_work d) in
  d_work d = wp n /\ is_dir_at (wp n) w /\
  match d_archive d with
  | Some t => t = ap n /\ exists x, read_dir_id (wp n) w = (Ret (Some x), w)
  | None =>
      (read_dir_id (wp n) w = (Ret None, w) /\ mark_new args = false) \/
      (exists i, read_dir_id (wp n) w = (Ret (Some i), w) /\ known !! i = None)
  end.

(** What one turn of a run that is not a dry run does to the two roots. *)
Definition turn_effect (n : string) (synced : Prop) (w w' : world) : Prop :=
  dir_names (work w') = dir_names (work w) /\
  (forall m, is_dir_at (wp m) w -> is_dir_at (wp m) w') /\
  (NoDup (keys (archive w)) ->
   NoDup (keys (archive w')) /\
   forall m v, assoc m (archive w') = Some v ->
     (m = n /\ synced) \/ assoc m (archive w) = Some v).

(** The names of the work subdirectories that went to [rsync_todo]. *)
Definition synced_names (ds : list decision) : list string :=
  omap (fun d => (fun _ => name (d_work d)) <$> d_archive d) ds.

(** What the second run needs to know of a decision of the first, in the
    world where it starts and with its own index. *)
Definition second_ok (args : Args) (known2 : gmap string Path) (w : world)
    (d : decision) : Prop :=
  let n := name (d_work d) in
  d_work d = wp n /\ is_dir_at (wp n) w /\
  match d_archive d with
  | Some t =>
      t = ap n /\
      exists x, read_dir_id (wp n) w = (Ret (Some x), w) /\ known2 !! x = Some (ap n)
  | None =>
      (read_dir_id (wp n) w = (Ret None, w) /\ mark_new args = false) \/
      (exists i, read_dir_id (wp n) w = (Ret (Some i), w) /\
                 forall k, known2 !! i = Some k -> name k = n)
  end.

(** A pair that the first run synced is re-synced, to the same target. *)
Definition resynced (d1 d2 : decision) : Prop :=
  d_work d2 = d_work d1 /\
  (is_Some (d_archive d1) -> d2 = mk_decision (d_work d1) RESYNC (d_archive d1)).

(** The identities that the entries of a listing carry. *)
Definition ids (l : listing) : list string := omap (fun e => node_id e.2) l.

(** The two roots after a run of [main] that returned: when the run was
    not a dry run and [rsync] was not switched off, every target of
    [rsync_todo] is a copy of its source. *)
Definition after_run (args : Args) (ds : list decision) (w : world) : world :=
  if dry_run args || test_no_rsync args then w
  else after_mirror (rsync_todo ds) w.

(** The commands that were handed to [subprocess.run], in order. *)
Definition mirror_calls (evs : list event) : list (list string) :=
  omap (fun e => match e with EvRun command => Some command | _ => None end) evs.

(** The calls of [attempt_renames], in order. *)
Definition rename_calls (evs : list event) : list (bool * Path * Path) :=
  omap (fun e => match e with
                 | EvAttemptRenames dry p q => Some (dry, p, q)
                 | _ => None
                 end) evs.

(** The archive keeps distinct names. *)
Definition archive_names_distinct : relation world :=
  fun w w' => NoDup (keys (archive w)) -> NoDup (keys (archive w')).

(** The name [m] stays free in the archive. *)
Definition archive_free (m : string) : relation world :=
  fun w w' => assoc m (archive w) = None -> assoc m (archive w') = None.

(** The clock is the same and was read zero or more times. *)
Definition clock_runs : relation world :=
  fun w w' => clock w' = clock w /\ ticks w <= ticks w'.


(** ** Vocabulary of the further properties *)

(** No line end inside [s]. *)
Fixpoint one_line (s : string) : bool :=
  match s with
  | EmptyString => true
  | String c s' => negb (Ascii.eqb c Py.LF) && negb (Ascii.eqb c Py.CR) && one_line s'
  end.

(** [s] is not empty and its last character is not white space. *)
Fixpoint ends_visible (s : string) : bool :=
  match s with
  | EmptyString => false
  | String c EmptyString => negb (Py.isspace c)
  | String _ s' => ends_visible s'
  end.

(** The names of the entries of a listing that carry the identity [i], in
    the order of enumeration. *)
Definition carriers (i : string) (l : listing) : list string :=
  List.filter (fun n => bool_decide (assoc n l ≫= node_id = Some i)) (keys l).

(** What a scan may do to a work entry: leave it as it is, or write a
    sentinel into a directory that carried no identity. *)
Definition gains_marker (v v' : node) : Prop :=
  v' = v \/
  exists d dir_id,
    v = Dir d /\ readable v /\ node_id v = None /\
    v' = Dir (mk_directory (Text dir_id) (others d)) /\ is_Some (node_id v').

Definition work_only_marked : relation world :=
  fun w w' =>
    keys (work w') = keys (work w) /\
    forall n v, assoc n (work w) = Some v ->
      exists v', assoc n (work w') = Some v' /\ gains_marker v v'.

(** The mutations of the scan, without the text of the markers. *)
Inductive effect : Type :=
| Marks (p : Path)
| Moves (src dst : Path).

Definition effect_of (e : event) : option effect :=
  match e with
  | EvWrite p _ => Some (Marks p)
  | EvRename src dst => Some (Moves src dst)
  | EvAttemptRenames _ _ _ | EvRun _ => None
  end.

(** The mutations that go with a decision. *)
Definition announced (args : Args) (d : decision) : list effect :=
  if dry_run args then []
  else match d_action d with
       | NEW => [Marks (d_work d)]
       | NEW_CONFLICT_OVERWRITE => [Marks (d_work d); Marks (ap (name (d_work d)))]
       | RENAMED old_name => [Moves (ap old_name) (ap (name (d_work d)))]
       | NEW_CONFLICT_SKIP | RESYNC | CONFLICT_SKIP | RESTORE => []
       end.

(** The trace got longer by events that are exactly the effects [effs]. *)
Definition performed (effs : list effect) : relation world :=
  fun w w' => exists evs, trace w' = trace w ++ evs /\ effect_of <$> evs = Some <$> effs.

(** Every exception that [m] can end with satisfies [P]. *)
Definition raises_only {A} (P : exn -> Prop) (m : M A) : Prop :=
  forall w e w', m w = (Raise e, w') -> P e.

(** No work candidate is an archive candidate. *)
Definition apart (id_to_arch : gmap N string) (work_to_id : list (string * N)) : Prop :=
  forall k fid fid' a, (k, fid) ∈ work_to_id -> id_to_arch !! fid' = Some a -> k <> a.

(** The recursion into the subdirectories leaves the names and the regular
    files of a directory as they are. *)
Definition top_kept (l l' : Renames.dir) : Prop :=
  l'.*1 = l.*1 /\ Renames.fnames l' = Renames.fnames l /\
  forall n, Renames.get n l' = Renames.get n l \/
            exists x y, Renames.get n l = Some (Renames.Folder x) /\
                        Renames.get n l' = Some (Renames.Folder y).

(** [difference a b] enumerates the elements of [set(a) - set(b)], each
    once, in some order. *)
Definition set_difference (difference : list string -> list string -> list string) : Prop :=
  forall a b, difference a b ≡ₚ list_difference a b.

(** A tree without the names of its regular files. *)
Fixpoint anonymous (t : Renames.tree) : Renames.tree :=
  match t with
  | Renames.File s => Renames.File s
  | Renames.Folder l =>
      Renames.Folder
        (List.map (fun '(n, x) =>
                     (if Renames.is_file x then EmptyString else n, anonymous x)) l)
  end.

(** No directory of the tree has two entries of one name. *)
Inductive well_formed : Renames.tree -> Prop :=
| wf_File s : well_formed (Renames.File s)
| wf_Folder l :
    NoDup l.*1 -> Forall (fun e => well_formed e.2) l -> well_formed (Renames.Folder l).

(** * Properties *)

(** ** Running programs *)

Lemma bind_Ret {A B} (m : M A) (k : A -> M B) w a w' :
  m w = (Ret a, w') -> bind m k w = k a w'.
Proof. unfold bind. by intros ->. Qed.

Lemma bind_Raise {A B} (m : M A) (k : A -> M B) w e w' :
  m w = (Raise e, w') -> bind m k w = (Raise e, w').
Proof. unfold bind. by intros ->. Qed.

Lemma bind_inv_Ret {A B} (m : M A) (k : A -> M B) w b w2 :
  bind m k w = (Ret b, w2) ->
  exists a w1, m w = (Ret a, w1) /\ k a w1 = (Ret b, w2).
Proof.
  unfold bind. destruct (m w) as [[a|e] w1]; [eauto | discriminate].
Qed.

#[global] Instance same_files_refl : Reflexive same_files.
Proof. by intros w. Qed.

Lemma same_files_trans w1 w2 w3 :
  same_files w1 w2 -> same_files w2 w3 -> same_files w1 w3.
Proof. unfold same_files. intros (?&?&?) (?&?&?). repeat split; congruence. Qed.

(** ** Strings *)

Lemma append_cons c s t : String c s +:+ t = String c (s +:+ t).
Proof. reflexivity. Qed.

Lemma append_nil_r s : s +:+ EmptyString = s.
Proof. induction s as [|c s IH]; [done|]. by rewrite append_cons, IH. Qed.

Lemma append_assoc s t u : (s +:+ t) +:+ u = s +:+ (t +:+ u).
Proof. induction s as [|c s IH]; [done|]. by rewrite !append_cons, IH. Qed.

Lemma rstrip_snoc_space s c :
  Py.isspace c = true -> Py.rstrip (s +:+ String c EmptyString) = Py.rstrip s.
Proof.
  intros Hc. induction s as [|a s IH].
  - simpl. unfold String.app. simpl. by rewrite Hc.
  - rewrite append_cons. simpl. by rewrite IH.
Qed.

Lemma strip_snoc_space s c :
  Py.isspace c = true -> Py.strip (s +:+ String c EmptyString) = Py.strip s.
Proof.
  intros Hc. unfold Py.strip. induction s as [|a s IH].
  - unfold String.app. simpl. by rewrite Hc.
  - rewrite append_cons. simpl. destruct (Py.isspace a); [done|].
    by rewrite <- append_cons, rstrip_snoc_space.
Qed.

Lemma strip_readline_splitlines cur s :
  Py.strip (cur +:+ Py.readline s)
  = Py.strip (match Py.splitlines_go cur s with [] => EmptyString | l :: _ => l end).
Proof.
  revert cur. induction s as [|c s IH]; intros cur; simpl.
  - rewrite append_nil_r. by destruct cur.
  - destruct (Ascii.eqb c Py.LF) eqn:E1; [by apply strip_snoc_space|].
    destruct (Ascii.eqb c Py.CR) eqn:E2.
    + rewrite strip_snoc_space by done.
      destruct s as [|c' s']; [done|]. by destruct (Ascii.eqb c' Py.LF).
    + rewrite <- IH. f_equal. by rewrite append_assoc.
Qed.

Lemma strip_readline content :
  Py.strip (Py.readline content) = Py.strip (first_line content).
Proof. apply (strip_readline_splitlines EmptyString). Qed.

(** ** Reading an identity *)

Lemma read_dir_id_world path w o w' : read_dir_id path w = (o, w') -> w' = w.
Proof.
  unfold read_dir_id. destruct (node_at path w) as [[d|]|]; [|congruence..].
  destruct (awid d); congruence.
Qed.

(** C7, as amended: [read_dir_id] returns the first line of the sentinel
    file, without the white space around it, when that is not empty; it
    returns [None], and raises nothing, when the sentinel file is absent,
    empty, or begins with a blank line. Nothing is changed. *)
Theorem C7_read_dir_id_first_line path w d :
  node_at path w = Some (Dir d) ->
  (awid d = Absent -> read_dir_id path w = (Ret None, w)) /\
  (awid d = Text EmptyString -> read_dir_id path w = (Ret None, w)) /\
  (forall content, awid d = Text content ->
     read_dir_id path w = (Ret (nonblank (Py.strip (first_line content))), w)).
Proof.
  intros Hn. unfold read_dir_id. rewrite Hn. repeat split.
  - by intros ->.
  - by intros ->.
  - intros content ->. by rewrite strip_readline.
Qed.

Lemma C7_read_dir_id_first_line_witness :
  let content := "B1  " +:+ String Py.CR (String Py.LF "second line") in
  let w := mk_world [("beta", dir_with (Text content))] [] (fun _ => epoch) 0 [] in
  read_dir_id (mk_Path WorkBase "beta") w = (Ret (Some "B1"), w).
Proof.
  intros content w.
  exact (proj2 (proj2 (C7_read_dir_id_first_line (mk_Path WorkBase "beta") w
                         (mk_directory (Text content) ["notes.txt"]) eq_refl))
           content eq_refl).
Defined.

(** C7, as stated, fails: the sentinel file below is neither absent nor
    empty and its first non-empty line is [abc], yet no identity is read. *)
Lemma C7_counterexample :
  let content := String Py.LF "abc" in
  let w := mk_world [("d", dir_with (Text content))] [] (fun _ => epoch) 0 [] in
  first_nonempty_line content = Some "abc" /\
  read_dir_id (mk_Path WorkBase "d") w = (Ret None, w).
Proof. split; reflexivity. Qed.

(** ** Listings *)

Lemma assoc_put n m v l :
  assoc n (put m v l) = if decide (m = n) then (fun _ => v) <$> assoc n l else assoc n l.
Proof.
  induction l as [|[k x] l IH]; simpl; [by case_decide|].
  repeat (case_decide; simplify_eq/=); try done; by rewrite IH; case_decide.
Qed.

Lemma assoc_put_ne n m v l : m <> n -> assoc n (put m v l) = assoc n l.
Proof. intros. rewrite assoc_put. by case_decide. Qed.

Lemma keys_put m v l : keys (put m v l) = keys l.
Proof.
  unfold keys. induction l as [|[k x] l IH]; simpl; [done|].
  case_decide; simpl; [done|by f_equal].
Qed.

Lemma assoc_None n l : assoc n l = None <-> n ∉ keys l.
Proof.
  unfold keys. induction l as [|[k x] l IH]; simpl.
  - split; [intros _; apply not_elem_of_nil | done].
  - rewrite not_elem_of_cons. case_decide; simplify_eq/=.
    + split; [done | by intros [? _]].
    + rewrite IH. split; [done | by intros [_ ?]].
Qed.

Lemma assoc_Some_elem n v l : assoc n l = Some v -> (n, v) ∈ l.
Proof.
  induction l as [|[k x] l IH]; simpl; [done|].
  case_decide; simplify_eq/=; [intros [= ->]; left | right; auto].
Qed.

Lemma assoc_elem n v l : NoDup (keys l) -> (n, v) ∈ l -> assoc n l = Some v.
Proof.
  unfold keys. induction l as [|[k x] l IH]; simpl.
  - by intros _ ?%elem_of_nil.
  - intros [Hk Hl]%NoDup_cons [[= -> ->]|Hin]%elem_of_cons.
    + by case_decide.
    + case_decide; simplify_eq/=; [|auto].
      destruct Hk. apply list_elem_of_fmap. by exists (n, v).
Qed.

Lemma assoc_drop_ne n m l : m <> n -> assoc n (drop_entry m l) = assoc n l.
Proof.
  intros Hne. induction l as [|[k x] l IH]; simpl; [done|].
  repeat (case_decide; simplify_eq/=); done.
Qed.

Lemma assoc_rekey_ne n src dst l :
  src <> n -> dst <> n -> assoc n (rekey src dst l) = assoc n l.
Proof.
  intros H1 H2. induction l as [|[k x] l IH]; simpl; [done|].
  repeat (case_decide; simplify_eq/=); done.
Qed.


(** ** The primitive operations *)

Arguments write_awid : simpl never.
Arguments os_rename : simpl never.
Arguments read_dir_id : simpl never.
Arguments tick : simpl never.
Arguments written : simpl never.

Lemma write_awid_Dir p dir_id w d :
  node_at p w = Some (Dir d) -> write_awid p dir_id w = (Ret tt, written p dir_id w).
Proof. intros Hn. unfold write_awid, written. by rewrite Hn. Qed.

Lemma write_awid_missing p dir_id w :
  node_at p w = None -> write_awid p dir_id w = (Raise FileNotFoundError, w).
Proof. intros Hn. unfold write_awid. by rewrite Hn. Qed.

Lemma write_awid_NotDir p dir_id w :
  node_at p w = Some NotDir -> write_awid p dir_id w = (Raise NotADirectoryError, w).
Proof. intros Hn. unfold write_awid. by rewrite Hn. Qed.

Lemma node_at_tick p w : node_at p (tick w) = node_at p w.
Proof. by destruct p as [[] ?]. Qed.

Lemma mark_dir_dry args path1 path2 w :
  dry_run args = true ->
  mark_dir args path1 path2 w = (Ret (fresh_id args path1 w), tick w).
Proof.
  intros Hd. unfold mark_dir, bind, datetime_now.
  destruct path2; simpl; unfold bind; by rewrite ?Hd.
Qed.

Lemma mark_dir_one args path1 w d :
  dry_run args = false -> node_at path1 w = Some (Dir d) ->
  mark_dir args path1 None w
  = (Ret (fresh_id args path1 w), written path1 (fresh_id args path1 w) (tick w)).
Proof.
  intros Hd Hn. unfold mark_dir, bind, datetime_now. simpl. unfold bind.
  rewrite Hd. by erewrite write_awid_Dir by (by rewrite node_at_tick).
Qed.

Lemma mark_dir_two args path1 path2 w d1 d2 :
  dry_run args = false ->
  node_at path1 w = Some (Dir d1) ->
  node_at path2 (written path1 (fresh_id args path1 w) (tick w)) = Some (Dir d2) ->
  mark_dir args path1 (Some path2) w
  = (Ret (fresh_id args path1 w),
     written path2 (fresh_id args path1 w)
       (written path1 (fresh_id args path1 w) (tick w))).
Proof.
  intros Hd Hn1 Hn2. unfold mark_dir, bind, datetime_now. simpl. unfold bind.
  rewrite Hd. erewrite write_awid_Dir by (by rewrite node_at_tick).
  by erewrite write_awid_Dir.
Qed.

Lemma node_at_written q p dir_id w :
  node_at q (written p dir_id w)
  = if decide (p = q)
    then match node_at q w with
         | Some (Dir d) => Some (Dir (mk_directory (Text dir_id) (others d)))
         | o => o
         end
    else node_at q w.
Proof.
  unfold written. destruct (node_at p w) as [[d|]|] eqn:Hp.
  - destruct p as [bp np], q as [bq nq]. unfold node_at in *. simpl in *.
    case_decide as Hpq.
    + simplify_eq. destruct bq; simpl in *; rewrite assoc_put, decide_True by done;
        by rewrite Hp.
    + destruct bp, bq; simpl; try done;
        rewrite assoc_put_ne; congruence.
  - case_decide; simplify_eq; [by rewrite Hp | done].
  - case_decide; simplify_eq; [by rewrite Hp | done].
Qed.

Arguments moved : simpl never.

Lemma drop_entry_absent n l : assoc n l = None -> drop_entry n l = l.
Proof.
  induction l as [|[k x] l IH]; simpl; [done|].
  case_decide; [done|]. intros ?. f_equal. auto.
Qed.

Lemma os_rename_Dir src dst w d :
  node_at src w = Some (Dir d) ->
  os_rename src dst w =
    match target_state dst (parent src) w with
    | TargetFree | TargetEmptyDir => (Ret tt, moved src dst w)
    | TargetFullDir => (Raise DirectoryNotEmpty, w)
    | TargetNotDir => (Raise NotADirectoryError, w)
    end.
Proof.
  unfold node_at, os_rename, target_state, moved, emit. intros ->.
  destruct (assoc (name dst) _) as [[d'|]|] eqn:Hd; [| done |].
  - by destruct (is_empty_dir d').
  - by rewrite (drop_entry_absent _ _ Hd).
Qed.

Lemma os_rename_missing src dst w :
  node_at src w = None -> os_rename src dst w = (Raise FileNotFoundError, w).
Proof. unfold node_at, os_rename. by intros ->. Qed.

Lemma os_rename_Raise src dst w e w' :
  os_rename src dst w = (Raise e, w') -> w' = w.
Proof.
  unfold os_rename, emit.
  repeat case_match; congruence.
Qed.

(** ** One turn of the scan loop, case by case *)

Lemma exists_eq p w : exists_ p w = (Ret (bool_decide (is_Some (node_at p w))), w).
Proof. done. Qed.

Section scan_body_cases.
Context (args : Args) (known : gmap string Path) (work_dir : Path) (w : world).

Lemma scan_body_read_error e w' :
  read_dir_id work_dir w = (Raise e, w') ->
  scan_body args known work_dir w = (Raise e, w').
Proof. intros H. unfold scan_body. by rewrite (bind_Raise _ _ _ _ _ H). Qed.

Lemma scan_body_NEW :
  read_dir_id work_dir w = (Ret None, w) ->
  node_at (ap (name work_dir)) w = None ->
  scan_body args known work_dir w
  = bind (mark_dir args work_dir None)
      (fun _ => ret (mk_decision work_dir NEW (Some (ap (name work_dir))))) w.
Proof.
  intros H Hn. unfold scan_body. rewrite (bind_Ret _ _ _ _ _ H).
  rewrite (bind_Ret _ _ _ _ _ (exists_eq _ _)). fold (ap (name work_dir)).
  rewrite Hn. rewrite bool_decide_eq_false_2; [done|]. by intros [? ?].
Qed.

Lemma scan_body_NEW_CONFLICT_OVERWRITE v :
  read_dir_id work_dir w = (Ret None, w) ->
  node_at (ap (name work_dir)) w = Some v ->
  mark_new args = true ->
  scan_body args known work_dir w
  = bind (mark_dir args work_dir (Some (ap (name work_dir))))
      (fun _ => ret (mk_decision work_dir NEW_CONFLICT_OVERWRITE
                       (Some (ap (name work_dir))))) w.
Proof.
  intros H Hn Hm. unfold scan_body. rewrite (bind_Ret _ _ _ _ _ H).
  rewrite (bind_Ret _ _ _ _ _ (exists_eq _ _)). fold (ap (name work_dir)).
  rewrite Hn, Hm. by rewrite bool_decide_eq_true_2.
Qed.

Lemma scan_body_NEW_CONFLICT_SKIP v :
  read_dir_id work_dir w = (Ret None, w) ->
  node_at (ap (name work_dir)) w = Some v ->
  mark_new args = false ->
  scan_body args known work_dir w
  = (Ret (mk_decision work_dir NEW_CONFLICT_SKIP None), w).
Proof.
  intros H Hn Hm. unfold scan_body. rewrite (bind_Ret _ _ _ _ _ H).
  rewrite (bind_Ret _ _ _ _ _ (exists_eq _ _)). fold (ap (name work_dir)).
  rewrite Hn, Hm. by rewrite bool_decide_eq_true_2.
Qed.

Lemma scan_body_RESYNC i k :
  read_dir_id work_dir w = (Ret (Some i), w) ->
  known !! i = Some k -> name k = name work_dir ->
  scan_body args known work_dir w
  = (Ret (mk_decision work_dir RESYNC (Some k)), w).
Proof.
  intros H Hk Hn. unfold scan_body. rewrite (bind_Ret _ _ _ _ _ H).
  rewrite Hk. by rewrite decide_False by (by intros []).
Qed.


Lemma scan_body_RENAMED i k :
  read_dir_id work_dir w = (Ret (Some i), w) ->
  known !! i = Some k -> name k <> name work_dir ->
  dry_run args = false ->
  scan_body args known work_dir w
  = bind (os_rename k (mk_Path (parent k) (name work_dir)))
      (fun _ => ret (mk_decision work_dir (RENAMED (name k))
                       (Some (mk_Path (parent k) (name work_dir))))) w.
Proof.
  intros H Hk Hn Hd. unfold scan_body. rewrite (bind_Ret _ _ _ _ _ H).
  rewrite Hk. by rewrite decide_True, Hd by done.
Qed.

Lemma scan_body_CONFLICT_SKIP i v :
  read_dir_id work_dir w = (Ret (Some i), w) ->
  known !! i = None ->
  node_at (ap (name work_dir)) w = Some v ->
  scan_body args known work_dir w
  = (Ret (mk_decision work_dir CONFLICT_SKIP None), w).
Proof.
  intros H Hk Hn. unfold scan_body. rewrite (bind_Ret _ _ _ _ _ H).
  rewrite Hk. rewrite (bind_Ret _ _ _ _ _ (exists_eq _ _)).
  fold (ap (name work_dir)). rewrite Hn. by rewrite bool_decide_eq_true_2.
Qed.

Lemma scan_body_RESTORE i :
  read_dir_id work_dir w = (Ret (Some i), w) ->
  known !! i = None ->
  node_at (ap (name work_dir)) w = None ->
  scan_body args known work_dir w
  = (Ret (mk_decision work_dir RESTORE (Some (ap (name work_dir)))), w).
Proof.
  intros H Hk Hn. unfold scan_body. rewrite (bind_Ret _ _ _ _ _ H).
  rewrite Hk. rewrite (bind_Ret _ _ _ _ _ (exists_eq _ _)).
  fold (ap (name work_dir)). rewrite Hn.
  rewrite bool_decide_eq_false_2; [done|]. by intros [? ?].
Qed.

End scan_body_cases.

Lemma os_rename_cases src dst w :
  (is_Some (node_at src w) /\ os_rename src dst w = (Ret tt, moved src dst w))
  \/ (exists e, os_rename src dst w = (Raise e, w)).
Proof.
  unfold os_rename, node_at, moved, emit.
  destruct (assoc (name src) _) as [[d|]|] eqn:Hs; [| |by eauto];
    (destruct (assoc (name dst) _) as [[d'|]|] eqn:Hd;
     [try destruct (is_empty_dir d') | |
      rewrite (drop_entry_absent _ _ Hd)]); eauto.
Qed.

(** ** Relations that every step of a program keeps *)

Section preserves.
Context (R : relation world) `{!PreOrder R}.

Lemma preserves_ret {A} (a : A) : preserves R (ret a).
Proof. intros w o w' [= _ <-]. reflexivity. Qed.

Lemma preserves_raise {A} e : preserves R (@raise A e).
Proof. intros w o w' [= _ <-]. reflexivity. Qed.

Lemma preserves_bind {A B} (m : M A) (k : A -> M B) :
  preserves R m -> (forall a, preserves R (k a)) -> preserves R (bind m k).
Proof.
  intros Hm Hk w o w'. unfold bind.
  destruct (m w) as [[a|e] w1] eqn:E; intros H.
  - etrans; [by eapply Hm | by eapply Hk].
  - simplify_eq. by eapply Hm.
Qed.

Lemma preserves_read_dir_id p : preserves R (read_dir_id p).
Proof. intros w o w' ->%read_dir_id_world. reflexivity. Qed.

Lemma preserves_exists p : preserves R (exists_ p).
Proof. intros w o w' [= _ <-]. reflexivity. Qed.

Lemma preserves_is_dir p : preserves R (is_dir p).
Proof. intros w o w' [= _ <-]. reflexivity. Qed.

Lemma preserves_datetime_now :
  (forall w, R w (tick w)) -> preserves R datetime_now.
Proof. intros Ht w o w' [= _ <-]. apply Ht. Qed.

Lemma preserves_write_awid p dir_id :
  (forall w, R w (written p dir_id w)) -> preserves R (write_awid p dir_id).
Proof.
  intros Hw w o w'. destruct (node_at p w) as [[d|]|] eqn:Hn.
  - rewrite (write_awid_Dir _ _ _ _ Hn). intros [= _ <-]. apply Hw.
  - rewrite (write_awid_NotDir _ _ _ Hn). intros [= _ <-]. reflexivity.
  - rewrite (write_awid_missing _ _ _ Hn). intros [= _ <-]. reflexivity.
Qed.

Lemma preserves_os_rename src dst :
  (forall w, is_Some (node_at src w) -> R w (moved src dst w)) ->
  preserves R (os_rename src dst).
Proof.
  intros Hm w o w' H. destruct (os_rename_cases src dst w) as [[Hs E]|[e E]].
  - rewrite E in H. simplify_eq. by apply Hm.
  - rewrite E in H. simplify_eq. reflexivity.
Qed.

Lemma preserves_mark_dir args path1 path2 :
  (forall w, R w (tick w)) ->
  (forall dir_id w, dry_run args = false -> R w (written path1 dir_id w)) ->
  (forall p dir_id w, dry_run args = false -> path2 = Some p ->
     R w (written p dir_id w)) ->
  preserves R (mark_dir args path1 path2).
Proof.
  intros Ht H1 H2. unfold mark_dir.
  apply preserves_bind; [by apply preserves_datetime_now|]. intros t.
  apply preserves_bind; [|intros; apply preserves_ret].
  destruct path2 as [p|]; simpl;
    repeat (apply preserves_bind; [|intros _]);
    try apply preserves_ret;
    destruct (dry_run args) eqn:Hd; try apply preserves_ret;
    apply preserves_write_awid; eauto.
Qed.

Lemma preserves_scan_body args known work_dir :
  (forall w, R w (tick w)) ->
  (forall dir_id w, dry_run args = false -> R w (written work_dir dir_id w)) ->
  (forall dir_id w, dry_run args = false -> mark_new args = true ->
     R w (written (ap (name work_dir)) dir_id w)) ->
  (forall i k w, dry_run args = false -> known !! i = Some k ->
     name k <> name work_dir -> is_Some (node_at k w) ->
     R w (moved k (mk_Path (parent k) (name work_dir)) w)) ->
  preserves R (scan_body args known work_dir).
Proof.
  intros Ht Hw Ha Hm. unfold scan_body.
  apply preserves_bind; [apply preserves_read_dir_id|]. intros [i|].
  - destruct (known !! i) as [k|] eqn:Hk.
    + case_decide; [|apply preserves_ret].
      destruct (dry_run args) eqn:Hd; [apply preserves_ret|].
      apply preserves_bind; [|intros; apply preserves_ret].
      apply preserves_os_rename; intros; eapply Hm; eauto.
    + apply preserves_bind; [apply preserves_exists|].
      intros []; apply preserves_ret.
  - apply preserves_bind; [apply preserves_exists|]. intros [].
    + destruct (mark_new args) eqn:Hmn; [|apply preserves_ret].
      apply preserves_bind; [|intros; apply preserves_ret].
      apply preserves_mark_dir; auto. intros ???? [= <-]. auto.
    + apply preserves_bind; [|intros; apply preserves_ret].
      apply preserves_mark_dir; auto. done.
Qed.

Lemma preserves_scan_loop args known dirs :
  (forall w, R w (tick w)) ->
  (forall p dir_id w, p ∈ dirs -> dry_run args = false ->
     R w (written p dir_id w)) ->
  (forall p dir_id w, p ∈ dirs -> dry_run args = false -> mark_new args = true ->
     R w (written (ap (name p)) dir_id w)) ->
  (forall p i k w, p ∈ dirs -> dry_run args = false -> known !! i = Some k ->
     name k <> name p -> is_Some (node_at k w) ->
     R w (moved k (mk_Path (parent k) (name p)) w)) ->
  preserves R (scan_loop args known dirs).
Proof.
  intros Ht Hw Ha Hm. induction dirs as [|p dirs IH]; simpl.
  - apply preserves_ret.
  - apply preserves_bind.
    + apply preserves_scan_body; intros; eauto using list_elem_of_here.
    + intros d. apply preserves_bind; [|intros; apply preserves_ret].
      apply IH; intros; eauto using list_elem_of_further.
Qed.

Lemma preserves_collect_known dirs known : preserves R (collect_known dirs known).
Proof.
  revert known. induction dirs as [|p dirs IH]; intros known; simpl.
  - apply preserves_ret.
  - apply preserves_bind; [apply preserves_is_dir|]. intros [|]; [|apply IH].
    apply preserves_bind; [apply preserves_read_dir_id|]. intros [i|]; apply IH.
Qed.

End preserves.

(** ** Inverting a run that returned *)

Lemma ret_inv {A} (a b : A) w w' : ret a w = (Ret b, w') -> a = b /\ w = w'.
Proof. by intros [= -> ->]. Qed.

Ltac inv_run :=
  repeat match goal with
    | H : bind _ _ _ = (Ret _, _) |- _ =>
        let a := fresh "a" in let w := fresh "w" in let E := fresh "E" in
        apply bind_inv_Ret in H as (a & w & E & H)
    | H : ret _ _ = (Ret _, _) |- _ => apply ret_inv in H as [? ?]; subst
    | H : ret _ _ = (Raise _, _) |- _ => discriminate H
    | H : (Ret _, _) = (Ret _, _) |- _ => inversion H; subst; clear H
    | H : (if ?b then _ else _) _ = (_, _) |- _ => destruct b eqn:?
    | H : (match ?x with _ => _ end) _ = (_, _) |- _ => destruct x eqn:?
    end.

Lemma scan_body_decision args known work_dir w d w' :
  scan_body args known work_dir w = (Ret d, w') ->
  d_work d = work_dir /\
  (forall t, d_archive d = Some t ->
     name t = name work_dir /\ (known_in_archive known -> t = ap (name work_dir))).
Proof.
  unfold scan_body. intros H. inv_run; simpl; (split; [done|]); try done;
    intros t [= <-]; (split; [try done|]); try done.
  - intros Hk. unfold ap. f_equal. eauto.
  - by apply dec_stable.
  - intros Hk. destruct p as [b m]. unfold ap. f_equal.
    + eapply (Hk _ (mk_Path b m)); eauto.
    + by apply dec_stable.
Qed.

Lemma scan_loop_works args known dirs w ds w' :
  scan_loop args known dirs w = (Ret ds, w') -> d_work <$> ds = dirs.
Proof.
  revert w ds. induction dirs as [|p dirs IH]; intros w ds H; simpl in H; inv_run.
  - done.
  - simpl. f_equal; [by eapply scan_body_decision | by eapply IH].
Qed.

Lemma bind_assoc {A B C} (m : M A) (f : A -> M B) (g : B -> M C) w :
  bind (bind m f) g w = bind m (fun a => bind (f a) g) w.
Proof. unfold bind. by destruct (m w) as [[a|e] w1]. Qed.

Lemma bind_ext {A B} (m : M A) (k1 k2 : A -> M B) w :
  (forall a w1, k1 a w1 = k2 a w1) -> bind m k1 w = bind m k2 w.
Proof. intros H. unfold bind. by destruct (m w) as [[a|e] w1]. Qed.

Lemma bind_ret_l {A B} (a : A) (k : A -> M B) w : bind (ret a) k w = k a w.
Proof. done. Qed.

Lemma bind_cong {A B} (m1 m2 : M A) (k : A -> M B) w :
  m1 w = m2 w -> bind m1 k w = bind m2 k w.
Proof. unfold bind. by intros ->. Qed.

Lemma scan_loop_app args known dirs1 dirs2 w :
  scan_loop args known (dirs1 ++ dirs2) w
  = bind (scan_loop args known dirs1)
      (fun ds1 => bind (scan_loop args known dirs2)
                    (fun ds2 => ret (ds1 ++ ds2))) w.
Proof.
  revert w. induction dirs1 as [|p dirs1 IH]; intros w; simpl.
  - unfold bind, ret. by destruct (scan_loop _ _ _ _) as [[ds|e] w'].
  - rewrite bind_assoc. apply bind_ext. intros d w1.
    rewrite (bind_cong _ _ _ _ (IH w1)), !bind_assoc. apply bind_ext. intros ds1 w2.
    rewrite bind_assoc, bind_ret_l. by apply bind_ext.
Qed.

(** A loop that returned went through each of its turns. *)
Lemma scan_loop_turn args known pre p post w ds w' :
  scan_loop args known (pre ++ p :: post) w = (Ret ds, w') ->
  exists ds1 w1 d w2 ds2,
    scan_loop args known pre w = (Ret ds1, w1) /\
    scan_body args known p w1 = (Ret d, w2) /\
    scan_loop args known post w2 = (Ret ds2, w') /\
    ds = ds1 ++ d :: ds2.
Proof.
  rewrite scan_loop_app. intros H. simpl in H. inv_run. eauto 10.
Qed.

(** ** The index of the archive *)

Lemma read_dir_id_Raise p w e w' :
  read_dir_id p w = (Raise e, w') ->
  e = SentinelReadError /\ w' = w /\
  exists d, node_at p w = Some (Dir d) /\ awid d = Unreadable.
Proof.
  unfold read_dir_id. destruct (node_at p w) as [[d|]|]; [|done..].
  destruct (awid d) eqn:Ha; intros [= <- <-]; eauto.
Qed.

Lemma read_dir_id_Unreadable p w d :
  node_at p w = Some (Dir d) -> awid d = Unreadable ->
  read_dir_id p w = (Raise SentinelReadError, w).
Proof. unfold read_dir_id. by intros -> ->. Qed.

Lemma collect_known_world dirs known w o w' :
  collect_known dirs known w = (o, w') -> w' = w.
Proof. intros H. symmetry. by eapply (preserves_collect_known eq). Qed.

Lemma collect_known_unreadable dirs known w p d :
  p ∈ dirs -> node_at p w = Some (Dir d) -> awid d = Unreadable ->
  collect_known dirs known w = (Raise SentinelReadError, w).
Proof.
  intros Hin Hn Ha. revert known.
  induction Hin as [p dirs|p q dirs Hin IH]; intros known; simpl;
    [|specialize (IH Hn)].
  - unfold bind at 1. unfold is_dir. rewrite Hn.
    by rewrite (bind_Raise _ _ _ _ _ (read_dir_id_Unreadable _ _ _ Hn Ha)).
  - unfold bind at 1. unfold is_dir.
    destruct (node_at q w) as [[dq|]|] eqn:Hq; [|apply IH..].
    destruct (read_dir_id q w) as [[[i|]|e] w1] eqn:E.
    + rewrite (bind_Ret _ _ _ _ _ E).
      apply read_dir_id_world in E as ->. apply IH.
    + rewrite (bind_Ret _ _ _ _ _ E).
      apply read_dir_id_world in E as ->. apply IH.
    + rewrite (bind_Raise _ _ _ _ _ E).
      by apply read_dir_id_Raise in E as (-> & -> & _).
Qed.

Lemma collect_known_in_archive dirs known w known' w' :
  Forall (fun p => parent p = ArchiveBase) dirs ->
  known_in_archive known ->
  collect_known dirs known w = (Ret known', w') ->
  known_in_archive known'.
Proof.
  intros Hd. revert known w. induction Hd as [|p dirs Hp Hd IH]; intros known w Hk H;
    simpl in H; inv_run; eauto.
  eapply IH; [|done]. intros i k. rewrite lookup_insert.
  case_decide; [by intros [= <-] | apply (Hk i k)].
Qed.

Lemma known_archive_dirs_in_archive w known w' :
  known_archive_dirs w = (Ret known, w') -> known_in_archive known /\ w' = w.
Proof.
  unfold known_archive_dirs, iterdir. intros H. inv_run. split.
  - eapply collect_known_in_archive; [| |done].
    + apply Forall_fmap, Forall_true. done.
    + intros i k. by rewrite lookup_empty.
  - by apply collect_known_world in H.
Qed.

(** ** What a turn leaves alone *)

#[global] Instance work_kept_preorder n : PreOrder (work_kept n).
Proof. split; [by intros w | intros w1 w2 w3; unfold work_kept; congruence]. Qed.

Lemma work_written p dir_id w n :
  p <> wp n -> assoc n (work (written p dir_id w)) = assoc n (work w).
Proof.
  intros Hp. change (node_at (wp n) (written p dir_id w) = node_at (wp n) w).
  rewrite node_at_written. by case_decide.
Qed.

Lemma work_moved src dst w :
  parent src = ArchiveBase -> work (moved src dst w) = work w.
Proof. destruct src as [b n]. simpl. by intros ->. Qed.

Lemma scan_body_work_kept args known p n :
  known_in_archive known -> p <> wp n ->
  preserves (work_kept n) (scan_body args known p).
Proof.
  intros Hk Hp. apply preserves_scan_body; [apply _|..]; unfold work_kept.
  - done.
  - intros. by apply work_written.
  - intros. by apply work_written.
  - intros. rewrite work_moved; eauto.
Qed.

Lemma scan_loop_work_kept args known dirs n :
  known_in_archive known -> wp n ∉ dirs ->
  preserves (work_kept n) (scan_loop args known dirs).
Proof.
  intros Hk Hp. apply preserves_scan_loop; [apply _|..]; unfold work_kept.
  - done.
  - intros. apply work_written. by intros ->.
  - intros. by apply work_written.
  - intros. rewrite work_moved; eauto.
Qed.

Lemma scan_loop_unreadable args known dirs w n d :
  known_in_archive known ->
  wp n ∈ dirs ->
  assoc n (work w) = Some (Dir d) -> awid d = Unreadable ->
  exists e w', scan_loop args known dirs w = (Raise e, w').
Proof.
  intros Hk Hin. revert w. induction dirs as [|q dirs IH]; intros w Hn Ha.
  - by apply elem_of_nil in Hin.
  - simpl. destruct (decide (q = wp n)) as [->|Hq].
    + exists SentinelReadError, w. apply bind_Raise, scan_body_read_error.
      by apply read_dir_id_Unreadable with d.
    + apply elem_of_cons in Hin as [Hin|Hin]; [done|].
      destruct (scan_body args known q w) as [[dq|e] w1] eqn:E.
      * rewrite (bind_Ret _ _ _ _ _ E).
        destruct (IH Hin w1) as (e & w' & E2); [|done|].
        { by rewrite (scan_body_work_kept args known q n Hk Hq _ _ _ E). }
        exists e, w'. by apply bind_Raise.
      * exists e, w1. by apply bind_Raise.
Qed.

(** ** The directories of the work root, in the order of the scan *)

Lemma sorted_work_dirs_eq w :
  sorted_work_dirs w = (Ret (wp <$> merge_sort String.le (dir_names (work w))), w).
Proof. done. Qed.

Lemma elem_of_dir_names n l d : assoc n l = Some (Dir d) -> n ∈ dir_names l.
Proof.
  intros H%assoc_Some_elem. unfold dir_names.
  apply list_elem_of_fmap. exists (n, Dir d). split; [done|].
  apply list_elem_of_In, filter_In. split; [by apply list_elem_of_In | done].
Qed.

Lemma elem_of_sorted_work_dirs n w d :
  assoc n (work w) = Some (Dir d) ->
  wp n ∈ wp <$> merge_sort String.le (dir_names (work w)).
Proof.
  intros H. apply list_elem_of_fmap. exists n. split; [done|].
  rewrite merge_sort_Permutation. by eapply elem_of_dir_names.
Qed.

(** ** Unreadable sentinels *)

(** C8, as amended: when the sentinel file of a directory of either root
    exists but cannot be read, reading its identity raises, and the error
    leaves [main]: the run ends with an exception instead of a
    classification. *)
Theorem C8_read_error_propagates args w p d :
  node_at p w = Some (Dir d) -> awid d = Unreadable ->
  read_dir_id p w = (Raise SentinelReadError, w) /\
  (mark_requested args = None -> exists e w', main args w = (Raise e, w')).
Proof.
  intros Hn Ha. split; [by eapply read_dir_id_Unreadable|]. intros Hm.
  unfold main. rewrite Hm. unfold reconcile.
  destruct (known_archive_dirs w) as [[known|e] w1] eqn:Ek.
  - apply known_archive_dirs_in_archive in Ek as Hk. destruct Hk as [Hk ->].
    destruct p as [[] n].
    + destruct (scan_loop_unreadable args known
                  (wp <$> merge_sort String.le (dir_names (work w))) w n d)
        as (e & w' & E); [done| by eapply elem_of_sorted_work_dirs |done..|].
      exists e, w'. apply bind_Raise.
      rewrite (bind_Ret _ _ _ _ _ Ek).
      by rewrite (bind_Ret _ _ _ _ _ (sorted_work_dirs_eq w)).
    + exfalso. unfold known_archive_dirs, iterdir, bind in Ek.
      rewrite (collect_known_unreadable _ _ _ (ap n) d) in Ek; [done| |done..].
      apply list_elem_of_fmap. exists n. split; [done|].
      unfold node_at in Hn. simpl in Hn.
      destruct (decide (n ∈ keys (archive w))) as [|Hnot]; [done|].
      apply assoc_None in Hnot. simpl in *. congruence.
  - exists e, w1. by do 2 apply bind_Raise.
Qed.

Lemma C8_read_error_propagates_witness :
  let args := mk_Args "/w" "/a" false false None false false false [] false in
  let w := mk_world [("alpha", dir_with Unreadable)] [] (fun _ => epoch) 0 [] in
  read_dir_id (wp "alpha") w = (Raise SentinelReadError, w) /\
  exists e w', main args w = (Raise e, w').
Proof.
  intros args w.
  destruct (C8_read_error_propagates args w (wp "alpha")
              (mk_directory Unreadable ["notes.txt"]) eq_refl eq_refl) as [H1 H2].
  split; [exact H1 | exact (H2 eq_refl)].
Defined.

(** C8, as stated, fails: the unreadable sentinel of [alpha] is not taken
    for a missing identity; the read raises and so does the run. *)
Lemma C8_counterexample :
  let args := mk_Args "/w" "/a" false false None false false false [] false in
  let w := mk_world [("alpha", dir_with Unreadable)] [] (fun _ => epoch) 0 [] in
  read_dir_id (wp "alpha") w <> (Ret None, w) /\
  main args w = (Raise SentinelReadError, w).
Proof. split; [discriminate | reflexivity]. Qed.

(** ** Exit status *)

Lemma sync_loop_Ret args todo w : exists w', sync_loop args todo w = (Ret tt, w').
Proof.
  revert w. induction todo as [|it todo IH]; intros w; simpl; [by eexists|].
  unfold bind at 1. unfold attempt_renames, rsync_dir, emit, ret.
  destruct (rename args); unfold bind at 1;
    destruct (test_no_rsync args); apply IH.
Qed.

(** C9: when [main] returns, the exit status is 1 if at least one entry was
    skipped and [--report-skipped] was given, and 0 in every other case. *)
Theorem C9_exit_status args w r w' :
  main args w = (Ret r, w') ->
  (exit_status r = 0%Z \/ exit_status r = 1%Z) /\
  (exit_status r <> 0%Z <->
     skipped_of_run args w <> [] /\ report_skipped args = true).
Proof.
  unfold main, skipped_of_run. destruct (mark_requested args) as [m|].
  - intros H. inv_run. simpl. split; [by left|]. split; [done|]. by intros [? _].
  - intros H. apply bind_inv_Ret in H as (ds & w1 & -> & H).
    apply bind_inv_Ret in H as ([] & w2 & _ & H).
    destruct (skipped ds) as [|s l]; [|destruct (report_skipped args)];
      apply ret_inv in H as [<- _]; simpl;
      (split; [auto|]); split; try done; by intros [? ?].
Qed.

Lemma C9_exit_status_witness :
  let args := mk_Args "/w" "/a" false true None false false false [] false in
  let w := mk_world [("unmarked", dir_with Absent)]
             [("unmarked", dir_with Absent)] (fun _ => epoch) 0 [] in
  main args w
  = (Ret (Some 1%Z), w) /\
  (exit_status (Some 1%Z) <> 0%Z <->
     skipped_of_run args w <> [] /\ report_skipped args = true).
Proof.
  intros args w. split; [reflexivity|].
  exact (proj2 (C9_exit_status args w (Some 1%Z) w eq_refl)).
Defined.

(** ** Single-mark mode *)

Lemma trace_written p dir_id w d :
  node_at p w = Some (Dir d) ->
  trace (written p dir_id w) = trace w ++ [EvWrite p dir_id].
Proof. intros H. unfold written. rewrite H. by destruct p as [[] ?]. Qed.

(** C6, as amended: with [--mark NAME] there is no scan and no sync. A dry
    run writes nothing. Any other run writes one freshly generated marker
    into the work subdirectory and then, without a test for existence, into
    the archive subdirectory of that name: when both are directories the
    run returns, and when the archive subdirectory is missing the run ends
    with [FileNotFoundError] after the work marker was written. *)
Theorem C6_single_mark args w m :
  mark_requested args = Some m ->
  let dir_id := fresh_id args (wp m) w in
  (dry_run args = true -> main args w = (Ret None, tick w)) /\
  (dry_run args = false ->
   forall dw, node_at (wp m) w = Some (Dir dw) ->
     (forall da, node_at (ap m) w = Some (Dir da) ->
        exists w',
          main args w = (Ret None, w') /\
          node_at (wp m) w' = Some (Dir (mk_directory (Text dir_id) (others dw))) /\
          node_at (ap m) w' = Some (Dir (mk_directory (Text dir_id) (others da))) /\
          trace w' = trace w ++ [EvWrite (wp m) dir_id; EvWrite (ap m) dir_id]) /\
     (node_at (ap m) w = None ->
        exists w',
          main args w = (Raise FileNotFoundError, w') /\
          node_at (wp m) w' = Some (Dir (mk_directory (Text dir_id) (others dw))) /\
          archive w' = archive w /\
          trace w' = trace w ++ [EvWrite (wp m) dir_id])).
Proof.
  intros Hm dir_id. unfold main. rewrite Hm. split.
  - intros Hd. rewrite (bind_Ret _ _ _ _ _ (mark_dir_dry _ _ _ _ Hd)). reflexivity.
  - intros Hd dw Hw. split.
    + intros da Ha.
      assert (node_at (ap m) (written (wp m) dir_id (tick w)) = Some (Dir da)) as Ha'.
      { rewrite node_at_written, decide_False by done. by rewrite node_at_tick. }
      eexists. rewrite (bind_Ret _ _ _ _ _ (mark_dir_two _ _ _ _ _ _ Hd Hw Ha')).
      split; [reflexivity|]. fold dir_id.
      rewrite (trace_written _ _ _ _ Ha'), (trace_written _ _ _ dw)
        by (by rewrite node_at_tick).
      rewrite !node_at_written. repeat case_decide; try done.
      rewrite !node_at_tick, Hw, Ha. by rewrite <- app_assoc.
    + intros Ha. exists (written (wp m) dir_id (tick w)). split.
      * unfold mark_dir. rewrite bind_assoc. unfold bind at 1, datetime_now.
        simpl. rewrite Hd. rewrite !bind_assoc.
        erewrite (bind_Ret (write_awid _ _)); last first.
        { eapply write_awid_Dir. by rewrite node_at_tick. }
        rewrite !bind_assoc. apply bind_Raise. apply write_awid_missing.
        rewrite node_at_written, decide_False by done. by rewrite node_at_tick.
      * rewrite node_at_written, decide_True, node_at_tick, Hw by done.
        rewrite (trace_written _ _ _ dw) by (by rewrite node_at_tick).
        split; [done|]. split; [|done]. unfold written.
        rewrite node_at_tick, Hw. done.
Qed.

Lemma C6_single_mark_witness :
  let args := mk_Args "/w" "/a" false false (Some "unmarked") false false false [] false in
  let w := mk_world [("unmarked", dir_with Absent)]
             [("unmarked", dir_with Absent)] (fun _ => epoch) 0 [] in
  let dir_id := "1970-01-01 00:00:00 /w/unmarked" in
  exists w',
    main args w = (Ret None, w') /\
    node_at (wp "unmarked") w' = Some (dir_with (Text dir_id)) /\
    node_at (ap "unmarked") w' = Some (dir_with (Text dir_id)) /\
    trace w' = [EvWrite (wp "unmarked") dir_id; EvWrite (ap "unmarked") dir_id].
Proof.
  intros args w dir_id.
  exact (proj1 (proj2 (C6_single_mark args w "unmarked" eq_refl) eq_refl
                  (mk_directory Absent ["notes.txt"]) eq_refl)
           (mk_directory Absent ["notes.txt"]) eq_refl).
Defined.

(** C6, as stated, fails twice. When the archive has no subdirectory of the
    name, the run does not stop after marking the work side: it goes on to
    the archive side and ends with an exception. And a dry run writes no
    marker at all. *)
Lemma C6_counterexample :
  let args := mk_Args "/w" "/a" false false (Some "unmarked") false false false [] false in
  let dry := mk_Args "/w" "/a" true false (Some "unmarked") false false false [] false in
  let w := mk_world [("unmarked", dir_with Absent)] [] (fun _ => epoch) 0 [] in
  (exists w', main args w = (Raise FileNotFoundError, w') /\
              node_at (wp "unmarked") w'
              = Some (dir_with (Text "1970-01-01 00:00:00 /w/unmarked"))) /\
  (exists w', main dry w = (Ret None, w') /\
              node_at (wp "unmarked") w' = Some (dir_with Absent) /\ trace w' = []).
Proof. split; eexists; repeat split; reflexivity. Qed.

(** ** Unmarked work subdirectories *)


(** ** Two runs side by side *)

Lemma respects_ret {A} R (a : A) : respects R (ret a).
Proof. by intros w w2 H. Qed.

Lemma respects_bind {A B} R (m : M A) (k : A -> M B) :
  respects R m -> (forall a, respects R (k a)) -> respects R (bind m k).
Proof.
  intros Hm Hk w w2 H. unfold bind. destruct (Hm w w2 H) as [E1 E2].
  destruct (m w) as [[a|e] w'], (m w2) as [[a2|e2] w2']; simplify_eq/=; [|done].
  by apply Hk.
Qed.

Lemma same_entries_node_at p w w2 : same_entries w w2 -> node_at p w = node_at p w2.
Proof.
  intros (Hw & Ha & _). destruct p as [[] n]; unfold node_at; simpl; [done|].
  by rewrite Ha.
Qed.

Lemma respects_read_dir_id p : respects same_entries (read_dir_id p).
Proof.
  intros w w2 H. unfold read_dir_id. rewrite <- (same_entries_node_at p _ _ H).
  destruct (node_at p w) as [[d|]|]; [|done..]. by destruct (awid d).
Qed.

Lemma respects_exists p : respects same_entries (exists_ p).
Proof.
  intros w w2 H. unfold exists_. by rewrite <- (same_entries_node_at p _ _ H).
Qed.

Lemma respects_is_dir p : respects same_entries (is_dir p).
Proof.
  intros w w2 H. unfold is_dir. by rewrite <- (same_entries_node_at p _ _ H).
Qed.

Lemma respects_datetime_now : respects same_entries datetime_now.
Proof.
  intros w w2 (Hw & Ha & Hc & Ht & Htr). unfold datetime_now. simpl.
  rewrite Hc, Ht. repeat split; simpl; try done. by rewrite Ht.
Qed.

Lemma respects_write_awid p dir_id : respects same_entries (write_awid p dir_id).
Proof.
  intros w w2 H. unfold write_awid. rewrite <- (same_entries_node_at p _ _ H).
  destruct H as (Hw & Ha & Hc & Ht & Htr).
  destruct (node_at p w) as [[d|]|]; [|done..]. unfold emit.
  destruct p as [[] n]; simpl; repeat split; simpl; try congruence.
  intros m. rewrite !assoc_put. by rewrite Hw.
Qed.

Lemma respects_os_rename src dst :
  parent src = ArchiveBase -> respects same_entries (os_rename src dst).
Proof.
  intros Hs w w2 (Hw & Ha & Hc & Ht & Htr). unfold os_rename, emit. rewrite Hs.
  simpl. rewrite <- Ha.
  repeat case_match; repeat split; simpl; congruence.
Qed.

Lemma respects_mark_dir args path1 path2 :
  respects same_entries (mark_dir args path1 path2).
Proof.
  unfold mark_dir. apply respects_bind; [apply respects_datetime_now|]. intros t.
  apply respects_bind; [|intros; apply respects_ret].
  destruct path2 as [p|]; simpl;
    repeat (apply respects_bind; [|intros _]);
    try apply respects_ret;
    destruct (dry_run args); try apply respects_ret; apply respects_write_awid.
Qed.

Lemma respects_scan_body args known work_dir :
  known_in_archive known -> respects same_entries (scan_body args known work_dir).
Proof.
  intros Hk. unfold scan_body.
  apply respects_bind; [apply respects_read_dir_id|]. intros [i|].
  - destruct (known !! i) as [k|] eqn:Ek.
    + case_decide; [|apply respects_ret].
      destruct (dry_run args); [apply respects_ret|].
      apply respects_bind; [|intros; apply respects_ret].
      apply respects_os_rename. eauto.
    + apply respects_bind; [apply respects_exists|].
      intros []; apply respects_ret.
  - apply respects_bind; [apply respects_exists|]. intros [].
    + destruct (mark_new args); [|apply respects_ret].
      apply respects_bind; [|intros; apply respects_ret]. apply respects_mark_dir.
    + apply respects_bind; [|intros; apply respects_ret]. apply respects_mark_dir.
Qed.

Lemma respects_scan_loop args known dirs :
  known_in_archive known -> respects same_entries (scan_loop args known dirs).
Proof.
  intros Hk. induction dirs as [|p dirs IH]; simpl; [apply respects_ret|].
  apply respects_bind; [by apply respects_scan_body|]. intros d.
  apply respects_bind; [done|]. intros; apply respects_ret.
Qed.

Lemma respects_collect_known dirs known :
  respects same_entries (collect_known dirs known).
Proof.
  revert known. induction dirs as [|p dirs IH]; intros known; simpl.
  - apply respects_ret.
  - apply respects_bind; [apply respects_is_dir|]. intros [|]; [|apply IH].
    apply respects_bind; [apply respects_read_dir_id|]. intros [i|]; apply IH.
Qed.

(** ** Order of the scan *)

Lemma assoc_Permutation l l2 n :
  NoDup (keys l) -> l ≡ₚ l2 -> assoc n l = assoc n l2.
Proof.
  intros Hnd Hp.
  assert (NoDup (keys l2)) as Hnd2 by (unfold keys; by rewrite <- Hp).
  destruct (assoc n l) as [v|] eqn:E.
  - symmetry. apply assoc_elem; [done|]. rewrite <- Hp. by apply assoc_Some_elem.
  - symmetry. apply assoc_None. unfold keys. rewrite <- Hp. by apply assoc_None.
Qed.

Lemma filter_Permutation {A} (f : A -> bool) (l l2 : list A) :
  l ≡ₚ l2 -> List.filter f l ≡ₚ List.filter f l2.
Proof.
  induction 1 as [|x l l2 _ IH|x y l|l l2 l3 _ IH1 _ IH2]; simpl.
  - done.
  - destruct (f x); by rewrite IH.
  - destruct (f x), (f y); try done. apply perm_swap.
  - by etrans.
Qed.

Lemma merge_sort_Permutation_eq (l l2 : list string) :
  l ≡ₚ l2 -> merge_sort String.le l = merge_sort String.le l2.
Proof.
  intros Hp. apply (Sorted_unique String.le).
  - apply Sorted_merge_sort, _.
  - apply Sorted_merge_sort, _.
  - by rewrite !merge_sort_Permutation.
Qed.

Lemma StronglySorted_omap {B} (f : decision -> option B) (key : B -> string) ds :
  (forall d y, f d = Some y -> key y = name (d_work d)) ->
  StronglySorted String.le (name ∘ d_work <$> ds) ->
  StronglySorted String.le (key <$> omap f ds).
Proof.
  intros Hf. induction ds as [|d ds IH]; simpl; [constructor|].
  intros [Hs Hall]%StronglySorted_inv. destruct (f d) as [y|] eqn:E; simpl; [|auto].
  constructor; [auto|]. rewrite (Hf _ _ E).
  apply Forall_forall. intros n (y' & -> & (d' & Hd' & E')%list_elem_of_omap)%list_elem_of_fmap.
  rewrite (Hf _ _ E'). rewrite Forall_forall in Hall. apply Hall.
  apply list_elem_of_fmap. by exists d'.
Qed.

Lemma reconcile_works args w ds w' :
  reconcile args w = (Ret ds, w') ->
  name ∘ d_work <$> ds = merge_sort String.le (dir_names (work w)).
Proof.
  unfold reconcile. intros H.
  apply bind_inv_Ret in H as (known & w1 & Ek & H).
  apply known_archive_dirs_in_archive in Ek as [_ ->].
  rewrite (bind_Ret _ _ _ _ _ (sorted_work_dirs_eq w)) in H.
  apply scan_loop_works in H. rewrite list_fmap_compose, H.
  rewrite <- list_fmap_compose. by rewrite list_fmap_id.
Qed.

(** C5: the entries of [rsync_todo] and of [skipped] are in lexicographic
    order of the names of their work subdirectories, and the order in which
    the work root enumerates its entries has no influence on the outcome of
    the scan. *)
Theorem C5_scan_order args w :
  (forall ds w', reconcile args w = (Ret ds, w') ->
     StronglySorted String.le (name ∘ work_path <$> rsync_todo ds) /\
     StronglySorted String.le (name ∘ skipped_path <$> skipped ds)) /\
  (forall l, NoDup (keys (work w)) -> l ≡ₚ work w ->
     (reconcile args (set_listing WorkBase l w)).1 = (reconcile args w).1).
Proof.
  split.
  - intros ds w' H.
    assert (StronglySorted String.le (name ∘ d_work <$> ds)) as Hs.
    { rewrite (reconcile_works _ _ _ _ H). apply StronglySorted_merge_sort; apply _. }
    split; (apply StronglySorted_omap; [|done]).
    + intros d y. destruct (d_archive d); simpl; [by intros [= <-] | done].
    + intros d y. destruct (d_archive d); simpl; [done | by intros [= <-]].
  - intros l Hnd Hp. set (w2 := set_listing WorkBase l w).
    assert (same_entries w2 w) as Hse.
    { repeat split; try done. intros n. simpl. symmetry. by apply assoc_Permutation. }
    unfold reconcile.
    destruct (respects_collect_known (mk_Path ArchiveBase <$> keys (archive w)) ∅
                w2 w Hse) as [E1 E2].
    unfold bind at 1 3. unfold known_archive_dirs, iterdir, bind at 1 3.
    change (listing_of ArchiveBase w2) with (archive w).
    change (listing_of ArchiveBase w) with (archive w).
    destruct (collect_known _ ∅ w2) as [[known|e] w3] eqn:Ek2,
             (collect_known _ ∅ w) as [[known'|e'] w4] eqn:Ek;
      simpl in E1; simplify_eq; [|done].
    assert (known_in_archive known') as Hk.
    { eapply collect_known_in_archive; [| |done].
      - apply Forall_fmap, Forall_true. done.
      - intros i k. by rewrite lookup_empty. }
    apply collect_known_world in Ek as ->. apply collect_known_world in Ek2 as ->.
    rewrite !(bind_Ret _ _ _ _ _ (sorted_work_dirs_eq _)).
    replace (merge_sort String.le (dir_names (work w2)))
      with (merge_sort String.le (dir_names (work w))).
    + by apply respects_scan_loop.
    + apply merge_sort_Permutation_eq. unfold dir_names.
      apply fmap_Permutation, filter_Permutation. by symmetry.
Qed.

Lemma C5_scan_order_witness :
  let args := mk_Args "/w" "/a" false false None false false false [] false in
  let w := mk_world [("beta", dir_with (Text "B1")); ("alpha", dir_with Absent);
                     ("gamma", dir_with Absent)]
             [("beta", dir_with (Text "B1")); ("gamma", NotDir)]
             (fun _ => epoch) 0 [] in
  let l := [("gamma", dir_with Absent); ("beta", dir_with (Text "B1"));
            ("alpha", dir_with Absent)] in
  (name ∘ work_path <$> rsync_todo
     match (reconcile args w).1 with Ret ds => ds | Raise _ => [] end)
  = ["alpha"; "beta"] /\
  (reconcile args (set_listing WorkBase l w)).1 = (reconcile args w).1.
Proof.
  intros args w l. split; [reflexivity|].
  apply (proj2 (C5_scan_order args w) l).
  - apply (bool_decide_unpack _). vm_compute. exact I.
  - apply (Permutation_cons_append [_; _]).
Defined.

(** ** The trace of a run *)

#[global] Instance trace_grows_preorder P : PreOrder (trace_grows P).
Proof.
  split.
  - intros w. exists []. by rewrite app_nil_r.
  - intros w1 w2 w3 (e1 & E1 & H1) (e2 & E2 & H2). exists (e1 ++ e2).
    split; [by rewrite E2, E1, app_assoc | by apply Forall_app].
Qed.

Lemma trace_moved src dst w :
  trace (moved src dst w) = trace w ++ [EvRename src dst].
Proof. unfold moved. by destruct src as [[] ?]. Qed.

Lemma trace_written_grows p dir_id w :
  trace_grows is_scan_event w (written p dir_id w).
Proof.
  destruct (node_at p w) as [[d|]|] eqn:Hn.
  - exists [EvWrite p dir_id]. split; [by eapply trace_written | by repeat constructor].
  - unfold written. rewrite Hn. reflexivity.
  - unfold written. rewrite Hn. reflexivity.
Qed.

Lemma scan_loop_trace args known dirs :
  preserves (trace_grows is_scan_event) (scan_loop args known dirs).
Proof.
  apply preserves_scan_loop; [apply _|..].
  - intros w. exists []. by rewrite app_nil_r.
  - intros. apply trace_written_grows.
  - intros. apply trace_written_grows.
  - intros. exists [EvRename k (mk_Path (parent k) (name p))].
    split; [apply trace_moved | by repeat constructor].
Qed.

Lemma sync_loop_eq args todo w :
  sync_loop args todo w
  = (Ret tt, mk_world (work w) (archive w) (clock w) (ticks w)
               (trace w ++ sync_events args todo)).
Proof.
  revert w. induction todo as [|it todo IH]; intros w; simpl.
  - unfold ret. rewrite app_nil_r. by destruct w.
  - unfold bind at 1. unfold attempt_renames, rsync_dir, emit, ret.
    unfold sync_events in *. simpl.
    destruct (rename args); unfold bind at 1;
      destruct (test_no_rsync args); rewrite IH; simpl;
      by rewrite <- ?app_assoc.
Qed.

Lemma read_dir_id_node p w w1 o :
  node_at p w1 = node_at p w ->
  read_dir_id p w = (Ret o, w) -> read_dir_id p w1 = (Ret o, w1).
Proof.
  unfold read_dir_id. intros ->. destruct (node_at p w) as [[d|]|]; [|congruence..].
  destruct (awid d); congruence.
Qed.

Lemma os_rename_Ret src dst w a w' :
  os_rename src dst w = (Ret a, w') -> w' = moved src dst w.
Proof.
  destruct (os_rename_cases src dst w) as [[_ ->]|[e ->]]; congruence.
Qed.

(** ** Renamed work subdirectories *)

Lemma reconcile_eq args w known :
  known_archive_dirs w = (Ret known, w) ->
  reconcile args w = scan_loop args known (scan_dirs w) w.
Proof.
  intros Ek. unfold reconcile. rewrite (bind_Ret _ _ _ _ _ Ek).
  by rewrite (bind_Ret _ _ _ _ _ (sorted_work_dirs_eq w)).
Qed.

(** The world in which the loop reaches [wp n] for the first time still has
    the work entry [n] of the start. *)
Lemma scan_loop_reaches args known pre n w ds1 w1 :
  known_in_archive known -> wp n ∉ pre ->
  scan_loop args known pre w = (Ret ds1, w1) ->
  node_at (wp n) w1 = node_at (wp n) w /\ trace_grows is_scan_event w w1.
Proof.
  intros Hk Hn H. split.
  - by apply (scan_loop_work_kept args known pre n Hk Hn _ _ _ H).
  - by apply (scan_loop_trace args known pre _ _ _ H).
Qed.

(** ** What the index holds *)

Lemma read_dir_id_Ret_Some p w i w' :
  read_dir_id p w = (Ret (Some i), w') ->
  exists d, node_at p w = Some (Dir d).
Proof.
  unfold read_dir_id. destruct (node_at p w) as [[d|]|]; [eauto|done..].
Qed.

(** Every entry of the index is a directory of the archive that carries the
    identity under which it is filed. *)
Lemma collect_known_sound dirs known0 w known w' :
  collect_known dirs known0 w = (Ret known, w') ->
  forall i k, known !! i = Some k ->
    known0 !! i = Some k \/
    (k ∈ dirs /\ read_dir_id k w = (Ret (Some i), w)).
Proof.
  revert known0. induction dirs as [|p dirs IH]; intros known0 H i k Hik;
    simpl in H.
  - apply ret_inv in H as [<- _]. by left.
  - apply bind_inv_Ret in H as (b & w1 & Eb & H).
    injection Eb as <- <-.
    destruct (node_at p w) as [[d|]|] eqn:Hp;
      [|destruct (IH _ H _ _ Hik) as [?|[? ?]]; [by left|right; split; [by right|done]]..].
    apply bind_inv_Ret in H as (o & w1 & Er & H).
    apply read_dir_id_world in Er as Hw. subst w1.
    destruct o as [j|].
    + destruct (IH _ H _ _ Hik) as [Hins|[? ?]]; [|right; split; [by right|done]].
      rewrite lookup_insert in Hins. case_decide; [|by left].
      simplify_eq. right. split; [by left|done].
    + destruct (IH _ H _ _ Hik) as [?|[? ?]]; [by left|right; split; [by right|done]].
Qed.

(** Every identity that an archive directory carries is in the index. *)
Lemma collect_known_complete dirs known0 w known w' :
  collect_known dirs known0 w = (Ret known, w') ->
  (forall i, is_Some (known0 !! i) -> is_Some (known !! i)) /\
  (forall p i, p ∈ dirs -> read_dir_id p w = (Ret (Some i), w) -> is_Some (known !! i)).
Proof.
  revert known0. induction dirs as [|p dirs IH]; intros known0 H; simpl in H.
  - apply ret_inv in H as [<- _]. split; [done|]. by intros ?? ?%elem_of_nil.
  - apply bind_inv_Ret in H as (b & w1 & Eb & H). injection Eb as <- <-.
    destruct (node_at p w) as [[d|]|] eqn:Hp.
    + apply bind_inv_Ret in H as (o & w1 & Er & H).
      apply read_dir_id_world in Er as Hw. subst w1.
      destruct o as [j|]; destruct (IH _ H) as [IH1 IH2].
      * split.
        -- intros i Hi. apply IH1. rewrite lookup_insert. by case_decide.
        -- intros q i [->|Hq]%elem_of_cons Hr; [|by eauto].
           rewrite Hr in Er. simplify_eq. apply IH1. by rewrite lookup_insert_eq.
      * split; [done|]. intros q i [->|Hq]%elem_of_cons Hr; [|by eauto].
        rewrite Hr in Er. simplify_eq.
    + destruct (IH _ H) as [IH1 IH2]. split; [done|].
      intros q i [->|Hq]%elem_of_cons Hr; [|by eauto].
      apply read_dir_id_Ret_Some in Hr as [d Hd]. congruence.
    + destruct (IH _ H) as [IH1 IH2]. split; [done|].
      intros q i [->|Hq]%elem_of_cons Hr; [|by eauto].
      apply read_dir_id_Ret_Some in Hr as [d Hd]. congruence.
Qed.

Lemma known_archive_dirs_sound w known w' i k :
  known_archive_dirs w = (Ret known, w') -> known !! i = Some k ->
  parent k = ArchiveBase /\ read_dir_id k w = (Ret (Some i), w).
Proof.
  intros H Hik. destruct (known_archive_dirs_in_archive _ _ _ H) as [Hk ->].
  split; [eauto|]. unfold known_archive_dirs, iterdir, bind in H.
  destruct (collect_known_sound _ _ _ _ _ H _ _ Hik) as [Hi|[_ ?]]; [|done].
  by rewrite lookup_empty in Hi.
Qed.

Lemma known_archive_dirs_complete w known w' n i :
  known_archive_dirs w = (Ret known, w') ->
  read_dir_id (ap n) w = (Ret (Some i), w) -> is_Some (known !! i).
Proof.
  intros H Hr. unfold known_archive_dirs, iterdir, bind in H.
  apply collect_known_complete in H as [_ H]. apply (H (ap n)); [|done].
  apply list_elem_of_fmap. exists n. split; [done|].
  apply read_dir_id_Ret_Some in Hr as [d Hd].
  destruct (decide (n ∈ keys (archive w))) as [|Hn]; [done|].
  apply assoc_None in Hn. unfold node_at in Hd. simpl in *. congruence.
Qed.

(** ** Archive entries that a scan leaves alone *)

#[global] Instance archive_kept_preorder n : PreOrder (archive_kept n).
Proof. split; [by intros w | intros w1 w2 w3; unfold archive_kept; congruence]. Qed.




(** ** Conflicts are decided by existence *)

Lemma scan_dirs_WorkBase w p : p ∈ scan_dirs w -> parent p = WorkBase.
Proof. by intros (n & -> & _)%list_elem_of_fmap. Qed.

(** The first turn of the loop for the work directory [n], in a scan that
    returned. *)
Lemma reconcile_turn args w known n dn ds w' :
  known_archive_dirs w = (Ret known, w) ->
  node_at (wp n) w = Some (Dir dn) ->
  reconcile args w = (Ret ds, w') ->
  exists pre post ds1 w1 d w2 ds2,
    scan_dirs w = pre ++ wp n :: post /\ (wp n ∉ pre) /\
    scan_loop args known pre w = (Ret ds1, w1) /\
    scan_body args known (wp n) w1 = (Ret d, w2) /\
    scan_loop args known post w2 = (Ret ds2, w') /\
    ds = ds1 ++ d :: ds2.
Proof.
  intros Ek Hn H. rewrite (reconcile_eq _ _ _ Ek) in H.
  destruct (list_elem_of_split_l (scan_dirs w) (wp n)) as (pre & post & Edirs & Hpre).
  { by eapply elem_of_sorted_work_dirs. }
  rewrite Edirs in H.
  apply scan_loop_turn in H as (ds1 & w1 & d & w2 & ds2 & E1 & Eb & E2 & ->).
  eauto 15.
Qed.


(** ** Dry runs *)

Lemma same_files_tick w : same_files w (tick w).
Proof. done. Qed.

#[global] Instance same_files_preorder : PreOrder same_files.
Proof. split; [apply _ | intros ???; apply same_files_trans]. Qed.

Lemma scan_loop_dry args known dirs :
  dry_run args = true -> preserves same_files (scan_loop args known dirs).
Proof.
  intros Hd. apply preserves_scan_loop; [apply _|..]; try congruence.
  apply same_files_tick.
Qed.

Lemma reconcile_dry args :
  dry_run args = true -> preserves same_files (reconcile args).
Proof.
  intros Hd. unfold reconcile.
  apply preserves_bind; [apply _|..].
  - unfold known_archive_dirs. apply preserves_bind; [apply _|..].
    + by intros w o w' [= _ <-].
    + intros dirs. apply preserves_collect_known, _.
  - intros known. apply preserves_bind; [apply _|..].
    + by intros w o w' [= _ <-].
    + intros dirs. by apply scan_loop_dry.
Qed.

Lemma sync_events_dry args todo :
  dry_run args = true -> Forall is_dry_sync_event (sync_events args todo).
Proof.
  intros Hd. unfold sync_events. induction todo as [|it todo IH]; simpl; [constructor|].
  apply Forall_app. split; [|done].
  apply Forall_app. split.
  - destruct (rename args); repeat constructor. simpl. done.
  - destruct (test_no_rsync args); repeat constructor. simpl.
    unfold rsync_command. rewrite Hd. set_solver.
Qed.

(** A dry run of [main] writes and renames nothing. *)
Lemma main_dry args w o w' :
  dry_run args = true -> main args w = (o, w') ->
  work w' = work w /\ archive w' = archive w /\
  exists evs, trace w' = trace w ++ evs /\ Forall is_dry_sync_event evs.
Proof.
  intros Hd. unfold main. destruct (mark_requested args) as [m|].
  - rewrite (bind_Ret _ _ _ _ _ (mark_dir_dry _ _ _ _ Hd)). intros [= _ <-].
    repeat split. exists []. by rewrite app_nil_r.
  - destruct (reconcile args w) as [[ds|e] w1] eqn:E;
      destruct (reconcile_dry args Hd _ _ _ E) as (Hw & Ha & Ht).
    + rewrite (bind_Ret _ _ _ _ _ E).
      rewrite (bind_Ret _ _ _ _ _ (sync_loop_eq _ _ _)).
      assert (forall r, ret (A:=option Z) r
                (mk_world (work w1) (archive w1) (clock w1) (ticks w1)
                   (trace w1 ++ sync_events args (rsync_todo ds))) = (o, w') ->
              work w' = work w /\ archive w' = archive w /\
              exists evs, trace w' = trace w ++ evs /\ Forall is_dry_sync_event evs)
        as Hret.
      { intros r [= _ <-]. simpl. rewrite Hw, Ha, Ht. repeat split.
        eexists. split; [done|]. by apply sync_events_dry. }
      destruct (skipped ds); [|destruct (report_skipped args)]; apply Hret.
    + rewrite (bind_Raise _ _ _ _ _ E). intros [= _ <-].
      rewrite Hw, Ha, Ht. repeat split. exists []. by rewrite app_nil_r.
Qed.

#[global] Instance archive_names_kept_preorder : PreOrder archive_names_kept.
Proof.
  split; [by intros w n|]. intros w1 w2 w3 H1 H2 n.
  etrans; [apply H2 | apply H1].
Qed.

Lemma archive_names_written p dir_id w : archive_names_kept w (written p dir_id w).
Proof.
  intros n. change (is_Some (node_at (ap n) (written p dir_id w))
                    <-> is_Some (node_at (ap n) w)).
  rewrite node_at_written. case_decide; [|done].
  destruct (node_at (ap n) w) as [[d|]|]; by rewrite <- ?not_eq_None_Some.
Qed.

Lemma mark_dir_archive_names args path1 path2 :
  preserves archive_names_kept (mark_dir args path1 path2).
Proof.
  apply preserves_mark_dir; [apply _|..]; intros; try apply archive_names_written.
  by intros n.
Qed.

Lemma scan_body_dry_sim args known p wr wd d wr1 :
  dry_run args = false ->
  node_at p wd = node_at p wr ->
  (is_Some (node_at (ap (name p)) wd) <-> is_Some (node_at (ap (name p)) wr)) ->
  scan_body args known p wr = (Ret d, wr1) ->
  not_renamed d ->
  (exists wd1, scan_body (set_dry_run true args) known p wd = (Ret d, wd1)
               /\ same_files wd wd1) /\
  archive_names_kept wr wr1.
Proof.
  intros Hd Hp Ha H Hnr.
  destruct (read_dir_id p wr) as [[o|e] w0] eqn:Er;
    [|by rewrite (scan_body_read_error _ _ _ _ _ _ Er) in H].
  apply read_dir_id_world in Er as Hw0. subst w0.
  assert (read_dir_id p wd = (Ret o, wd)) as Erd by (by eapply read_dir_id_node).
  destruct o as [i|].
  - destruct (known !! i) as [k|] eqn:Ek.
    + destruct (decide (name k = name p)) as [En|En].
      * rewrite (scan_body_RESYNC _ _ _ _ _ _ Er Ek En) in H. simplify_eq.
        split; [|done]. exists wd. split; [|done]. by eapply scan_body_RESYNC.
      * rewrite (scan_body_RENAMED _ _ _ _ _ _ Er Ek En Hd) in H.
        apply bind_inv_Ret in H as (? & ? & _ & H). apply ret_inv in H as [<- _].
        by destruct (Hnr (name k)).
    + destruct (node_at (ap (name p)) wr) as [v|] eqn:Ev.
      * rewrite (scan_body_CONFLICT_SKIP _ _ _ _ _ _ Er Ek Ev) in H. simplify_eq.
        split; [|done]. exists wd. split; [|done].
        destruct (proj2 Ha) as [v' Hv']; [done|]. by eapply scan_body_CONFLICT_SKIP.
      * rewrite (scan_body_RESTORE _ _ _ _ _ Er Ek Ev) in H. simplify_eq.
        split; [|done]. exists wd. split; [|done].
        eapply scan_body_RESTORE; [done..|].
        destruct (node_at (ap (name p)) wd) eqn:E; [|done].
        destruct (proj1 Ha) as [? ?]; done.
  - destruct (node_at (ap (name p)) wr) as [v|] eqn:Ev.
    + destruct (proj2 Ha) as [v' Hv']; [done|].
      destruct (mark_new args) eqn:Hm.
      * rewrite (scan_body_NEW_CONFLICT_OVERWRITE _ _ _ _ _ Er Ev Hm) in H.
        apply bind_inv_Ret in H as (? & w1 & Em & H). apply ret_inv in H as [<- <-].
        split; [|by eapply mark_dir_archive_names].
        exists (tick wd). split; [|done].
        rewrite (scan_body_NEW_CONFLICT_OVERWRITE _ _ _ _ _ Erd Hv') by done.
        by rewrite (bind_Ret _ _ _ _ _ (mark_dir_dry (set_dry_run true args) _ _ _ eq_refl)).
      * rewrite (scan_body_NEW_CONFLICT_SKIP _ _ _ _ _ Er Ev Hm) in H. simplify_eq.
        split; [|done]. exists wd. split; [|done].
        by eapply scan_body_NEW_CONFLICT_SKIP.
    + rewrite (scan_body_NEW _ _ _ _ Er Ev) in H.
      apply bind_inv_Ret in H as (? & w1 & Em & H). apply ret_inv in H as [<- <-].
      split; [|by eapply mark_dir_archive_names].
      exists (tick wd). split; [|done].
      rewrite (scan_body_NEW _ _ _ _ Erd).
      * by rewrite (bind_Ret _ _ _ _ _ (mark_dir_dry (set_dry_run true args) _ _ _ eq_refl)).
      * destruct (node_at (ap (name p)) wd) eqn:E; [|done].
        destruct (proj1 Ha) as [? ?]; done.
Qed.

Lemma scan_loop_dry_sim args known dirs :
  dry_run args = false -> known_in_archive known ->
  NoDup dirs -> (forall p, p ∈ dirs -> parent p = WorkBase) ->
  forall wr wd ds wr',
    (forall p, p ∈ dirs -> node_at p wd = node_at p wr) ->
    (forall n, is_Some (assoc n (archive wd)) <-> is_Some (assoc n (archive wr))) ->
    scan_loop args known dirs wr = (Ret ds, wr') ->
    Forall not_renamed ds ->
    exists wd', scan_loop (set_dry_run true args) known dirs wd = (Ret ds, wd')
                /\ same_files wd wd'.
Proof.
  intros Hd Hk Hnd Hwb. induction dirs as [|p dirs IH]; intros wr wd ds wr' Hw Ha H Hnr;
    simpl in H.
  - apply ret_inv in H as [<- _]. by exists wd.
  - apply bind_inv_Ret in H as (d & wr1 & Eb & H).
    apply bind_inv_Ret in H as (ds' & wr2 & El & H). apply ret_inv in H as [<- <-].
    apply Forall_cons in Hnr as [Hnr1 Hnr2]. apply NoDup_cons in Hnd as [Hp Hnd].
    destruct (scan_body_dry_sim args known p wr wd d wr1 Hd) as [(wd1 & Ed & Hs) Hn];
      [apply Hw; left | apply (Ha (name p)) | done..|].
    destruct (IH Hnd (fun q Hq => Hwb q (list_elem_of_further _ _ _ Hq)) wr1 wd1 ds' wr2)
      as (wd' & El' & Hs'); [| |done..|].
    + intros q Hq. destruct Hs as (Hsw & _).
      assert (parent q = WorkBase) as Hqb by (apply Hwb; by right).
      destruct q as [b n]. simpl in Hqb. subst b. unfold node_at. simpl. rewrite Hsw.
      rewrite (scan_body_work_kept args known p n Hk) with (w:=wr) (w':=wr1) (o:=Ret d);
        [| by intros -> | done].
      apply (Hw (mk_Path WorkBase n)). by right.
    + intros n. destruct Hs as (_ & Hsa & _). rewrite Hsa, (Hn n). apply Ha.
    + exists wd'. split; [|by etrans].
      simpl. rewrite (bind_Ret _ _ _ _ _ Ed). by rewrite (bind_Ret _ _ _ _ _ El').
Qed.

Lemma NoDup_dir_names l : NoDup (keys l) -> NoDup (dir_names l).
Proof.
  unfold keys, dir_names. induction l as [|[k v] l IH]; simpl; [done|].
  intros [Hk Hl]%NoDup_cons. destruct (node_is_dir v); simpl; [|auto].
  apply NoDup_cons. split; [|auto].
  intros ((k' & v') & -> & [Hin _]%list_elem_of_In%filter_In)%list_elem_of_fmap.
  apply Hk. apply list_elem_of_fmap. exists (k', v'). split; [done|].
  by apply list_elem_of_In.
Qed.

Lemma NoDup_scan_dirs w : NoDup (keys (work w)) -> NoDup (scan_dirs w).
Proof.
  intros H. unfold scan_dirs. apply NoDup_fmap_2; [by intros ?? [= ->]|].
  rewrite merge_sort_Permutation. by apply NoDup_dir_names.
Qed.

(** ** Two runs in a row *)

Lemma read_dir_id_node_id p w o :
  read_dir_id p w = (Ret o, w) <->
  match node_at p w with
  | Some v => readable v /\ node_id v = o
  | None => o = None
  end.
Proof.
  unfold read_dir_id, node_id, readable, nonblank.
  destruct (node_at p w) as [[d|]|]; [|split; [by intros [= <-]|by intros [_ <-]]
                                     |split; [by intros [= <-]|by intros <-]].
  destruct (awid d).
  - split; [by intros [= <-]|by intros [_ <-]].
  - split; [by intros [= <-]|by intros [_ <-]].
  - split; [done|by intros [? _]].
Qed.

Lemma assoc_app n l1 l2 :
  assoc n (l1 ++ l2) = match assoc n l1 with Some v => Some v | None => assoc n l2 end.
Proof.
  induction l1 as [|[k x] l1 IH]; simpl; [done|]. by case_decide.
Qed.

Lemma assoc_upsert n m v l :
  assoc n (upsert m v l) = if decide (m = n) then Some v else assoc n l.
Proof.
  unfold upsert. destruct (assoc m l) as [x|] eqn:E.
  - rewrite assoc_put. case_decide; [|done]. subst. by rewrite E.
  - rewrite assoc_app. simpl. case_decide; subst.
    + by rewrite E.
    + by destruct (assoc n l).
Qed.

Lemma work_mirror w it :
  parent (archive_path it) = ArchiveBase -> work (mirror w it) = work w.
Proof. unfold mirror. intros ->. by destruct (node_at _ w). Qed.

Lemma mirror_meta w it :
  clock (mirror w it) = clock w /\ ticks (mirror w it) = ticks w
  /\ trace (mirror w it) = trace w.
Proof.
  unfold mirror. destruct (node_at _ w); [|done].
  by destruct (parent (archive_path it)).
Qed.

Lemma after_mirror_work names w :
  work (after_mirror (item <$> names) w) = work w.
Proof.
  revert w. induction names as [|n names IH]; intros w; simpl; [done|].
  unfold after_mirror in *. simpl. rewrite IH. by apply work_mirror.
Qed.

Lemma after_mirror_archive names w m :
  (forall n, n ∈ names -> is_Some (assoc n (work w))) ->
  assoc m (archive (after_mirror (item <$> names) w))
  = if decide (m ∈ names) then assoc m (work w) else assoc m (archive w).
Proof.
  revert w. induction names as [|n names IH]; intros w Hn.
  - simpl. destruct (decide (m ∈ [])) as [H|H]; [by apply elem_of_nil in H | done].
  - unfold after_mirror in *. rewrite fmap_cons. simpl foldl.
    destruct (Hn n) as [v Hv]; [by left|].
    assert (work (mirror w (item n)) = work w) as Hw by (by apply work_mirror).
    rewrite IH by (intros; rewrite Hw; apply Hn; by right). rewrite Hw.
    destruct (decide (m ∈ names)) as [Hin|Hin].
    + rewrite decide_True by (by right). done.
    + unfold mirror, node_at. simpl. rewrite Hv. simpl. rewrite assoc_upsert.
      destruct (decide (n = m)) as [->|Hne].
      * rewrite decide_True by (by left). done.
      * rewrite decide_False; [done|]. by intros [->|?]%elem_of_cons.
Qed.

(** A generated marker is read back as an identity: it begins with the
    first digit of the year. *)
Lemma digit_visible n :
  Py.isspace (Py.digit n) = false /\ Ascii.eqb (Py.digit n) Py.LF = false
  /\ Ascii.eqb (Py.digit n) Py.CR = false.
Proof.
  unfold Py.digit. assert (n mod 10 < 10) as H by (apply Nat.mod_upper_bound; lia).
  destruct (n mod 10) as [|[|[|[|[|[|[|[|[|[|k]]]]]]]]]]; try (by vm_compute); lia.
Qed.

Lemma rstrip_visible c s : Py.isspace c = false -> Py.truthy (Py.rstrip (String c s)) = true.
Proof. intros Hc. simpl. destruct (Py.rstrip s); [by rewrite Hc | done]. Qed.

Lemma strip_readline_visible c s :
  Py.isspace c = false -> Ascii.eqb c Py.LF = false -> Ascii.eqb c Py.CR = false ->
  Py.truthy (Py.strip (Py.readline (String c s))) = true.
Proof.
  intros H1 H2 H3. simpl. rewrite H2, H3. unfold Py.strip. simpl. rewrite H1.
  by apply rstrip_visible.
Qed.

Lemma fresh_id_visible args p w :
  exists x, nonblank (Py.strip (Py.readline (fresh_id args p w))) = Some x.
Proof.
  unfold fresh_id, datetime_str, nonblank. simpl Py.zfill.
  rewrite !append_cons.
  destruct (digit_visible (year (clock w (ticks w)) / 10 / 10 / 10)) as (H1 & H2 & H3).
  rewrite strip_readline_visible by done. eauto.
Qed.

(** ** Listings without repeated names *)

Lemma keys_drop_entry n l :
  NoDup (keys l) -> NoDup (keys (drop_entry n l)) /\ (n ∉ keys (drop_entry n l))
  /\ (forall m, m ∈ keys (drop_entry n l) -> m ∈ keys l).
Proof.
  unfold keys. induction l as [|[k x] l IH]; simpl.
  - intros _. repeat split; [constructor | apply not_elem_of_nil | done].
  - intros [Hk Hl]%NoDup_cons. destruct (IH Hl) as (I1 & I2 & I3). case_decide; subst.
    + repeat split; [done..|]. intros m ?. by right.
    + simpl. repeat split.
      * apply NoDup_cons. split; [|done]. intros ?%I3. done.
      * apply not_elem_of_cons. done.
      * intros m [->|?]%elem_of_cons; [by left | right; auto].
Qed.

Lemma keys_rekey src dst l :
  NoDup (keys l) -> dst ∉ keys l -> NoDup (keys (rekey src dst l)).
Proof.
  unfold keys. induction l as [|[k x] l IH]; simpl; [done|].
  intros [Hk Hl]%NoDup_cons [Hd1 Hd2]%not_elem_of_cons. case_decide; subst; simpl.
  - apply NoDup_cons. done.
  - apply NoDup_cons. split; [|auto].
    intros Hin. apply Hk. clear IH Hk Hl.
    induction l as [|[k' x'] l IH]; simpl in *; [done|].
    apply not_elem_of_cons in Hd2 as [? ?].
    case_decide; subst; simpl in *.
    + apply elem_of_cons in Hin as [->|?]; [done | by right].
    + apply elem_of_cons in Hin as [->|?]; [by left | right; auto].
Qed.

Lemma assoc_rekey_src src dst l :
  NoDup (keys l) -> src <> dst -> assoc src (rekey src dst l) = None.
Proof.
  unfold keys. induction l as [|[k x] l IH]; simpl; [done|].
  intros [Hk Hl]%NoDup_cons Hne. case_decide; subst; simpl.
  - rewrite decide_False by done. apply assoc_None. done.
  - rewrite decide_False by done. auto.
Qed.

Lemma dir_names_put n d l :
  (exists d0, assoc n l = Some (Dir d0)) -> dir_names (put n (Dir d) l) = dir_names l.
Proof.
  unfold dir_names. intros [d0 H]. induction l as [|[k x] l IH]; simpl in *; [done|].
  destruct (decide (k = n)) as [->|Hne]; simpl.
  - by simplify_eq.
  - destruct (node_is_dir x); simpl; [f_equal|]; by apply IH.
Qed.

(** ** The first run *)

Lemma mark_dir_two_inv args path1 path2 w d1 x w1 :
  dry_run args = false -> node_at path1 w = Some (Dir d1) ->
  mark_dir args path1 (Some path2) w = (Ret x, w1) ->
  is_dir_at path2 (written path1 (fresh_id args path1 w) (tick w)) /\
  w1 = written path2 (fresh_id args path1 w)
         (written path1 (fresh_id args path1 w) (tick w)).
Proof.
  intros Hd H1 H.
  destruct (node_at path2 (written path1 (fresh_id args path1 w) (tick w)))
    as [[d2|]|] eqn:H2.
  - rewrite (mark_dir_two _ _ _ _ _ _ Hd H1 H2) in H. simplify_eq. split; [by exists d2|done].
  - exfalso. revert H. unfold mark_dir, bind, datetime_now. simpl. unfold bind.
    rewrite Hd. erewrite write_awid_Dir by (by rewrite node_at_tick).
    by erewrite write_awid_NotDir.
  - exfalso. revert H. unfold mark_dir, bind, datetime_now. simpl. unfold bind.
    rewrite Hd. erewrite write_awid_Dir by (by rewrite node_at_tick).
    by erewrite write_awid_missing.
Qed.

Lemma work_written_archive n dir_id w : work (written (ap n) dir_id w) = work w.
Proof. unfold written. by destruct (node_at _ w) as [[d|]|]. Qed.

Lemma archive_written_work n dir_id w : archive (written (wp n) dir_id w) = archive w.
Proof. unfold written. by destruct (node_at _ w) as [[d|]|]. Qed.

Lemma archive_written_keys p dir_id w :
  keys (archive (written p dir_id w)) = keys (archive w).
Proof.
  unfold written. destruct (node_at _ w) as [[d|]|]; [|done..].
  destruct p as [[] n]; simpl; [done|]. apply keys_put.
Qed.

Lemma work_written_dir_names p dir_id w :
  dir_names (work (written p dir_id w)) = dir_names (work w).
Proof.
  unfold written. destruct (node_at _ w) as [[d|]|] eqn:E; [|done..].
  destruct p as [[] n]; simpl; [|done]. apply dir_names_put. by exists d.
Qed.

Lemma is_dir_at_written q p dir_id w :
  is_dir_at q w -> is_dir_at q (written p dir_id w).
Proof.
  intros [d Hd]. unfold is_dir_at. rewrite node_at_written.
  case_decide; rewrite Hd; eauto.
Qed.

Lemma read_written p dir_id w d :
  node_at p w = Some (Dir d) ->
  read_dir_id p (written p dir_id w)
  = (Ret (nonblank (Py.strip (Py.readline dir_id))), written p dir_id w).
Proof.
  intros Hd. apply read_dir_id_node_id. rewrite node_at_written, decide_True, Hd by done.
  done.
Qed.

Lemma settled_node args known w w' d :
  node_at (d_work d) w' = node_at (d_work d) w ->
  settled args known w d -> settled args known w' d.
Proof.
  unfold settled, is_dir_at. intros Hn (Hw & Hd & H). rewrite Hw in Hn.
  split; [done|]. rewrite Hn. split; [done|].
  destruct (d_archive d).
  - destruct H as [? [x ?]]. split; [done|]. exists x. by eapply read_dir_id_node.
  - destruct H as [[? ?]|[i [? ?]]]; [left|right; exists i];
      (split; [by eapply read_dir_id_node|done]).
Qed.

Lemma turn_effect_refl n synced w : turn_effect n synced w w.
Proof. repeat split; auto. Qed.

Lemma turn_effect_tick n synced w : turn_effect n synced w (tick w).
Proof. repeat split; auto. Qed.

Lemma turn_effect_trans n synced w1 w2 w3 :
  turn_effect n synced w1 w2 -> turn_effect n synced w2 w3 ->
  turn_effect n synced w1 w3.
Proof.
  intros (A1 & A2 & A3) (B1 & B2 & B3). split; [congruence|]. split; [auto|].
  intros Hnd. destruct (A3 Hnd) as [A4 A5]. destruct (B3 A4) as [B4 B5].
  split; [done|]. intros m v Hm. destruct (B5 _ _ Hm) as [?|?]; [by left|auto].
Qed.

Lemma turn_effect_written_work n synced dir_id w :
  turn_effect n synced w (written (wp n) dir_id w).
Proof.
  split; [apply work_written_dir_names|]. split; [intros; by apply is_dir_at_written|].
  rewrite archive_written_work. auto.
Qed.

Lemma turn_effect_written_archive n dir_id w :
  turn_effect n True w (written (ap n) dir_id w).
Proof.
  split; [apply work_written_dir_names|]. split; [intros; by apply is_dir_at_written|].
  intros Hnd. split; [unfold keys in *; by rewrite archive_written_keys|].
  intros m v. change (assoc m (archive ?w)) with (node_at (ap m) w).
  rewrite node_at_written. case_decide as E; [|auto]. injection E as ->. by left.
Qed.

Lemma turn_effect_moved n k w :
  parent k = ArchiveBase -> name k <> n -> turn_effect n True w (moved k (ap n) w).
Proof.
  intros Hk Hne. destruct k as [b s]. simpl in *. subst b.
  unfold turn_effect, moved, is_dir_at, node_at. simpl. repeat split; try done.
  - destruct (keys_drop_entry n _ H) as (H1 & H2 & H3). by apply keys_rekey.
  - intros m v Hm. destruct (decide (m = n)) as [->|Hmn]; [by left|]. right.
    destruct (keys_drop_entry n _ H) as (H1 & H2 & H3).
    destruct (decide (m = s)) as [->|Hms].
    + rewrite assoc_rekey_src in Hm; done.
    + by rewrite assoc_rekey_ne, assoc_drop_ne in Hm.
Qed.

Lemma turn_effect_weaken n w w' : turn_effect n True w w' -> turn_effect n (is_Some (Some (ap n))) w w'.
Proof.
  intros (A1 & A2 & A3). repeat split; try done; [by apply A3|].
  intros m v Hm. destruct (proj2 (A3 H) m v Hm) as [[-> _]|?]; [left|by right].
  split; [done|by eexists].
Qed.

Lemma scan_body_first_run args known n w d w' :
  dry_run args = false -> known_in_archive known -> is_dir_at (wp n) w ->
  scan_body args known (wp n) w = (Ret d, w') ->
  settled args known w' d /\
  turn_effect n (is_Some (d_archive d)) w w' /\
  (d_archive d = None -> w' = w).
Proof.
  intros Hd Hk [dn Hn] H.
  destruct (read_dir_id (wp n) w) as [[o|e] w0] eqn:Er;
    [|by rewrite (scan_body_read_error _ _ _ _ _ _ Er) in H].
  apply read_dir_id_world in Er as Hw0. subst w0.
  destruct o as [i|].
  - destruct (known !! i) as [k|] eqn:Ek.
    + assert (parent k = ArchiveBase) as Hpk by eauto.
      destruct (decide (name k = name (wp n))) as [En|En].
      * rewrite (scan_body_RESYNC _ _ _ _ _ _ Er Ek En) in H. simplify_eq.
        assert (k = ap n) as -> by (destruct k; simpl in *; by subst).
        split; [|split; [apply turn_effect_refl | done]].
        repeat split; simpl; eauto. by exists dn.
      * rewrite (scan_body_RENAMED _ _ _ _ _ _ Er Ek En Hd) in H.
        apply bind_inv_Ret in H as ([] & w1 & Em & H). apply ret_inv in H as [<- <-].
        simpl in *. rewrite Hpk in *. fold (ap n) in *.
        apply os_rename_Ret in Em as ->.
        assert (node_at (wp n) (moved k (ap n) w) = node_at (wp n) w) as Hsame.
        { change (assoc n (work (moved k (ap n) w)) = assoc n (work w)).
          by rewrite work_moved. }
        split; [|split; [by apply turn_effect_weaken, turn_effect_moved | done]].
        repeat split; simpl; eauto.
        -- exists dn. by rewrite Hsame.
        -- exists i. by eapply read_dir_id_node.
    + destruct (node_at (ap (name (wp n))) w) as [v|] eqn:Ev.
      * rewrite (scan_body_CONFLICT_SKIP _ _ _ _ _ _ Er Ek Ev) in H. simplify_eq.
        split; [|split; [apply turn_effect_refl | done]].
        repeat split; simpl; eauto. by exists dn.
      * rewrite (scan_body_RESTORE _ _ _ _ _ Er Ek Ev) in H. simplify_eq.
        split; [|split; [apply turn_effect_refl | done]].
        repeat split; simpl; eauto. by exists dn.
  - destruct (node_at (ap (name (wp n))) w) as [v|] eqn:Ev.
    + destruct (mark_new args) eqn:Hm.
      * rewrite (scan_body_NEW_CONFLICT_OVERWRITE _ _ _ _ _ Er Ev Hm) in H.
        apply bind_inv_Ret in H as (x & w1 & Em & H). apply ret_inv in H as [<- <-].
        destruct (mark_dir_two_inv _ _ _ _ _ _ _ Hd Hn Em) as [Hda ->]. simpl in *.
        set (dir_id := fresh_id args (wp n) w) in *.
        split; [|split; [|done]].
        -- repeat split; simpl.
           ++ apply is_dir_at_written, is_dir_at_written. exists dn. by rewrite node_at_tick.
           ++ destruct (fresh_id_visible args (wp n) w) as [x' Hx]. exists x'.
              fold dir_id in Hx. rewrite <- Hx.
              eapply read_dir_id_node; [|eapply (read_written (wp n) dir_id (tick w));
                                         by rewrite node_at_tick].
              rewrite (node_at_written (wp n) (ap n)), decide_False by done.
              rewrite !node_at_written. by rewrite decide_True.
        -- apply turn_effect_weaken.
           eapply turn_effect_trans; [|apply turn_effect_written_archive].
           eapply turn_effect_trans; [apply turn_effect_tick|].
           apply turn_effect_written_work.
      * rewrite (scan_body_NEW_CONFLICT_SKIP _ _ _ _ _ Er Ev Hm) in H. simplify_eq.
        split; [|split; [apply turn_effect_refl | done]].
        repeat split; simpl; eauto. by exists dn.
    + rewrite (scan_body_NEW _ _ _ _ Er Ev) in H.
      apply bind_inv_Ret in H as (x & w1 & Em & H). apply ret_inv in H as [<- <-].
      rewrite (mark_dir_one _ _ _ _ Hd Hn) in Em. simplify_eq. simpl.
      set (dir_id := fresh_id args (wp n) w) in *.
      split; [|split; [|done]].
      -- repeat split; simpl.
         ++ apply is_dir_at_written. exists dn. by rewrite node_at_tick.
         ++ destruct (fresh_id_visible args (wp n) w) as [x' Hx]. exists x'.
            fold dir_id in Hx. rewrite <- Hx.
            eapply (read_written (wp n) dir_id (tick w)). by rewrite node_at_tick.
      -- eapply turn_effect_trans; [apply turn_effect_tick|].
         apply turn_effect_written_work.
Qed.

Lemma elem_of_synced_names m ds :
  m ∈ synced_names ds <-> exists d, d ∈ ds /\ name (d_work d) = m /\ is_Some (d_archive d).
Proof.
  unfold synced_names. rewrite list_elem_of_omap. split.
  - intros (d & Hd & E). exists d. destruct (d_archive d); simplify_eq/=. eauto.
  - intros (d & Hd & <- & [t Ht]). exists d. by rewrite Ht.
Qed.

Lemma rsync_todo_settled args known w ds :
  Forall (settled args known w) ds -> rsync_todo ds = item <$> synced_names ds.
Proof.
  unfold rsync_todo, synced_names. induction 1 as [|d ds (Hw & _ & Hd) _ IH]; [done|].
  simpl. destruct (d_archive d) as [t|]; simpl; [|exact IH].
  destruct Hd as [-> _]. f_equal; [|exact IH]. unfold item. by rewrite <- Hw.
Qed.

Lemma scan_loop_first_run args known names :
  dry_run args = false -> known_in_archive known -> NoDup names ->
  forall w ds w',
    (forall n, n ∈ names -> is_dir_at (wp n) w) ->
    NoDup (keys (archive w)) ->
    scan_loop args known (wp <$> names) w = (Ret ds, w') ->
    Forall (settled args known w') ds /\
    dir_names (work w') = dir_names (work w) /\
    (forall m, is_dir_at (wp m) w -> is_dir_at (wp m) w') /\
    NoDup (keys (archive w')) /\
    (forall m v, assoc m (archive w') = Some v ->
       m ∈ synced_names ds \/ assoc m (archive w) = Some v).
Proof.
  intros Hd Hk Hnd. induction names as [|n names IH]; intros w ds w' Hdir Ha H.
  - simpl in H. apply ret_inv in H as [<- <-]. repeat split; auto.
  - rewrite fmap_cons in H. simpl in H.
    apply bind_inv_Ret in H as (d & w1 & Eb & H).
    apply bind_inv_Ret in H as (ds' & w2 & El & H). apply ret_inv in H as [<- <-].
    apply NoDup_cons in Hnd as [Hn Hnd].
    destruct (scan_body_first_run _ _ _ _ _ _ Hd Hk (Hdir n ltac:(by left)) Eb)
      as (Hs & (T1 & T2 & T3) & _).
    destruct (T3 Ha) as [T4 T5].
    destruct (scan_body_decision _ _ _ _ _ _ Eb) as [Ew _].
    destruct (IH Hnd w1 ds' w2) as (I1 & I2 & I3 & I4 & I5); [|done..|].
    { intros m Hm. apply T2, Hdir. by right. }
    split; [|split; [congruence|split; [auto|split; [done|]]]].
    + constructor; [|done]. eapply settled_node; [|done]. rewrite Ew.
      apply (scan_loop_work_kept args known (wp <$> names) n Hk) with (o := Ret ds');
        [|done].
      by intros (m & [= <-] & Hm)%list_elem_of_fmap.
    + intros m v Hm. destruct (I5 _ _ Hm) as [Hin|Hin].
      * left. unfold synced_names in *. simpl. destruct (d_archive d); simpl; [by right|done].
      * destruct (T5 _ _ Hin) as [[-> [t Ht]]|?]; [|by right].
        left. unfold synced_names. simpl. rewrite Ht. simpl. rewrite Ew. by left.
Qed.

(** ** The second run *)

Lemma second_ok_node args known2 w w' d :
  node_at (d_work d) w' = node_at (d_work d) w ->
  second_ok args known2 w d -> second_ok args known2 w' d.
Proof.
  unfold second_ok, is_dir_at. intros Hn (Hw & Hd & H). rewrite Hw in Hn.
  split; [done|]. rewrite Hn. split; [done|].
  destruct (d_archive d).
  - destruct H as [? (x & ? & ?)]. split; [done|]. exists x.
    split; [by eapply read_dir_id_node|done].
  - destruct H as [[? ?]|(i & ? & ?)]; [left|right; exists i];
      (split; [by eapply read_dir_id_node|done]).
Qed.

Lemma scan_body_second_run args known2 w d :
  dry_run args = false -> second_ok args known2 w d ->
  exists d2 w',
    scan_body args known2 (d_work d) w = (Ret d2, w') /\ resynced d d2 /\
    forall q, q <> d_work d -> node_at q w' = node_at q w.
Proof.
  intros Hd (Hw & [dn Hn] & H). set (n := name (d_work d)) in *. rewrite Hw.
  destruct (d_archive d) as [t|] eqn:Et.
  - destruct H as [-> (x & Hr & Hx)].
    exists (mk_decision (wp n) RESYNC (Some (ap n))), w.
    split; [by eapply scan_body_RESYNC|]. split; [|done].
    split; simpl; [done|]. intros _. by rewrite Hw, Et.
  - assert (forall d2, d_work d2 = wp n -> resynced d d2) as Hres.
    { intros d2 E. split; [congruence|]. rewrite Et. by intros [? ?]. }
    destruct H as [[Hr Hm]|(i & Hr & Hi)].
    + destruct (node_at (ap (name (wp n))) w) as [v|] eqn:Ev.
      * eexists _, w. split; [by eapply scan_body_NEW_CONFLICT_SKIP|]. split; [|done].
        by apply Hres.
      * eexists _, _. split.
        { rewrite (scan_body_NEW _ _ _ _ Hr Ev).
          rewrite (bind_Ret _ _ _ _ _ (mark_dir_one _ _ _ _ Hd Hn)). reflexivity. }
        split; [by apply Hres|]. intros q Hq.
        rewrite node_at_written, decide_False by done. apply node_at_tick.
    + destruct (known2 !! i) as [k|] eqn:Ek.
      * eexists _, w. split; [eapply scan_body_RESYNC; eauto|]. split; [|done].
        by apply Hres.
      * destruct (node_at (ap (name (wp n))) w) as [v|] eqn:Ev.
        -- eexists _, w. split; [by eapply scan_body_CONFLICT_SKIP|]. split; [|done].
           by apply Hres.
        -- eexists _, w. split; [by eapply scan_body_RESTORE|]. split; [|done].
           by apply Hres.
Qed.

Lemma scan_loop_second_run args known2 ds1 :
  dry_run args = false -> NoDup (d_work <$> ds1) ->
  forall w, Forall (second_ok args known2 w) ds1 ->
    exists ds2 w',
      scan_loop args known2 (d_work <$> ds1) w = (Ret ds2, w') /\
      Forall2 resynced ds1 ds2.
Proof.
  intros Hd. induction ds1 as [|d ds1 IH]; intros Hnd w Hok.
  - exists [], w. split; [done|constructor].
  - rewrite fmap_cons in Hnd. apply NoDup_cons in Hnd as [Hn Hnd].
    apply Forall_cons in Hok as [Hok1 Hok].
    destruct (scan_body_second_run _ _ _ _ Hd Hok1) as (d2 & w1 & Eb & Hr & Hfr).
    destruct (IH Hnd w1) as (ds2 & w2 & El & Hrs).
    { apply Forall_forall. intros d' Hd'. rewrite Forall_forall in Hok.
      eapply second_ok_node; [|by apply Hok]. apply Hfr. intros E. apply Hn.
      rewrite <- E. by apply list_elem_of_fmap_2. }
    exists (d2 :: ds2), w2. split; [|by constructor].
    rewrite fmap_cons. simpl. rewrite (bind_Ret _ _ _ _ _ Eb).
    by rewrite (bind_Ret _ _ _ _ _ El).
Qed.

Lemma collect_known_total dirs known0 w :
  (forall p v, p ∈ dirs -> node_at p w = Some v -> readable v) ->
  exists known, collect_known dirs known0 w = (Ret known, w).
Proof.
  revert known0. induction dirs as [|p dirs IH]; intros known0 Hr; simpl.
  - by eexists.
  - unfold bind at 1. unfold is_dir.
    assert (forall known0, exists known, collect_known dirs known0 w = (Ret known, w))
      as IH' by (intros; apply IH; intros; eapply Hr; [by right|done]).
    destruct (node_at p w) as [[d|]|] eqn:Hp; [|apply IH'..].
    destruct (read_dir_id p w) as [[o|e] w1] eqn:Er.
    + rewrite (bind_Ret _ _ _ _ _ Er). apply read_dir_id_world in Er as ->.
      destruct o; apply IH'.
    + apply read_dir_id_Raise in Er as (_ & _ & d' & Hd' & Hu).
      rewrite Hp in Hd'. simplify_eq.
      destruct (Hr p (Dir d') ltac:(by left) Hp). done.
Qed.

Lemma elem_of_keys_assoc n l : n ∈ keys l <-> is_Some (assoc n l).
Proof.
  destruct (assoc n l) eqn:E.
  - split; [by eauto|]. intros _. destruct (decide (n ∈ keys l)) as [|Hn]; [done|].
    apply assoc_None in Hn. congruence.
  - split; [|by intros [? ?]]. intros Hin. by apply assoc_None in E.
Qed.

Lemma known_archive_dirs_total w :
  (forall m v, assoc m (archive w) = Some v -> readable v) ->
  exists known, known_archive_dirs w = (Ret known, w).
Proof.
  intros Hr. unfold known_archive_dirs, iterdir, bind.
  apply collect_known_total. intros p v (m & -> & _)%list_elem_of_fmap. apply Hr.
Qed.

Lemma known_archive_dirs_readable w known w' m v :
  known_archive_dirs w = (Ret known, w') ->
  assoc m (archive w) = Some v -> readable v.
Proof.
  intros H Hm. destruct v as [d|]; [|done]. intros Hu.
  unfold known_archive_dirs, iterdir, bind in H.
  rewrite (collect_known_unreadable _ _ _ (ap m) d) in H; [done| |done..].
  apply list_elem_of_fmap. exists m. split; [done|].
  apply elem_of_keys_assoc. simpl. by rewrite Hm.
Qed.

Lemma elem_of_dir_names_inv n l :
  NoDup (keys l) -> n ∈ dir_names l -> exists d, assoc n l = Some (Dir d).
Proof.
  intros Hnd ((k & v) & -> & [Hin Hv]%list_elem_of_In%filter_In)%list_elem_of_fmap.
  simpl in *. destruct v as [d|]; [|done]. exists d.
  apply assoc_elem; [done|]. by apply list_elem_of_In.
Qed.

Lemma read_dir_id_copy p w q w' o :
  node_at q w' = node_at p w ->
  read_dir_id p w = (Ret o, w) -> read_dir_id q w' = (Ret o, w').
Proof. intros E. rewrite !read_dir_id_node_id. by rewrite E. Qed.

Lemma rsync_todo_resynced ds1 ds2 :
  Forall2 resynced ds1 ds2 -> rsync_todo ds1 `sublist_of` rsync_todo ds2.
Proof.
  unfold rsync_todo. induction 1 as [|d1 d2 ds1 ds2 [Hw Hr] _ IH]; simpl; [done|].
  destruct (d_archive d1) as [t|] eqn:E1; simpl.
  - rewrite (Hr ltac:(by eexists)). simpl. by apply sublist_skip.
  - destruct (d_archive d2); simpl; [by apply sublist_cons | done].
Qed.

Lemma NoDup_ids_unique l : NoDup (ids l) -> unique_ids l.
Proof.
  unfold ids, unique_ids. induction l as [|[k x] l IH]; simpl; [done|].
  intros Hnd n m vn vm i Hn Hm Hin Him.
  assert (forall q v, assoc q l = Some v -> node_id v = Some i ->
                      i ∈ omap (fun e => node_id e.2) l) as Hmem.
  { intros q v Hq Hv. apply list_elem_of_omap. exists (q, v).
    split; [by apply assoc_Some_elem | done]. }
  assert (NoDup (omap (fun e => node_id e.2) l)) as Hnd'.
  { destruct (node_id x); [by apply NoDup_cons in Hnd as [_ ?] | done]. }
  destruct (decide (k = n)) as [En|Hkn], (decide (k = m)) as [Em|Hkm];
    [congruence|..].
  - injection Hn as <-. rewrite Hin in Hnd. apply NoDup_cons in Hnd as [Hi _].
    destruct Hi. eauto.
  - injection Hm as <-. rewrite Him in Hnd. apply NoDup_cons in Hnd as [Hi _].
    destruct Hi. eauto.
  - eauto.
Qed.

(** C3, as amended: let a run that is not a dry run return, let the mirror
    make every target a copy of its source, and let no two work
    subdirectories and no two archive subdirectories carry the same
    identity afterwards. Then a second run with the same options returns,
    classifies every pair that the first run synced as [RESYNC] with the
    same target, and its [rsync_todo] has the entries of the first one in
    the same order. *)
Theorem C3_second_run args w ds1 w1 :
  dry_run args = false -> test_no_rsync args = false ->
  NoDup (keys (work w)) -> NoDup (keys (archive w)) ->
  reconcile args w = (Ret ds1, w1) ->
  NoDup (ids (work (after_run args ds1 w1))) ->
  NoDup (ids (archive (after_run args ds1 w1))) ->
  exists ds2 w2,
    reconcile args (after_run args ds1 w1) = (Ret ds2, w2) /\
    Forall2 resynced ds1 ds2 /\
    rsync_todo ds1 `sublist_of` rsync_todo ds2.
Proof.
  intros Hd Ht Hndw Hnda H Huw%NoDup_ids_unique Hua%NoDup_ids_unique.
  unfold after_run in *. rewrite Hd, Ht in *. simpl in Huw, Hua |- *.
  unfold reconcile in H. apply bind_inv_Ret in H as (known1 & w0 & Ek1 & H).
  destruct (known_archive_dirs_in_archive _ _ _ Ek1) as [Hk1 ->].
  rewrite (bind_Ret _ _ _ _ _ (sorted_work_dirs_eq w)) in H.
  set (names := merge_sort String.le (dir_names (work w))) in *.
  assert (NoDup names) as Hnames.
  { unfold names. rewrite merge_sort_Permutation. by apply NoDup_dir_names. }
  destruct (scan_loop_first_run args known1 names Hd Hk1 Hnames w ds1 w1)
    as (Hset & Hdn & Hdirs & Hnda1 & Hprov); [|done..|].
  { intros n Hn. unfold names in Hn. rewrite merge_sort_Permutation in Hn.
    by apply elem_of_dir_names_inv. }
  rewrite (rsync_todo_settled _ _ _ _ Hset) in *.
  set (w1' := after_mirror (item <$> synced_names ds1) w1) in *.
  assert (work w1' = work w1) as Hw1' by apply after_mirror_work.
  assert (forall m, assoc m (archive w1')
                    = if decide (m ∈ synced_names ds1) then assoc m (work w1)
                      else assoc m (archive w1)) as Ha1'.
  { intros m. apply after_mirror_archive. intros n (d & Hin & <- & _)%elem_of_synced_names.
    rewrite Forall_forall in Hset. destruct (Hset d Hin) as (_ & [dn Hdn'] & _).
    by exists (Dir dn). }
  assert (forall n, node_at (wp n) w1' = node_at (wp n) w1) as Hwn.
  { intros n. unfold node_at. simpl. by rewrite Hw1'. }
  assert (forall n o, read_dir_id (wp n) w1 = (Ret o, w1) ->
                      read_dir_id (wp n) w1' = (Ret o, w1')) as Hrw.
  { intros n o. apply read_dir_id_copy, Hwn. }
  (* every archive entry of the second start is readable *)
  destruct (known_archive_dirs_total w1') as [known2 Ek2].
  { intros m v. rewrite Ha1'. case_decide as Hm.
    - apply elem_of_synced_names in Hm as (d & Hin & <- & [t Et]).
      rewrite Forall_forall in Hset. destruct (Hset d Hin) as (_ & _ & Hs).
      rewrite Et in Hs. destruct Hs as [_ (x & Hx)].
      apply read_dir_id_node_id in Hx. intros Hv.
      change (node_at (wp (name (d_work d))) w1 = Some v) in Hv. rewrite Hv in Hx.
      by destruct Hx.
    - intros Hv. destruct (Hprov _ _ Hv) as [?|Hv0]; [done|].
      by eapply known_archive_dirs_readable. }
  destruct (known_archive_dirs_in_archive _ _ _ Ek2) as [Hk2 _].
  (* what the second run finds for each decision of the first *)
  assert (Forall (second_ok args known2 w1') ds1) as Hok.
  { apply Forall_forall. intros d Hin. rewrite Forall_forall in Hset.
    destruct (Hset d Hin) as (Hdw & [dn Hdn'] & Hs).
    set (n := name (d_work d)) in *.
    split; [done|]. split; [exists dn; by rewrite Hwn|].
    destruct (d_archive d) as [t|] eqn:Et.
    - destruct Hs as [-> (x & Hx)]. split; [done|]. exists x.
      split; [by apply Hrw|].
      assert (n ∈ synced_names ds1) as Hn.
      { apply elem_of_synced_names. exists d. by rewrite Et. }
      assert (node_at (ap n) w1' = node_at (wp n) w1) as Hcopy.
      { unfold node_at. simpl. by rewrite Ha1', decide_True. }
      assert (read_dir_id (ap n) w1' = (Ret (Some x), w1')) as Hrx
        by (by apply (read_dir_id_copy (wp n) w1)).
      destruct (known_archive_dirs_complete _ _ _ _ _ Ek2 Hrx) as [k Hk].
      destruct (known_archive_dirs_sound _ _ _ _ _ Ek2 Hk) as [Hpk Hrk].
      destruct k as [b m]. simpl in Hpk. subst b. rewrite Hk. f_equal. unfold ap. f_equal.
      apply read_dir_id_node_id in Hrk, Hrx.
      destruct (node_at (mk_Path ArchiveBase m) w1') as [vm|] eqn:Evm; [|done].
      destruct (node_at (ap n) w1') as [vn|] eqn:Evn; [|done].
      destruct Hrk as [_ Hidm], Hrx as [_ Hidn].
      eapply (Hua m n); eauto.
    - destruct Hs as [[Hr Hm]|(i & Hr & Hi)].
      + left. split; [by apply Hrw|done].
      + right. exists i. split; [by apply Hrw|].
        intros k Hk. destruct (known_archive_dirs_sound _ _ _ _ _ Ek2 Hk) as [Hpk Hrk].
        destruct k as [b m]. simpl in Hpk |- *. subst b.
        apply read_dir_id_node_id in Hrk.
        destruct (node_at (mk_Path ArchiveBase m) w1') as [vm|] eqn:Evm; [|done].
        destruct Hrk as [Hrd Hidm]. unfold node_at in Evm. simpl in Evm.
        rewrite Ha1' in Evm. case_decide as Hm.
        * (* a copy of a work subdirectory with the identity of [n] *)
          apply read_dir_id_node_id in Hr. rewrite Hdn' in Hr. destruct Hr as [_ Hidn].
          apply (Huw m n vm (Dir dn) i);
            [by rewrite Hw1' | rewrite Hw1'; exact Hdn' | done | done].
        * (* an archive entry that the first run never touched *)
          destruct (Hprov _ _ Evm) as [?|Hv0]; [done|].
          assert (read_dir_id (ap m) w = (Ret (Some i), w)) as Hr0.
          { apply read_dir_id_node_id. unfold node_at. simpl. by rewrite Hv0. }
          destruct (known_archive_dirs_complete _ _ _ _ _ Ek1 Hr0) as [? ?].
          congruence. }
  (* the second scan *)
  assert (scan_dirs w1' = d_work <$> ds1) as Hdirs2.
  { unfold scan_dirs. rewrite Hw1', Hdn. fold names. symmetry.
    by eapply scan_loop_works. }
  destruct (scan_loop_second_run args known2 ds1 Hd) with (w := w1')
    as (ds2 & w2 & El & Hres); [|done|].
  { rewrite <- Hdirs2. unfold scan_dirs.
    apply NoDup_fmap_2; [by intros ?? [= ->]|].
    rewrite merge_sort_Permutation, Hw1', Hdn. by apply NoDup_dir_names. }
  exists ds2, w2. split; [|split; [done|]].
  - rewrite (reconcile_eq _ _ _ Ek2). by rewrite Hdirs2.
  - rewrite <- (rsync_todo_settled _ _ _ _ Hset). by apply rsync_todo_resynced.
Qed.

Lemma C3_second_run_witness :
  let args := mk_Args "/w" "/a" false false None false false false [] false in
  let w := mk_world [("beta", dir_with (Text "B1")); ("alpha", dir_with Absent);
                     ("gamma", dir_with (Text "G1")); ("delta", dir_with Absent)]
             [("beta", dir_with (Text "B1")); ("gamma-old", dir_with (Text "G1"));
              ("delta", dir_with (Text "unrelated"))]
             (fun _ => epoch) 0 [] in
  let ds1 := [mk_decision (wp "alpha") NEW (Some (ap "alpha"));
              mk_decision (wp "beta") RESYNC (Some (ap "beta"));
              mk_decision (wp "delta") NEW_CONFLICT_SKIP None;
              mk_decision (wp "gamma") (RENAMED "gamma-old") (Some (ap "gamma"))] in
  exists ds2 w2,
    reconcile args (after_run args ds1 (reconcile args w).2) = (Ret ds2, w2) /\
    Forall2 resynced ds1 ds2 /\
    rsync_todo ds1 `sublist_of` rsync_todo ds2.
Proof.
  intros args w ds1.
  refine (C3_second_run args w ds1 (reconcile args w).2 eq_refl eq_refl _ _ _ _ _).
  - apply (bool_decide_unpack _). vm_compute. exact I.
  - apply (bool_decide_unpack _). vm_compute. exact I.
  - vm_compute. reflexivity.
  - apply (bool_decide_unpack _). vm_compute. exact I.
  - apply (bool_decide_unpack _). vm_compute. exact I.
Defined.

(** C3, as stated, fails when two work subdirectories carry one identity
    (a copy of a marked subdirectory, say). The first run restores both;
    in the second the index maps their identity to one of the two archive
    copies, the other work subdirectory is taken for renamed, and the
    rename onto its own, non-empty archive copy fails: whichever of the two
    the archive enumerates last. *)
Lemma C3_counterexample :
  let args := mk_Args "/w" "/a" false false None false false false [] false in
  let w := mk_world [("a", dir_with (Text "X1")); ("b", dir_with (Text "X1"))] []
             (fun _ => epoch) 0 [] in
  let ds1 := [mk_decision (wp "a") RESTORE (Some (ap "a"));
              mk_decision (wp "b") RESTORE (Some (ap "b"))] in
  let w1 := after_run args ds1 (reconcile args w).2 in
  let w1_swapped := set_listing ArchiveBase (reverse (archive w1)) w1 in
  (reconcile args w).1 = Ret ds1 /\
  archive w1 = [("a", dir_with (Text "X1")); ("b", dir_with (Text "X1"))] /\
  (reconcile args w1).1 = Raise DirectoryNotEmpty /\
  (reconcile args w1_swapped).1 = Raise DirectoryNotEmpty.
Proof. repeat split; vm_compute; reflexivity. Qed.

(** * The claims that speak of a whole run *)

(** ** The steps of [mark_dir] *)

Lemma mark_dir_eq args path1 path2 w :
  dry_run args = false ->
  mark_dir args path1 path2 w
  = match write_awid path1 (fresh_id args path1 w) (tick w) with
    | (Ret _, w1) =>
        match path2 with
        | None => (Ret (fresh_id args path1 w), w1)
        | Some q =>
            match write_awid q (fresh_id args path1 w) w1 with
            | (Ret _, w2) => (Ret (fresh_id args path1 w), w2)
            | (Raise e, w2) => (Raise e, w2)
            end
        end
    | (Raise e, w1) => (Raise e, w1)
    end.
Proof.
  intros Hd. unfold mark_dir, datetime_now. unfold bind at 1. unfold bind at 1.
  cbn [mark_paths]. rewrite Hd. unfold bind at 1. fold (fresh_id args path1 w).
  destruct (write_awid path1 _ (tick w)) as [[[]|e] w1]; [|done].
  destruct path2 as [q|]; [|done].
  change (option_list (Some q)) with [q]. cbn [mark_paths]. rewrite Hd. unfold bind at 1.
  by destruct (write_awid q _ w1) as [[[]|e] w2].
Qed.

(** ** What the sync loop calls *)

Lemma sync_events_cons args it todo :
  sync_events args (it :: todo)
  = ((if rename args
      then [EvAttemptRenames (dry_run args) (work_path it) (archive_path it)] else [])
     ++ (if test_no_rsync args then []
         else [EvRun (rsync_command args (work_path it) (archive_path it))]))
    ++ sync_events args todo.
Proof. done. Qed.

Lemma mirror_calls_sync_events args todo :
  mirror_calls (sync_events args todo)
  = if test_no_rsync args then []
    else (fun it => rsync_command args (work_path it) (archive_path it)) <$> todo.
Proof.
  induction todo as [|it todo IH]; [by destruct (test_no_rsync args)|].
  rewrite sync_events_cons. unfold mirror_calls in *. rewrite omap_app, IH.
  destruct (rename args), (test_no_rsync args); done.
Qed.

Lemma rename_calls_sync_events args todo :
  rename_calls (sync_events args todo)
  = if rename args
    then (fun it => (dry_run args, work_path it, archive_path it)) <$> todo
    else [].
Proof.
  induction todo as [|it todo IH]; [by destruct (rename args)|].
  rewrite sync_events_cons. unfold rename_calls in *. rewrite omap_app, IH.
  destruct (rename args), (test_no_rsync args); done.
Qed.

Lemma length_sync_events args todo :
  length (sync_events args todo)
  = length (mirror_calls (sync_events args todo))
    + length (rename_calls (sync_events args todo)).
Proof.
  rewrite mirror_calls_sync_events, rename_calls_sync_events.
  induction todo as [|it todo IH]; [by destruct (test_no_rsync args), (rename args)|].
  rewrite sync_events_cons, !length_app, IH.
  destruct (rename args), (test_no_rsync args); simpl; rewrite ?length_fmap; lia.
Qed.

Lemma main_scan args w :
  mark_requested args = None ->
  match reconcile args w with
  | (Ret ds, w1) =>
      exists r, main args w
                = (Ret (Some r),
                   mk_world (work w1) (archive w1) (clock w1) (ticks w1)
                     (trace w1 ++ sync_events args (rsync_todo ds)))
  | (Raise e, w1) => main args w = (Raise e, w1)
  end.
Proof.
  intros Hm. unfold main. rewrite Hm.
  destruct (reconcile args w) as [[ds|e] w1] eqn:E.
  - rewrite (bind_Ret _ _ _ _ _ E). rewrite (bind_Ret _ _ _ _ _ (sync_loop_eq _ _ _)).
    destruct (skipped ds); [|destruct (report_skipped args)]; by eexists.
  - by rewrite (bind_Raise _ _ _ _ _ E).
Qed.

(** C1, as amended: a dry run writes no sentinel and renames no directory,
    however it ends. When it returns after a scan, its events are, for each
    entry of [rsync_todo] in order, the call of [attempt_renames] (with
    [--rename] only) and the call of the mirror (unless [--test-no-rsync]
    is given), each in its dry-run mode, and nothing else; when it fails or
    only marks ([--mark]) it has no event at all. And when the run without
    [--dry-run] returns and classifies no subdirectory as [RENAMED], the
    dry run returns the same list of decisions: the same actions, the same
    targets, the same partition into [rsync_todo] and [skipped]. *)
Theorem C1_dry_run args w :
  (forall o w', main (set_dry_run true args) w = (o, w') ->
     work w' = work w /\ archive w' = archive w /\
     exists evs, trace w' = trace w ++ evs /\ Forall is_dry_sync_event evs /\
       match o with
       | Ret (Some _) =>
           exists ds, (reconcile (set_dry_run true args) w).1 = Ret ds /\
             evs = sync_events (set_dry_run true args) (rsync_todo ds) /\
             mirror_calls evs
             = (if test_no_rsync args then []
                else (fun it => rsync_command (set_dry_run true args)
                                  (work_path it) (archive_path it)) <$> rsync_todo ds) /\
             rename_calls evs
             = (if rename args
                then (fun it => (true, work_path it, archive_path it)) <$> rsync_todo ds
                else []) /\
             length evs = length (mirror_calls evs) + length (rename_calls evs)
       | Ret None | Raise _ => evs = []
       end) /\
  (NoDup (keys (work w)) ->
   forall ds wr, reconcile (set_dry_run false args) w = (Ret ds, wr) ->
     Forall not_renamed ds ->
     exists wd, reconcile (set_dry_run true args) w = (Ret ds, wd) /\ same_files w wd).
Proof.
  split.
  - intros o w' H. set (dargs := set_dry_run true args) in *.
    assert (dry_run dargs = true) as Hd by done.
    destruct (main_dry _ _ _ _ Hd H) as (Hw & Ha & _). split; [done|]. split; [done|].
    destruct (mark_requested dargs) as [m|] eqn:Hm.
    + exists []. unfold main in H. rewrite Hm in H.
      rewrite (bind_Ret _ _ _ _ _ (mark_dir_dry _ _ _ _ Hd)) in H.
      injection H as <- <-. rewrite app_nil_r. done.
    + pose proof (main_scan dargs w Hm) as Hs.
      destruct (reconcile dargs w) as [[ds|e] w1] eqn:E;
        destruct (reconcile_dry dargs Hd _ _ _ E) as (_ & _ & Ht).
      * destruct Hs as [r Hs]. rewrite Hs in H. injection H as <- <-. simpl.
        exists (sync_events dargs (rsync_todo ds)). rewrite Ht.
        split; [done|]. split; [by apply sync_events_dry|].
        exists ds. split; [done|]. split; [done|].
        split; [exact (mirror_calls_sync_events dargs _)|].
        split; [exact (rename_calls_sync_events dargs _)|].
        exact (length_sync_events dargs _).
      * rewrite Hs in H. injection H as <- <-. exists []. rewrite app_nil_r. done.
  - intros Hnd ds wr H Hnr. unfold reconcile in *.
    apply bind_inv_Ret in H as (known & w1 & Ek & H).
    destruct (known_archive_dirs_in_archive _ _ _ Ek) as [Hk ->].
    rewrite (bind_Ret _ _ _ _ _ (sorted_work_dirs_eq w)) in H.
    rewrite (bind_Ret _ _ _ _ _ Ek), (bind_Ret _ _ _ _ _ (sorted_work_dirs_eq w)).
    eapply (scan_loop_dry_sim (set_dry_run false args)); try done.
    + by apply NoDup_scan_dirs.
    + apply scan_dirs_WorkBase.
Qed.

Lemma C1_dry_run_witness :
  let args := mk_Args "/w" "/a" false false None true true false [] false in
  let dry := set_dry_run true args in
  let w := mk_world [("beta", dir_with (Text "B1")); ("alpha", dir_with Absent);
                     ("gamma", dir_with Absent); ("delta", dir_with (Text "D1"))]
             [("beta", dir_with (Text "B1")); ("gamma", dir_with Absent)]
             (fun _ => epoch) 0 [] in
  (exists wd,
     reconcile dry w
     = (Ret [mk_decision (wp "alpha") NEW (Some (ap "alpha"));
             mk_decision (wp "beta") RESYNC (Some (ap "beta"));
             mk_decision (wp "delta") RESTORE (Some (ap "delta"));
             mk_decision (wp "gamma") NEW_CONFLICT_OVERWRITE (Some (ap "gamma"))], wd)
     /\ same_files w wd) /\
  (work (main dry w).2 = work w /\ archive (main dry w).2 = archive w /\
   exists evs, trace (main dry w).2 = trace w ++ evs /\ Forall is_dry_sync_event evs /\
     exists ds, (reconcile dry w).1 = Ret ds /\
       evs = sync_events dry (rsync_todo ds) /\
       mirror_calls evs
       = (fun it => rsync_command dry (work_path it) (archive_path it)) <$> rsync_todo ds /\
       rename_calls evs
       = (fun it => (true, work_path it, archive_path it)) <$> rsync_todo ds /\
       length evs = length (mirror_calls evs) + length (rename_calls evs)).
Proof.
  intros args dry w. split.
  - refine (proj2 (C1_dry_run args w) _ _ (reconcile (set_dry_run false args) w).2 _ _).
    + apply (bool_decide_unpack _). vm_compute. exact I.
    + vm_compute. reflexivity.
    + repeat constructor; intros old; discriminate.
  - refine (proj1 (C1_dry_run args w) (Ret (Some 0%Z)) (main dry w).2 _).
    vm_compute. reflexivity.
Defined.

(** C1, as stated, fails. The work subdirectory [report-final] carries the
    identity of the archive subdirectory [report-draft]: the run proper
    puts it into [rsync_todo], the dry run into [skipped]. And the dry run
    does invoke the mirror, for [alpha]. *)
Lemma C1_counterexample :
  let args := mk_Args "/w" "/a" false false None false false false [] false in
  let w := mk_world [("alpha", dir_with Absent); ("report-final", dir_with (Text "X1"))]
             [("report-draft", dir_with (Text "X1"))] (fun _ => epoch) 0 [] in
  (reconcile (set_dry_run false args) w).1
  = Ret [mk_decision (wp "alpha") NEW (Some (ap "alpha"));
         mk_decision (wp "report-final") (RENAMED "report-draft")
           (Some (ap "report-final"))] /\
  (reconcile (set_dry_run true args) w).1
  = Ret [mk_decision (wp "alpha") NEW (Some (ap "alpha"));
         mk_decision (wp "report-final") (RENAMED "report-draft") None] /\
  trace (main (set_dry_run true args) w).2
  = [EvRun ["rsync"; "-a"; "--delete"; "--dry-run"; "/w/alpha/"; "/a/alpha"]].
Proof. repeat split; vm_compute; reflexivity. Qed.

(** ** The archive under a rename *)

#[global] Instance archive_names_distinct_preorder : PreOrder archive_names_distinct.
Proof.
  split; [intros w H; exact H|intros w1 w2 w3 H1 H2 H; exact (H2 (H1 H))].
Qed.

#[global] Instance archive_free_preorder m : PreOrder (archive_free m).
Proof.
  split; [intros w H; exact H|intros w1 w2 w3 H1 H2 H; exact (H2 (H1 H))].
Qed.








(** ** The subdirectories of one name in a run *)

#[global] Instance clock_runs_preorder : PreOrder clock_runs.
Proof.
  split; [by intros w|].
  intros w1 w2 w3 [C1 T1] [C2 T2]. split; [congruence|lia].
Qed.














(** ** [--mark-new] against an archive entry that is not a directory *)






(** * Further properties *)

(** ** Markers that are read back *)

Lemma readline_one_line s : one_line s = true -> Py.readline s = s.
Proof.
  induction s as [|c s IH]; simpl; [done|].
  intros H. apply andb_prop in H as [H H3]. apply andb_prop in H as [H1 H2].
  apply negb_true_iff in H1, H2. rewrite H1, H2. f_equal. auto.
Qed.

Lemma rstrip_ends_visible s : ends_visible s = true -> Py.rstrip s = s.
Proof.
  induction s as [|c s IH]; simpl; [done|].
  destruct s as [|c' s].
  - intros H. apply negb_true_iff in H. simpl. by rewrite H.
  - intros H. rewrite (IH H). done.
Qed.

Lemma one_line_app s t : one_line (s +:+ t) = one_line s && one_line t.
Proof.
  induction s as [|c s IH]; simpl; [done|]. rewrite IH. by rewrite !andb_assoc.
Qed.

Lemma ends_visible_app s t : ends_visible t = true -> ends_visible (s +:+ t) = true.
Proof.
  intros Ht. induction s as [|c s IH]; simpl; [done|].
  destruct (s +:+ t) eqn:E; [|done].
  destruct s; simpl in E; [|done]. subst. done.
Qed.

Lemma one_line_zfill width n acc : one_line (Py.zfill width n acc) = one_line acc.
Proof.
  revert n acc. induction width as [|width IH]; intros n acc; simpl; [done|].
  rewrite IH. cbn [one_line]. destruct (digit_visible n) as (_ & -> & ->). done.
Qed.

Lemma one_line_datetime_str t : one_line (datetime_str t) = true.
Proof.
  unfold datetime_str. rewrite !one_line_app, !one_line_zfill.
  destruct (microsecond t =? 0); [done|].
  rewrite one_line_app, one_line_zfill. done.
Qed.

Lemma strip_ends_visible c s :
  Py.isspace c = false -> ends_visible (String c s) = true ->
  Py.strip (String c s) = String c s.
Proof.
  intros Hc He. unfold Py.strip. cbn [Py.lstrip]. rewrite Hc.
  by apply rstrip_ends_visible.
Qed.

Lemma fresh_id_read_back args p w :
  one_line (path_str args p) = true -> ends_visible (path_str args p) = true ->
  nonblank (Py.strip (Py.readline (fresh_id args p w))) = Some (fresh_id args p w).
Proof.
  intros H1 H2.
  rewrite readline_one_line.
  2:{ unfold fresh_id. rewrite !one_line_app, one_line_datetime_str, H1. done. }
  assert (ends_visible (fresh_id args p w) = true) as He.
  { unfold fresh_id. by do 2 apply ends_visible_app. }
  revert He. unfold fresh_id, datetime_str. cbn [Py.zfill]. rewrite !append_cons.
  destruct (digit_visible (year (clock w (ticks w)) / 10 / 10 / 10)) as (Hv & _ & _).
  set (rest := (_ +:+ _)). intros He.
  by rewrite strip_ends_visible.
Qed.

Lemma write_awid_cases p dir_id w :
  (is_dir_at p w /\ write_awid p dir_id w = (Ret tt, written p dir_id w)) \/
  (~ is_dir_at p w /\ exists e, write_awid p dir_id w = (Raise e, w)).
Proof.
  destruct (node_at p w) as [[d|]|] eqn:Hn.
  - left. split; [by exists d|by eapply write_awid_Dir].
  - right. split; [intros [? ?]; congruence|]. eexists. by apply write_awid_NotDir.
  - right. split; [intros [? ?]; congruence|]. eexists. by apply write_awid_missing.
Qed.

Lemma is_dir_at_tick p w : is_dir_at p (tick w) <-> is_dir_at p w.
Proof. unfold is_dir_at. by rewrite node_at_tick. Qed.

Lemma mark_dir_runs args path1 path2 w o w' :
  dry_run args = false ->
  mark_dir args path1 path2 w = (o, w') ->
  let i := fresh_id args path1 w in
  (o = Ret i /\ is_dir_at path1 w /\
   match path2 with
   | None => w' = written path1 i (tick w)
   | Some q => is_dir_at q (written path1 i (tick w)) /\
               w' = written q i (written path1 i (tick w))
   end) \/
  ((exists e, o = Raise e) /\
   ((~ is_dir_at path1 w /\ w' = tick w) \/
    (is_dir_at path1 w /\ w' = written path1 i (tick w) /\
     exists q, path2 = Some q /\ ~ is_dir_at q w'))).
Proof.
  intros Hd H i. rewrite (mark_dir_eq _ _ _ _ Hd) in H. fold i in H.
  destruct (write_awid_cases path1 i (tick w)) as [[D1 E1]|[D1 [e E1]]];
    rewrite E1 in H; rewrite is_dir_at_tick in D1.
  - destruct path2 as [q|].
    + destruct (write_awid_cases q i (written path1 i (tick w))) as [[D2 E2]|[D2 [e E2]]];
        rewrite E2 in H; injection H as <- <-.
      * left. done.
      * right. split; [by eauto|]. right. split; [done|]. split; [done|]. by exists q.
    + injection H as <- <-. left. done.
  - injection H as <- <-. right. split; [by eauto|]. by left.
Qed.

(** X1: a marker that [mark_dir] wrote reads back as it was returned. In
    a run that is not a dry run, when the path of [path1] renders without a
    line end and does not end in white space, [read_dir_id] finds in
    [path1], and in [path2] when given, the very string that [mark_dir]
    returned. *)
Theorem mark_dir_read_back args path1 path2 w dir_id w' :
  dry_run args = false ->
  one_line (path_str args path1) = true ->
  ends_visible (path_str args path1) = true ->
  mark_dir args path1 path2 w = (Ret dir_id, w') ->
  read_dir_id path1 w' = (Ret (Some dir_id), w') /\
  (forall q, path2 = Some q -> read_dir_id q w' = (Ret (Some dir_id), w')).
Proof.
  intros Hd H1 H2 H.
  destruct (mark_dir_runs _ _ _ _ _ _ Hd H) as [(E & [d1 Hp1] & Hw)|[[e ?] _]];
    [|done].
  injection E as ->.
  pose proof (fresh_id_read_back args path1 w H1 H2) as Hid.
  assert (read_dir_id path1 (written path1 (fresh_id args path1 w) (tick w))
          = (Ret (Some (fresh_id args path1 w)),
             written path1 (fresh_id args path1 w) (tick w))) as R1.
  { erewrite read_written by (by rewrite node_at_tick). by rewrite Hid. }
  destruct path2 as [q2|].
  - destruct Hw as [[d2 Hq2] ->].
    assert (read_dir_id q2 (written q2 (fresh_id args path1 w)
                              (written path1 (fresh_id args path1 w) (tick w)))
            = (Ret (Some (fresh_id args path1 w)),
               written q2 (fresh_id args path1 w)
                 (written path1 (fresh_id args path1 w) (tick w)))) as R2.
    { erewrite read_written by done. by rewrite Hid. }
    split; [|by intros q [= <-]].
    destruct (decide (q2 = path1)) as [->|Hne]; [done|].
    eapply read_dir_id_node; [|exact R1].
    rewrite node_at_written. by rewrite decide_False.
  - subst w'. split; [done|]. by intros q.
Qed.

Lemma mark_dir_read_back_witness :
  let args := mk_Args "/w" "/a" false false None false false false [] false in
  let w := mk_world [("proj", dir_with Absent)] [("proj", dir_with (Text "old"))]
             (fun _ => epoch) 0 [] in
  let dir_id := "1970-01-01 00:00:00 /w/proj" in
  let w' := (mark_dir args (wp "proj") (Some (ap "proj")) w).2 in
  read_dir_id (wp "proj") w' = (Ret (Some dir_id), w') /\
  (forall q, Some (ap "proj") = Some q -> read_dir_id q w' = (Ret (Some dir_id), w')).
Proof.
  intros args w dir_id w'.
  apply (mark_dir_read_back args (wp "proj") (Some (ap "proj")) w dir_id w');
    [reflexivity|reflexivity|reflexivity|].
  vm_compute. reflexivity.
Defined.

(** ** The index, entry by entry *)

Lemma last_filter_cons {A} (f : A -> bool) x l :
  last (List.filter f (x :: l))
  = match last (List.filter f l) with
    | Some y => Some y
    | None => if f x then Some x else None
    end.
Proof.
  simpl. destruct (f x); [|by destruct (last _)].
  destruct (List.filter f l) as [|y l'] eqn:E; [done|].
  rewrite last_cons. by destruct (last (y :: l')).
Qed.

Lemma collect_known_last names known0 w known w' i :
  collect_known (ap <$> names) known0 w = (Ret known, w') ->
  known !! i
  = match last (List.filter
                  (fun n => bool_decide (assoc n (archive w) ≫= node_id = Some i)) names) with
    | Some n => Some (ap n)
    | None => known0 !! i
    end.
Proof.
  revert known0. induction names as [|n names IH]; intros known0 H.
  - simpl in H. by apply ret_inv in H as [<- _].
  - rewrite last_filter_cons. simpl in H.
    apply bind_inv_Ret in H as (b & w1 & Eb & H).
    unfold is_dir in Eb. injection Eb as <- <-.
    unfold node_at in H. simpl in H.
    destruct (assoc n (archive w)) as [[d|]|] eqn:En.
    + apply bind_inv_Ret in H as (o & w1 & Er & H).
      pose proof (read_dir_id_world _ _ _ _ Er) as ->.
      apply read_dir_id_node_id in Er. unfold node_at in Er. simpl in Er.
      rewrite En in Er. destruct Er as [_ Er].
      change (Some (Dir d) ≫= node_id) with (node_id (Dir d)). rewrite Er.
      destruct o as [j|].
      * rewrite (IH _ H). destruct (last _); [done|].
        case_bool_decide as Hj.
        -- injection Hj as ->. by rewrite lookup_insert_eq.
        -- rewrite lookup_insert_ne; [done|congruence].
      * rewrite (IH _ H). destruct (last _); [done|].
        by rewrite bool_decide_eq_false_2.
    + rewrite (IH _ H). destruct (last _); [done|]. by rewrite bool_decide_eq_false_2.
    + rewrite (IH _ H). destruct (last _); [done|]. by rewrite bool_decide_eq_false_2.
Qed.

(** X2: the index [known_archive_dirs] of lines 210-215 maps an identity
    to the last archive entry, in the order of enumeration, that carries
    it, and holds nothing else; building it changes nothing. *)
Theorem index_holds_last_carrier w known w' :
  known_archive_dirs w = (Ret known, w') ->
  w' = w /\ forall i, known !! i = ap <$> last (carriers i (archive w)).
Proof.
  intros H. split; [by apply known_archive_dirs_in_archive in H as [_ ->]|]. intros i.
  unfold known_archive_dirs in H.
  apply bind_inv_Ret in H as (dirs & w1 & Ed & H). injection Ed as <- <-.
  simpl in H. unfold keys in H.
  rewrite (collect_known_last _ _ _ _ _ i H). unfold carriers, keys.
  destruct (last _); [done|]. apply lookup_empty.
Qed.

Lemma index_holds_last_carrier_witness :
  let w := mk_world [] [("a", dir_with (Text "X1")); ("b", dir_with (Text "X1"));
                        ("c", dir_with Absent); ("d", NotDir)]
             (fun _ => epoch) 0 [] in
  w = w /\
  forall i, ({[ "X1" := ap "b" ]} : gmap string Path) !! i
            = ap <$> last (carriers i (archive w)).
Proof.
  intros w. apply (index_holds_last_carrier w {[ "X1" := ap "b" ]} w).
  vm_compute. reflexivity.
Defined.

(** ** Every work subdirectory, once *)

Lemma rsync_skipped_Permutation ds :
  (work_path <$> rsync_todo ds) ++ (skipped_path <$> skipped ds) ≡ₚ d_work <$> ds.
Proof.
  induction ds as [|[p a [t|]] ds IH]; simpl; [done| |].
  - unfold rsync_todo, skipped in *. simpl. by rewrite IH.
  - unfold rsync_todo, skipped in *. simpl.
    rewrite <- Permutation_middle. by rewrite IH.
Qed.

(** X3: a scan that returns has put every directory of the work root into
    exactly one of [rsync_todo] and [skipped], once, and nothing else:
    entries of the work root that are not directories are left out. *)
Theorem every_work_dir_once args w ds w' :
  reconcile args w = (Ret ds, w') ->
  (work_path <$> rsync_todo ds) ++ (skipped_path <$> skipped ds)
    ≡ₚ wp <$> dir_names (work w).
Proof.
  intros H. rewrite rsync_skipped_Permutation.
  unfold reconcile in H.
  apply bind_inv_Ret in H as (known & w1 & Ek & H).
  destruct (known_archive_dirs_in_archive _ _ _ Ek) as [Hk ->].
  rewrite (bind_Ret _ _ _ _ _ (sorted_work_dirs_eq w)) in H.
  apply scan_loop_works in H as ->. unfold scan_dirs.
  apply fmap_Permutation. apply merge_sort_Permutation.
Qed.

Lemma every_work_dir_once_witness :
  let args := mk_Args "/w" "/a" false false None false false false [] false in
  let w := mk_world [("b", dir_with Absent); ("file", NotDir); ("a", dir_with (Text "A1"))]
             [("b", NotDir)] (fun _ => epoch) 0 [] in
  let ds := [mk_decision (wp "a") RESTORE (Some (ap "a"));
             mk_decision (wp "b") NEW_CONFLICT_SKIP None] in
  (work_path <$> rsync_todo ds) ++ (skipped_path <$> skipped ds)
    ≡ₚ wp <$> dir_names (work w).
Proof.
  intros args w ds. apply (every_work_dir_once args w ds (reconcile args w).2).
  vm_compute. reflexivity.
Defined.

Lemma scan_loop_targets args known dirs w ds w' :
  known_in_archive known ->
  scan_loop args known dirs w = (Ret ds, w') ->
  forall d t, d ∈ ds -> d_archive d = Some t -> t = ap (name (d_work d)).
Proof.
  intros Hk. revert w ds. induction dirs as [|p dirs IH]; intros w ds H; simpl in H; inv_run.
  - by intros ?? ?%elem_of_nil.
  - intros d t [->|Hd]%elem_of_cons Ht; [|by eapply IH].
    destruct (scan_body_decision _ _ _ _ _ _ E) as [-> Hs].
    by apply (Hs t Ht).
Qed.

(** X4: every entry of [rsync_todo] pairs a directory of the work root
    with the archive path of the same name, whatever the decision was. *)
Theorem sync_target_same_name args w ds w' it :
  reconcile args w = (Ret ds, w') -> it ∈ rsync_todo ds ->
  exists n, it = item n /\ n ∈ dir_names (work w).
Proof.
  intros H Hit.
  pose proof (reconcile_works _ _ _ _ H) as Hnames.
  unfold reconcile in H.
  apply bind_inv_Ret in H as (known & w1 & Ek & H).
  destruct (known_archive_dirs_in_archive _ _ _ Ek) as [Hk ->].
  rewrite (bind_Ret _ _ _ _ _ (sorted_work_dirs_eq w)) in H.
  fold (scan_dirs w) in H.
  apply list_elem_of_omap in Hit as (d & Hd & Hit).
  destruct (d_archive d) as [t|] eqn:Et; [|done]. injection Hit as <-.
  pose proof (scan_loop_targets _ _ _ _ _ _ Hk H d t Hd Et) as ->.
  pose proof (scan_loop_works _ _ _ _ _ _ H) as Hw.
  assert (d_work d ∈ scan_dirs w) as Hin.
  { rewrite <- Hw. apply list_elem_of_fmap. eauto. }
  apply list_elem_of_fmap in Hin as (n & Hn & Hin).
  exists n. split.
  - unfold item. by rewrite Hn.
  - by rewrite merge_sort_Permutation in Hin.
Qed.

Lemma sync_target_same_name_witness :
  let args := mk_Args "/w" "/a" false false None false false false [] false in
  let w := mk_world [("b", dir_with Absent); ("file", NotDir); ("a", dir_with (Text "A1"))]
             [("b", NotDir)] (fun _ => epoch) 0 [] in
  exists n, mk_rsync_item (wp "a") (ap "a") = item n /\ n ∈ dir_names (work w).
Proof.
  intros args w.
  apply (sync_target_same_name args w
           [mk_decision (wp "a") RESTORE (Some (ap "a"));
            mk_decision (wp "b") NEW_CONFLICT_SKIP None] (reconcile args w).2).
  - vm_compute. reflexivity.
  - apply list_elem_of_here.
Defined.

(** ** The work root under a run *)

#[global] Instance work_only_marked_preorder : PreOrder work_only_marked.
Proof.
  split.
  - intros w. split; [done|]. intros n v Hv. exists v. split; [done|by left].
  - intros w1 w2 w3 [K1 H1] [K2 H2]. split; [congruence|].
    intros n v Hv. destruct (H1 _ _ Hv) as (v' & Hv' & G1).
    destruct (H2 _ _ Hv') as (v'' & Hv'' & G2). exists v''. split; [done|].
    destruct G1 as [->|(d & i & -> & Hr & Hn & -> & Hs)]; [done|].
    destruct G2 as [->|(d2 & i2 & _ & _ & Hn2 & _)].
    + right. by exists d, i.
    + rewrite Hn2 in Hs. by destruct Hs.
Qed.

Lemma work_only_marked_same w w' : work w' = work w -> work_only_marked w w'.
Proof.
  intros E. split; [by rewrite E|]. intros n v Hv. exists v. rewrite E. split; [done|by left].
Qed.

Lemma work_only_marked_written args p w0 w :
  parent p = WorkBase ->
  read_dir_id p w = (Ret None, w) ->
  work_only_marked w (written p (fresh_id args p w0) w).
Proof.
  intros Hp Hr. destruct p as [b n]. simpl in Hp. subst b.
  apply read_dir_id_node_id in Hr.
  split.
  - unfold written. destruct (node_at _ w) as [[d|]|]; [|done..]. simpl. apply keys_put.
  - intros m v Hv. change (assoc m (work ?x)) with (node_at (wp m) x).
    rewrite node_at_written. case_decide as Hm.
    + injection Hm as ->. unfold node_at in *. simpl in *. rewrite Hv in Hr |- *.
      destruct Hr as [Hrd Hid]. destruct v as [d|]; [|exists NotDir; split; [done|by left]].
      eexists. split; [done|]. right. exists d, (fresh_id args (mk_Path WorkBase m) w0).
      repeat split; try done.
      cbn [node_id awid]. destruct (fresh_id_visible args (mk_Path WorkBase m) w0) as [x ->]. eauto.
    + exists v. split; [done|by left].
Qed.

Lemma scan_body_work_only_marked args known p :
  known_in_archive known -> parent p = WorkBase ->
  preserves work_only_marked (scan_body args known p).
Proof.
  intros Hk Hp w o w' H. unfold scan_body in H. unfold bind at 1 in H.
  destruct (read_dir_id p w) as [[r|e] w1] eqn:Er;
    pose proof (read_dir_id_world _ _ _ _ Er); subst w1;
    [|injection H as _ <-; reflexivity].
  destruct r as [i|].
  - apply work_only_marked_same.
    destruct (known !! i) as [k|] eqn:Ek.
    + case_decide; [|by injection H as _ <-].
      destruct (dry_run args); [by injection H as _ <-|].
      unfold bind in H. destruct (os_rename_cases k (mk_Path (parent k) (name p)) w)
        as [[_ Eo]|[e Eo]]; rewrite Eo in H; injection H as _ <-; [|done].
      apply work_moved. eauto.
    + unfold bind in H. rewrite exists_eq in H. case_bool_decide; by injection H as _ <-.
  - unfold bind at 1 in H. rewrite exists_eq in H.
    assert (forall q, (q = None \/ exists n, q = Some (ap n)) ->
              forall o1 w1, mark_dir args p q w = (o1, w1) -> work_only_marked w w1) as Hmark.
    { intros q Hq o1 w1 Hm. destruct (dry_run args) eqn:Hd.
      - rewrite mark_dir_dry in Hm by done. injection Hm as _ <-.
        by apply work_only_marked_same.
      - assert (work_only_marked w (written p (fresh_id args p w) (tick w))) as Hone.
        { etrans; [apply (work_only_marked_same w (tick w)); done|].
          apply work_only_marked_written; [done|].
          eapply read_dir_id_node; [|done]. by rewrite node_at_tick. }
        destruct (mark_dir_runs _ _ _ _ _ _ Hd Hm) as [(_ & _ & Hw)|(_ & [[_ ->]|(_ & -> & _)])].
        + destruct Hq as [->|[n ->]]; [by subst|]. destruct Hw as [_ ->].
          etrans; [done|]. apply work_only_marked_same. apply work_written_archive.
        + by apply work_only_marked_same.
        + done. }
    assert (forall q (d : decision),
              (q = None \/ exists n, q = Some (ap n)) ->
              bind (mark_dir args p q) (fun _ => ret d) w = (o, w') ->
              work_only_marked w w') as Hbind.
    { intros q d Hq Hb. unfold bind in Hb.
      destruct (mark_dir args p q w) as [[a|e] w1] eqn:Em; injection Hb as _ <-;
        by eapply Hmark. }
    case_bool_decide.
    + destruct (mark_new args); [|injection H as _ <-; reflexivity].
      eapply Hbind; [|exact H]. right. by eexists.
    + eapply Hbind; [|exact H]. by left.
Qed.

Lemma scan_loop_work_only_marked args known dirs :
  known_in_archive known -> (forall p, p ∈ dirs -> parent p = WorkBase) ->
  preserves work_only_marked (scan_loop args known dirs).
Proof.
  intros Hk. induction dirs as [|p dirs IH]; intros Hd; simpl.
  - apply preserves_ret; apply _.
  - apply preserves_bind; [apply _| |].
    + apply scan_body_work_only_marked; [done|]. apply Hd. left.
    + intros d. apply preserves_bind; [apply _| |intros; apply preserves_ret; apply _].
      apply IH. intros. apply Hd. by right.
Qed.

Lemma sync_loop_world args todo w o w' :
  sync_loop args todo w = (o, w') -> work w' = work w /\ archive w' = archive w.
Proof.
  rewrite sync_loop_eq. by intros [= _ <-].
Qed.

(** X5: whatever a run without [--mark] does and however it ends, the
    work root keeps its entries, names and order; an entry is as it was, or
    it was a directory without identity and got a sentinel. A work
    subdirectory that carries an identity is never touched. *)
Theorem work_root_only_gains_markers args w o w' :
  mark_requested args = None ->
  main args w = (o, w') ->
  keys (work w') = keys (work w) /\
  forall n v, assoc n (work w) = Some v ->
    exists v', assoc n (work w') = Some v' /\ gains_marker v v'.
Proof.
  intros Hm H. change (work_only_marked w w'). revert H. unfold main. rewrite Hm.
  revert w o w'. change (preserves work_only_marked
    (ds <- reconcile args;; sync_loop args (rsync_todo ds);;;
       match skipped ds with
       | [] => ret (Some 0%Z)
       | _ :: _ => if report_skipped args then ret (Some 1%Z) else ret (Some 0%Z)
       end)).
  apply preserves_bind; [apply _| |].
  - intros w o w' H. unfold reconcile in H. unfold bind at 1 in H.
    destruct (known_archive_dirs w) as [[known|e] w1] eqn:Ek.
    + destruct (known_archive_dirs_in_archive _ _ _ Ek) as [Hk ->].
      rewrite (bind_Ret _ _ _ _ _ (sorted_work_dirs_eq w)) in H.
      eapply scan_loop_work_only_marked; [done| |done].
      intros p (n & -> & _)%list_elem_of_fmap. done.
    + simplify_eq. unfold known_archive_dirs, bind, iterdir in Ek.
      apply collect_known_world in Ek as ->. reflexivity.
  - intros ds. apply preserves_bind; [apply _| |].
    + intros w o w' [E _]%sync_loop_world. by apply work_only_marked_same.
    + intros _. destruct (skipped ds); [|destruct (report_skipped args)];
        apply preserves_ret; apply _.
Qed.

Lemma work_root_only_gains_markers_witness :
  let args := mk_Args "/w" "/a" false false None false false false [] false in
  let w := mk_world [("b", dir_with Absent); ("file", NotDir); ("a", dir_with (Text "A1"))]
             [] (fun _ => epoch) 0 [] in
  let w' := (main args w).2 in
  keys (work w') = keys (work w) /\
  forall n v, assoc n (work w) = Some v ->
    exists v', assoc n (work w') = Some v' /\ gains_marker v v'.
Proof.
  intros args w w'.
  apply (work_root_only_gains_markers args w (Ret (Some 0%Z)) w'); [reflexivity|].
  vm_compute. reflexivity.
Defined.

(** ** Decisions and their effects *)

Lemma performed_nil w w' : trace w' = trace w -> performed [] w w'.
Proof. intros E. exists []. by rewrite app_nil_r. Qed.

Lemma performed_app e1 e2 w1 w2 w3 :
  performed e1 w1 w2 -> performed e2 w2 w3 -> performed (e1 ++ e2) w1 w3.
Proof.
  intros (v1 & T1 & H1) (v2 & T2 & H2). exists (v1 ++ v2).
  split; [by rewrite T2, T1, app_assoc|]. by rewrite !fmap_app, H1, H2.
Qed.

Lemma mark_dir_performed args path1 path2 w dir_id w' :
  mark_dir args path1 path2 w = (Ret dir_id, w') ->
  performed (if dry_run args then [] else Marks <$> path1 :: option_list path2) w w'.
Proof.
  intros H. destruct (dry_run args) eqn:Hd.
  - rewrite mark_dir_dry in H by done. simplify_eq. by apply performed_nil.
  - destruct (mark_dir_runs _ _ _ _ _ _ Hd H) as [(_ & [d1 H1] & Hw)|[[e ?] _]]; [|done].
    assert (performed [Marks path1] w (written path1 (fresh_id args path1 w) (tick w))) as P1.
    { eexists [_]. split.
      - erewrite trace_written by (by rewrite node_at_tick). reflexivity.
      - reflexivity. }
    destruct path2 as [q|]; [|by subst].
    destruct Hw as [[d2 H2] ->]. simpl.
    apply (performed_app [_] [_] _ _ _ P1).
    eexists [_]. split.
    + erewrite trace_written by done. reflexivity.
    + reflexivity.
Qed.

Lemma scan_body_performed args known p w d w' :
  known_in_archive known ->
  scan_body args known p w = (Ret d, w') -> performed (announced args d) w w'.
Proof.
  intros Hk H. unfold scan_body in H.
  apply bind_inv_Ret in H as (r & w1 & Er & H).
  pose proof (read_dir_id_world _ _ _ _ Er); subst w1.
  destruct r as [i|].
  - destruct (known !! i) as [k|] eqn:Ek.
    + case_decide as Hne.
      * unfold announced. destruct (dry_run args) eqn:Hd.
        -- apply ret_inv in H as [<- <-]. by apply performed_nil.
        -- apply bind_inv_Ret in H as ([] & w2 & Eo & H). apply ret_inv in H as [<- <-].
           apply os_rename_Ret in Eo as ->. simpl.
           eexists [_]. split; [apply trace_moved|]. cbn [fmap list_fmap effect_of].
           destruct k as [b m]. rewrite (Hk _ _ Ek : b = ArchiveBase). done.
      * apply ret_inv in H as [<- <-]. unfold announced. simpl.
        destruct (dry_run args); by apply performed_nil.
    + apply bind_inv_Ret in H as (e & w2 & Ee & H). rewrite exists_eq in Ee.
      injection Ee as <- <-. unfold announced.
      case_bool_decide; apply ret_inv in H as [<- <-]; simpl;
        destruct (dry_run args); by apply performed_nil.
  - apply bind_inv_Ret in H as (e & w2 & Ee & H). rewrite exists_eq in Ee.
    injection Ee as <- <-. unfold announced.
    case_bool_decide.
    + destruct (mark_new args).
      * apply bind_inv_Ret in H as (x & w2 & Em & H). apply ret_inv in H as [<- <-].
        apply mark_dir_performed in Em. simpl in *. by destruct (dry_run args).
      * apply ret_inv in H as [<- <-]. simpl. destruct (dry_run args); by apply performed_nil.
    + apply bind_inv_Ret in H as (x & w2 & Em & H). apply ret_inv in H as [<- <-].
      apply mark_dir_performed in Em. simpl in *. by destruct (dry_run args).
Qed.

Lemma scan_loop_performed args known dirs w ds w' :
  known_in_archive known ->
  scan_loop args known dirs w = (Ret ds, w') -> performed (ds ≫= announced args) w w'.
Proof.
  intros Hk. revert w ds. induction dirs as [|p dirs IH]; intros w ds H; simpl in H.
  - apply ret_inv in H as [<- <-]. by apply performed_nil.
  - apply bind_inv_Ret in H as (d & w1 & Eb & H).
    apply bind_inv_Ret in H as (ds' & w2 & El & H). apply ret_inv in H as [<- <-].
    simpl. eapply performed_app; [by eapply scan_body_performed | by eapply IH].
Qed.

(** X6: in a run that returns, the sentinel writes and the renames are
    exactly those that go with the decisions, in the order of the
    decisions, and all of them precede the sync loop: [NEW] writes the work
    sentinel, [NEW_CONFLICT_OVERWRITE] the work and then the archive
    sentinel, [RENAMED] renames the archive subdirectory, any other
    decision and any decision of a dry run does nothing. *)
Theorem decisions_announce_effects args w r w' :
  mark_requested args = None ->
  main args w = (Ret r, w') ->
  exists ds evs,
    (reconcile args w).1 = Ret ds /\
    trace w' = trace w ++ evs ++ sync_events args (rsync_todo ds) /\
    effect_of <$> evs = Some <$> (ds ≫= announced args).
Proof.
  intros Hm H. unfold main in H. rewrite Hm in H.
  apply bind_inv_Ret in H as (ds & w1 & Er & H).
  rewrite (bind_Ret _ _ _ _ _ (sync_loop_eq _ _ _)) in H.
  assert (trace w' = trace w1 ++ sync_events args (rsync_todo ds)) as Ht.
  { destruct (skipped ds); [|destruct (report_skipped args)];
      apply ret_inv in H as [_ <-]; done. }
  exists ds. rewrite Er. unfold reconcile in Er.
  apply bind_inv_Ret in Er as (known & w0 & Ek & Er).
  destruct (known_archive_dirs_in_archive _ _ _ Ek) as [Hk ->].
  rewrite (bind_Ret _ _ _ _ _ (sorted_work_dirs_eq w)) in Er.
  destruct (scan_loop_performed _ _ _ _ _ _ Hk Er) as (evs & T & E).
  exists evs. split; [done|]. split; [|done]. by rewrite Ht, T, app_assoc.
Qed.

Lemma decisions_announce_effects_witness :
  let args := mk_Args "/w" "/a" false false None true false false [] false in
  let w := mk_world [("b", dir_with Absent); ("c", dir_with (Text "C1"));
                     ("a", dir_with Absent)]
             [("b", dir_with Absent); ("c-old", dir_with (Text "C1"))]
             (fun _ => epoch) 0 [] in
  exists ds evs,
    (reconcile args w).1 = Ret ds /\
    trace (main args w).2 = trace w ++ evs ++ sync_events args (rsync_todo ds) /\
    effect_of <$> evs = Some <$> (ds ≫= announced args).
Proof.
  intros args w.
  apply (decisions_announce_effects args w (Some 0%Z) (main args w).2); [reflexivity|].
  vm_compute. reflexivity.
Defined.

(** ** How a dry run can end *)

Lemma raises_only_bind {A B} P (m : M A) (k : A -> M B) :
  raises_only P m -> (forall a, raises_only P (k a)) -> raises_only P (bind m k).
Proof.
  intros Hm Hk w e w'. unfold bind. destruct (m w) as [[a|e1] w1] eqn:E.
  - apply Hk.
  - intros [= <- <-]. by eapply Hm.
Qed.

Lemma raises_only_ret {A} P (a : A) : raises_only P (ret a).
Proof. by intros w e w'. Qed.

Lemma raises_only_read_dir_id p : raises_only (eq SentinelReadError) (read_dir_id p).
Proof. intros w e w' H. by apply read_dir_id_Raise in H as [-> _]. Qed.

Lemma raises_only_exists P p : raises_only P (exists_ p).
Proof. by intros w e w'. Qed.

Lemma raises_only_mark_dir_dry P args path1 path2 :
  dry_run args = true -> raises_only P (mark_dir args path1 path2).
Proof. intros Hd w e w'. by rewrite mark_dir_dry. Qed.

Lemma raises_only_collect_known dirs known :
  raises_only (eq SentinelReadError) (collect_known dirs known).
Proof.
  revert known. induction dirs as [|p dirs IH]; intros known; simpl.
  - apply raises_only_ret.
  - apply raises_only_bind; [by intros w e w'|]. intros [|]; [|apply IH].
    apply raises_only_bind; [apply raises_only_read_dir_id|]. intros [i|]; apply IH.
Qed.

Lemma raises_only_scan_body_dry args known p :
  dry_run args = true -> raises_only (eq SentinelReadError) (scan_body args known p).
Proof.
  intros Hd. unfold scan_body.
  apply raises_only_bind; [apply raises_only_read_dir_id|]. intros [i|].
  - destruct (known !! i) as [k|].
    + case_decide; [|apply raises_only_ret]. rewrite Hd. apply raises_only_ret.
    + apply raises_only_bind; [apply raises_only_exists|].
      intros []; apply raises_only_ret.
  - apply raises_only_bind; [apply raises_only_exists|]. intros [].
    + destruct (mark_new args); [|apply raises_only_ret].
      apply raises_only_bind; [by apply raises_only_mark_dir_dry|].
      intros; apply raises_only_ret.
    + apply raises_only_bind; [by apply raises_only_mark_dir_dry|].
      intros; apply raises_only_ret.
Qed.

Lemma raises_only_scan_loop_dry args known dirs :
  dry_run args = true -> raises_only (eq SentinelReadError) (scan_loop args known dirs).
Proof.
  intros Hd. induction dirs as [|p dirs IH]; simpl.
  - apply raises_only_ret.
  - apply raises_only_bind; [by apply raises_only_scan_body_dry|]. intros d.
    apply raises_only_bind; [done|]. intros; apply raises_only_ret.
Qed.

Lemma raises_only_main_dry args :
  dry_run args = true -> raises_only (eq SentinelReadError) (main args).
Proof.
  intros Hd. unfold main. destruct (mark_requested args) as [m|].
  - apply raises_only_bind; [by apply raises_only_mark_dir_dry|].
    intros; apply raises_only_ret.
  - apply raises_only_bind.
    + unfold reconcile. apply raises_only_bind.
      * unfold known_archive_dirs. apply raises_only_bind; [by intros w e w'|].
        intros dirs. apply raises_only_collect_known.
      * intros known. apply raises_only_bind; [by intros w e w'|].
        intros dirs. by apply raises_only_scan_loop_dry.
    + intros ds. apply raises_only_bind.
      * intros w e w'. by rewrite sync_loop_eq.
      * intros _. destruct (skipped ds); [|destruct (report_skipped args)];
          apply raises_only_ret.
Qed.

Lemma scan_body_dry_Ret args known p w o :
  dry_run args = true -> read_dir_id p w = (Ret o, w) ->
  exists d w', scan_body args known p w = (Ret d, w').
Proof.
  intros Hd Er. unfold scan_body. rewrite (bind_Ret _ _ _ _ _ Er).
  destruct o as [i|].
  - destruct (known !! i) as [k|].
    + case_decide; [rewrite Hd|]; by eexists _, _.
    + rewrite (bind_Ret _ _ _ _ _ (exists_eq _ _)). case_bool_decide; by eexists _, _.
  - rewrite (bind_Ret _ _ _ _ _ (exists_eq _ _)). case_bool_decide.
    + destruct (mark_new args); [|by eexists _, _].
      rewrite (bind_Ret _ _ _ _ _ (mark_dir_dry _ _ _ _ Hd)). by eexists _, _.
    + rewrite (bind_Ret _ _ _ _ _ (mark_dir_dry _ _ _ _ Hd)). by eexists _, _.
Qed.

Lemma read_dir_id_readable p w :
  (forall v, node_at p w = Some v -> readable v) ->
  exists o, read_dir_id p w = (Ret o, w).
Proof.
  intros Hr. destruct (node_at p w) as [v|] eqn:Hv.
  - exists (node_id v). apply read_dir_id_node_id. rewrite Hv. split; [auto|done].
  - exists None. apply read_dir_id_node_id. by rewrite Hv.
Qed.

Lemma scan_loop_dry_Ret args known dirs w :
  dry_run args = true ->
  (forall p v, p ∈ dirs -> node_at p w = Some v -> readable v) ->
  (forall p, p ∈ dirs -> parent p = WorkBase) ->
  exists ds w', scan_loop args known dirs w = (Ret ds, w').
Proof.
  intros Hd. revert w. induction dirs as [|p dirs IH]; intros w Hr Hp; simpl.
  - by eexists _, _.
  - destruct (read_dir_id_readable p w) as [o Er].
    { intros v. apply Hr. by left. }
    destruct (scan_body_dry_Ret args known p w o Hd Er) as (d & w1 & Eb).
    rewrite (bind_Ret _ _ _ _ _ Eb).
    destruct (preserves_scan_body same_files args known p) with (w := w) (o := Ret d) (w' := w1)
      as (Ew & _); try done; try congruence.
    destruct (IH w1) as (ds & w2 & El).
    { intros q v Hq Hv. apply (Hr q v); [by right|].
      revert Hv. unfold node_at. rewrite (Hp q) by (by right). simpl. by rewrite Ew. }
    { intros q Hq. apply Hp. by right. }
    rewrite (bind_Ret _ _ _ _ _ El). by eexists _, _.
Qed.

(** X7: a dry run can only end with the error of an unreadable sentinel;
    when every sentinel of the two roots can be read it returns. *)
Theorem dry_run_fails_only_on_sentinel args w :
  dry_run args = true ->
  (forall e w', main args w = (Raise e, w') -> e = SentinelReadError) /\
  ((forall n v, assoc n (work w) = Some v -> readable v) ->
   (forall n v, assoc n (archive w) = Some v -> readable v) ->
   exists r w', main args w = (Ret r, w')).
Proof.
  intros Hd. split.
  - intros e w' H. symmetry. by eapply raises_only_main_dry.
  - intros Hw Ha. unfold main. destruct (mark_requested args) as [m|].
    + rewrite (bind_Ret _ _ _ _ _ (mark_dir_dry _ _ _ _ Hd)). by eexists _, _.
    + destruct (known_archive_dirs_total w Ha) as [known Ek].
      destruct (scan_loop_dry_Ret args known (scan_dirs w) w Hd) as (ds & w1 & El).
      { intros p v (n & -> & _)%list_elem_of_fmap. apply Hw. }
      { by intros p (n & -> & _)%list_elem_of_fmap. }
      rewrite <- (reconcile_eq args _ _ Ek) in El.
      rewrite (bind_Ret _ _ _ _ _ El).
      rewrite (bind_Ret _ _ _ _ _ (sync_loop_eq _ _ _)).
      destruct (skipped ds); [|destruct (report_skipped args)]; by eexists _, _.
Qed.

Lemma dry_run_fails_only_on_sentinel_witness :
  let args := mk_Args "/w" "/a" true false None true false false [] false in
  let w := mk_world [("b", dir_with Absent); ("c", dir_with (Text "C1"))]
             [("b", NotDir); ("c-old", dir_with (Text "C1"))]
             (fun _ => epoch) 0 [] in
  (forall e w', main args w = (Raise e, w') -> e = SentinelReadError) /\
  exists r w', main args w = (Ret r, w').
Proof.
  intros args w.
  destruct (dry_run_fails_only_on_sentinel args w eq_refl) as [H1 H2].
  split; [exact H1|]. apply H2.
  - intros n v Hv. simpl in Hv. repeat case_decide; simplify_eq; done.
  - intros n v Hv. simpl in Hv. repeat case_decide; simplify_eq; done.
Defined.

(** ** Marking, then running *)

(** X8: after [--mark NAME] has returned in a run that is not a dry run,
    a following scan, whatever its options, re-syncs [NAME] to the archive
    subdirectory of that name, provided no other archive entry carries the
    new identity. *)
Theorem mark_then_run_resyncs args1 args2 m w r1 w1 ds w2 :
  mark_requested args1 = Some m -> dry_run args1 = false ->
  main args1 w = (Ret r1, w1) ->
  (forall x k v, read_dir_id (wp m) w1 = (Ret (Some x), w1) ->
     k <> m -> assoc k (archive w1) = Some v -> node_id v <> Some x) ->
  reconcile args2 w1 = (Ret ds, w2) ->
  mk_decision (wp m) RESYNC (Some (ap m)) ∈ ds /\ item m ∈ rsync_todo ds.
Proof.
  intros Hm Hd H1 Huniq H2.
  assert (mk_decision (wp m) RESYNC (Some (ap m)) ∈ ds) as Hin.
  2:{ split; [done|]. apply list_elem_of_omap. eexists. split; [done|]. done. }
  unfold main in H1. rewrite Hm in H1.
  apply bind_inv_Ret in H1 as (i0 & w1' & Em & H1). apply ret_inv in H1 as [_ ->].
  destruct (mark_dir_runs _ _ _ _ _ _ Hd Em) as [(_ & [dw Hw] & [[da Ha] Ew])|[[e ?] _]];
    [|done].
  set (i := fresh_id args1 (mk_Path WorkBase m) w) in *.
  destruct (fresh_id_visible args1 (mk_Path WorkBase m) w) as [x Hx]. fold i in Hx.
  assert (read_dir_id (wp m) w1 = (Ret (Some x), w1)) as Rw.
  { apply read_dir_id_node_id. rewrite Ew, !node_at_written.
    rewrite decide_False by done. rewrite decide_True by done.
    rewrite node_at_tick. unfold wp. rewrite Hw. cbn [readable node_id awid]. by rewrite Hx. }
  assert (read_dir_id (ap m) w1 = (Ret (Some x), w1)) as Ra.
  { apply read_dir_id_node_id. rewrite Ew, node_at_written.
    rewrite decide_True by done. unfold ap. rewrite Ha. cbn [readable node_id awid]. by rewrite Hx. }
  pose proof H2 as H2'. unfold reconcile in H2'.
  apply bind_inv_Ret in H2' as (known & w0 & Ek & _).
  destruct (known_archive_dirs_in_archive _ _ _ Ek) as [Hk ->].
  destruct (known_archive_dirs_complete _ _ _ _ _ Ek Ra) as [k Hxk].
  destruct (known_archive_dirs_sound _ _ _ _ _ Ek Hxk) as [Hpk Rk].
  assert (k = ap m) as ->.
  { destruct k as [b n]. simpl in Hpk. subst b.
    destruct (decide (n = m)) as [->|Hne]; [done|].
    apply read_dir_id_node_id in Rk. unfold node_at in Rk. simpl in Rk.
    destruct (assoc n (archive w1)) as [v|] eqn:Ev; [|done].
    destruct Rk as [_ Rk]. by destruct (Huniq x n v Rw Hne Ev). }
  assert (exists dw1, node_at (wp m) w1 = Some (Dir dw1)) as [dw1 Hw1].
  { by apply read_dir_id_Ret_Some in Rw. }
  destruct (reconcile_turn _ _ _ _ _ _ _ Ek Hw1 H2)
    as (pre & post & ds1 & w3 & d & w4 & ds2 & Edirs & Hpre & E1 & Eb & E2 & ->).
  destruct (scan_loop_reaches _ _ _ _ _ _ _ Hk Hpre E1) as [Hn _].
  rewrite (scan_body_RESYNC args2 known (wp m) w3 x (ap m)) in Eb; [| |done..].
  - injection Eb as <- <-. apply elem_of_app. right. by left.
  - by eapply read_dir_id_node.
Qed.

Lemma mark_then_run_resyncs_witness :
  let args1 := mk_Args "/w" "/a" false false (Some "p") false false false [] false in
  let args2 := mk_Args "/w" "/a" false false None false false false [] false in
  let w := mk_world [("p", dir_with Absent)] [("p", dir_with Absent)]
             (fun _ => epoch) 0 [] in
  let ds := [mk_decision (wp "p") RESYNC (Some (ap "p"))] in
  mk_decision (wp "p") RESYNC (Some (ap "p")) ∈ ds /\ item "p" ∈ rsync_todo ds.
Proof.
  intros args1 args2 w ds.
  apply (mark_then_run_resyncs args1 args2 "p" w None (main args1 w).2 ds
           (reconcile args2 (main args1 w).2).2).
  - reflexivity.
  - reflexivity.
  - vm_compute. reflexivity.
  - intros x k v _ Hk Hv. exfalso.
    assert (Hin : k ∈ keys (archive (main args1 w).2))
      by (apply elem_of_keys_assoc; eauto).
    vm_compute in Hin. apply list_elem_of_In in Hin.
    destruct Hin as [E|[]]. congruence.
  - vm_compute. reflexivity.
Defined.

(** ** The rename pass *)

Lemma tree_induction (P : Renames.tree -> Prop) :
  (forall s, P (Renames.File s)) ->
  (forall l, Forall (fun e => P e.2) l -> P (Renames.Folder l)) ->
  forall t, P t.
Proof.
  intros Hf Hd. fix IH 1. intros [s|l]; [apply Hf|]. apply Hd.
  induction l as [|[n t] l IHl]; constructor; [apply IH | apply IHl].
Qed.

Lemma tget_set n t l : Renames.get n l = Some t -> Renames.set n t l = l.
Proof.
  induction l as [|[k x] l IH]; simpl; [done|].
  case_decide; [by intros [= ->]|]. intros ?. f_equal. auto.
Qed.

Lemma rename_loop_dry id_to_arch work_to_id l :
  Renames.rename_loop true id_to_arch work_to_id l = (Ret tt, l).
Proof.
  induction work_to_id as [|[k fid] rest IH]; simpl; [done|].
  by destruct (id_to_arch !! fid).
Qed.

Lemma rename_files_dry difference work archive :
  Renames.rename_files difference true work archive = (Ret tt, archive).
Proof.
  unfold Renames.rename_files.
  destruct (difference _ _); [done|]. destruct (difference _ _); [done|].
  apply rename_loop_dry.
Qed.

Lemma recurse_dry call subs archive :
  Forall (fun e => forall l a, e.2 = Renames.Folder l ->
                     call e.2 (Renames.Folder a) = (Ret tt, Renames.Folder a)) subs ->
  Renames.recurse call subs archive = (Ret tt, archive).
Proof.
  intros H. revert archive. induction H as [|[n sub] subs Hsub _ IH]; intros archive;
    simpl; [done|].
  destruct sub as [s|l]; [apply IH|].
  destruct (Renames.get n archive) as [[s|a]|] eqn:E; try apply IH.
  simpl in Hsub. rewrite (Hsub l a eq_refl). rewrite (tget_set _ _ _ E). apply IH.
Qed.

(** X9: in a dry run the rename pass on a work directory returns and
    leaves the archive tree as it is, whatever the work directory and the
    archive path hold and whatever the order of the candidates is. *)
Theorem attempt_renames_dry difference work archive_path :
  Renames.attempt_renames difference true (Renames.Folder work) archive_path
  = (Ret tt, archive_path).
Proof.
  assert (forall t l a, t = Renames.Folder l ->
            Renames.attempt_renames difference true t a = (Ret tt, a)) as H; [|by eapply H].
  induction t as [s|l IH] using tree_induction; intros l' a [= <-].
  destruct a as [s|a]; [done|]. simpl.
  rewrite recurse_dry.
  - by rewrite rename_files_dry.
  - eapply Forall_impl; [exact IH|]. intros [n t] Ht l0 a0 E. simpl in *. by eapply Ht.
Qed.
(** *** Directory listings without repeated names *)

Lemma tget_None n l : Renames.get n l = None <-> n ∉ l.*1.
Proof.
  induction l as [|[k x] l IH]; simpl.
  - split; [intros _; apply not_elem_of_nil | done].
  - case_decide; subst.
    + split; [done|]. intros H. destruct H. by left.
    + rewrite IH. rewrite not_elem_of_cons. naive_solver.
Qed.

Lemma tget_elem n t l : NoDup l.*1 -> (n, t) ∈ l -> Renames.get n l = Some t.
Proof.
  induction l as [|[k x] l IH]; simpl; [by intros _ ?%elem_of_nil|].
  intros [Hk Hl]%NoDup_cons [[= -> ->]|Hin]%elem_of_cons.
  - by rewrite decide_True.
  - case_decide; subst; [|auto]. destruct Hk. apply list_elem_of_fmap. by exists (n, t).
Qed.

Lemma tget_Some_elem n t l : Renames.get n l = Some t -> (n, t) ∈ l.
Proof.
  induction l as [|[k x] l IH]; simpl; [done|].
  case_decide; subst; [intros [= ->]; by left|]. intros ?. right. auto.
Qed.

Lemma tget_remove_ne n m l :
  m <> n -> Renames.get n (Renames.remove m l) = Renames.get n l.
Proof.
  intros Hne. induction l as [|[k x] l IH]; simpl; [done|].
  repeat (case_decide; simplify_eq/=); done.
Qed.

Lemma tget_rekey_ne n src dst l :
  src <> n -> dst <> n -> Renames.get n (Renames.rekey src dst l) = Renames.get n l.
Proof.
  intros H1 H2. induction l as [|[k x] l IH]; simpl; [done|].
  repeat (case_decide; simplify_eq/=); done.
Qed.

Lemma tget_rekey_dst src dst l :
  Renames.get dst l = None ->
  Renames.get dst (Renames.rekey src dst l) = Renames.get src l.
Proof.
  induction l as [|[k x] l IH]; simpl; [done|].
  repeat (case_decide; simplify_eq/=); try done.
Qed.

Lemma tkeys_remove n l :
  NoDup l.*1 ->
  NoDup (Renames.remove n l).*1 /\ Renames.get n (Renames.remove n l) = None /\
  (forall m, m ∈ (Renames.remove n l).*1 -> m ∈ l.*1).
Proof.
  induction l as [|[k x] l IH]; simpl.
  - intros _. repeat split; [constructor | done].
  - intros [Hk Hl]%NoDup_cons. destruct (IH Hl) as (I1 & I2 & I3). case_decide; subst.
    + repeat split; [done| by apply tget_None |]. intros m ?. by right.
    + simpl. repeat split.
      * apply NoDup_cons. split; [|done]. intros ?%I3. done.
      * by rewrite decide_False.
      * intros m [->|?]%elem_of_cons; [by left | right; auto].
Qed.

Lemma tkeys_rekey src dst l :
  NoDup l.*1 -> Renames.get dst l = None ->
  NoDup (Renames.rekey src dst l).*1 /\
  (src <> dst -> Renames.get src (Renames.rekey src dst l) = None).
Proof.
  induction l as [|[k x] l IH]; simpl; [done|].
  intros [Hk Hl]%NoDup_cons. case_decide as Hkd; [done|]. intros Hd.
  destruct (IH Hl Hd) as [I1 I2].
  destruct (decide (k = src)) as [->|Hks]; simpl.
  - split.
    + apply NoDup_cons. split; [by apply tget_None|done].
    + intros Hne. rewrite decide_False by done. by apply tget_None.
  - split.
    + apply NoDup_cons. split; [|done].
      apply tget_None. rewrite tget_rekey_ne by done. by apply tget_None.
    + intros Hne. rewrite decide_False by done. auto.
Qed.

(** *** One [rename] *)

Lemma rename_Ret src dst l l' :
  NoDup l.*1 -> src <> dst ->
  Renames.rename src dst l = (Ret tt, l') ->
  NoDup l'.*1 /\ Renames.get src l' = None /\
  Renames.get dst l' = Renames.get src l /\ is_Some (Renames.get src l) /\
  (forall n, n <> src -> n <> dst -> Renames.get n l' = Renames.get n l).
Proof.
  intros Hnd Hne. unfold Renames.rename. rewrite decide_False by done.
  destruct (tkeys_remove dst l Hnd) as (R1 & R2 & R3).
  assert (Renames.get src (Renames.remove dst l) = Renames.get src l) as Hsrc
    by (by apply tget_remove_ne).
  assert (forall l0, NoDup l0.*1 -> Renames.get dst l0 = None ->
            Renames.get src l0 = Renames.get src l ->
            (forall n, n <> dst -> Renames.get n l0 = Renames.get n l) ->
            is_Some (Renames.get src l) ->
            NoDup (Renames.rekey src dst l0).*1 /\
            Renames.get src (Renames.rekey src dst l0) = None /\
            Renames.get dst (Renames.rekey src dst l0) = Renames.get src l /\
            is_Some (Renames.get src l) /\
            (forall n, n <> src -> n <> dst ->
               Renames.get n (Renames.rekey src dst l0) = Renames.get n l)) as Hmove.
  { intros l0 N0 D0 S0 O0 Hs. destruct (tkeys_rekey src dst l0 N0 D0) as [K1 K2].
    repeat split; [done|by apply K2| |done|].
    - by rewrite tget_rekey_dst, S0.
    - intros n H1 H2. rewrite tget_rekey_ne by done. by apply O0. }
  destruct (Renames.get src l) as [[s|d]|] eqn:Es; [| |done].
  - destruct (Renames.get dst l) as [[s'|d']|] eqn:Ed; [| done |].
    + intros [= <-]. apply Hmove; try done. intros; by apply tget_remove_ne.
    + intros [= <-]. by apply Hmove.
  - destruct (Renames.get dst l) as [[s'|[|? ?]]|] eqn:Ed; [done| |done|].
    + intros [= <-]. apply Hmove; try done. intros; by apply tget_remove_ne.
    + intros [= <-]. by apply Hmove.
Qed.

Lemma rename_missing src dst l :
  Renames.get src l = None ->
  Renames.rename src dst l = (Raise FileNotFoundError, l).
Proof. intros H. unfold Renames.rename. rewrite H. by case_decide. Qed.

(** *** The dictionary [id_to_arch] *)

Lemma id_to_arch_lookup (f : string -> N) cands (m0 : gmap N string) fid a :
  foldl (fun m p => <[f p := p]> m) m0 cands !! fid = Some a ->
  m0 !! fid = Some a \/ (a ∈ cands /\ f a = fid).
Proof.
  revert m0. induction cands as [|p cands IH]; intros m0; simpl; [by left|].
  intros [H|[H1 H2]]%IH.
  - rewrite lookup_insert in H. case_decide; [|by left].
    simplify_eq. right. split; [by left|done].
  - right. split; [by right|done].
Qed.

Lemma id_to_arch_is_Some (f : string -> N) cands (m0 : gmap N string) fid :
  (is_Some (m0 !! fid) \/ exists p, p ∈ cands /\ f p = fid) ->
  is_Some (foldl (fun m p => <[f p := p]> m) m0 cands !! fid).
Proof.
  revert m0. induction cands as [|p cands IH]; intros m0; simpl.
  - intros [?|(p & ?%elem_of_nil & _)]; done.
  - intros [H|(q & [->|Hq]%elem_of_cons & Hf)]; apply IH.
    + left. rewrite lookup_insert. by case_decide.
    + left. rewrite <- Hf. by rewrite lookup_insert_eq.
    + right. eauto.
Qed.
(** *** The loop of lines 156-167 *)

Section rename_loop.
Context (id_to_arch : gmap N string).

Lemma apart_cons e work_to_id : apart id_to_arch (e :: work_to_id) -> apart id_to_arch work_to_id.
Proof. intros H k fid fid' a Hk. apply (H k fid). by right. Qed.

(** Once the archive file [m] is gone, a later work file that is matched
    with it makes the loop fail. *)
Lemma rename_loop_gone m s work_to_id l :
  id_to_arch !! s = Some m -> Renames.get m l = None ->
  (exists n, (n, s) ∈ work_to_id) ->
  apart id_to_arch work_to_id -> NoDup l.*1 ->
  exists e l', Renames.rename_loop false id_to_arch work_to_id l = (Raise e, l').
Proof.
  intros Hid. revert l. induction work_to_id as [|[k fid] rest IH]; intros l Hm [n Hn] Hk Hnd.
  { by apply elem_of_nil in Hn. }
  simpl. destruct (id_to_arch !! fid) as [a|] eqn:Ea.
  - destruct (decide (a = m)) as [->|Ham].
    + rewrite rename_missing by done. eauto.
    + destruct (Renames.rename a k l) as [[[]|e] l1] eqn:Er; [|eauto].
      assert (a <> k) as Hak.
      { intros ->. eapply (Hk k fid); [by left|done|done]. }
      destruct (rename_Ret _ _ _ _ Hnd Hak Er) as (N1 & _ & _ & _ & Ho).
      apply IH; [| |by eapply apart_cons|done].
      * rewrite Ho; [done|congruence|]. apply not_eq_sym. eapply (Hk k fid); [by left|done].
      * exists n. apply elem_of_cons in Hn as [[= -> ->]|?]; [congruence|done].
  - apply IH; [done| |by eapply apart_cons|done].
    exists n. apply elem_of_cons in Hn as [[= -> ->]|?]; [congruence|done].
Qed.

(** Two work files of one size that is the size of an archive candidate:
    the second rename finds its source gone. *)
Lemma rename_loop_twice m s n1 n2 work_to_id l :
  id_to_arch !! s = Some m ->
  (n1, s) ∈ work_to_id -> (n2, s) ∈ work_to_id -> n1 <> n2 ->
  apart id_to_arch work_to_id -> NoDup l.*1 ->
  exists e l', Renames.rename_loop false id_to_arch work_to_id l = (Raise e, l').
Proof.
  intros Hid. revert l.
  induction work_to_id as [|[k fid] rest IH]; intros l H1 H2 Hne Hk Hnd.
  { by apply elem_of_nil in H1. }
  simpl. destruct (id_to_arch !! fid) as [a|] eqn:Ea.
  - destruct (Renames.rename a k l) as [[[]|e] l1] eqn:Er; [|eauto].
    assert (a <> k) as Hak.
    { intros ->. eapply (Hk k fid); [by left|done|done]. }
    destruct (rename_Ret _ _ _ _ Hnd Hak Er) as (N1 & Hgone & _ & _ & Ho).
    destruct (decide (a = m)) as [->|Ham].
    + apply (rename_loop_gone m s); [done..| |by eapply apart_cons|done].
      apply elem_of_cons in H1 as [E1|H1]; [|by eauto].
      apply elem_of_cons in H2 as [E2|H2]; [congruence|by eauto].
    + apply IH; [| |done|by eapply apart_cons|done].
      * apply elem_of_cons in H1 as [[= -> ->]|?]; [congruence|done].
      * apply elem_of_cons in H2 as [[= -> ->]|?]; [congruence|done].
  - apply IH; [| |done|by eapply apart_cons|done].
    + apply elem_of_cons in H1 as [[= -> ->]|?]; [congruence|done].
    + apply elem_of_cons in H2 as [[= -> ->]|?]; [congruence|done].
Qed.

(** A file of the archive that no later turn names stays. *)
Lemma rename_loop_kept n t work_to_id l l' :
  Renames.get n l = Some t ->
  (forall fid, (n, fid) ∉ work_to_id) ->
  (forall fid a, id_to_arch !! fid = Some a -> a <> n) ->
  apart id_to_arch work_to_id -> NoDup l.*1 ->
  Renames.rename_loop false id_to_arch work_to_id l = (Ret tt, l') ->
  Renames.get n l' = Some t.
Proof.
  revert l. induction work_to_id as [|[k fid] rest IH]; intros l Hn Hw Ha Hk Hnd; simpl.
  { by intros [= <-]. }
  assert (forall fid, (n, fid) ∉ rest) as Hrest.
  { intros fid' Hin. apply (Hw fid'). by right. }
  destruct (id_to_arch !! fid) as [a|] eqn:Ea.
  - destruct (Renames.rename a k l) as [[[]|e] l1] eqn:Er; [|done].
    assert (a <> k) as Hak.
    { intros ->. eapply (Hk k fid); [by left|done|done]. }
    destruct (rename_Ret _ _ _ _ Hnd Hak Er) as (N1 & _ & _ & _ & Ho).
    apply IH; [|done|done|by eapply apart_cons|done].
    rewrite Ho; [done|apply not_eq_sym; by eapply Ha|]. intros ->. apply (Hw fid). by left.
  - apply IH; [done..|by eapply apart_cons|done].
Qed.

(** A work file whose size is the size of an archive candidate: when the
    loop returns, the archive has a file of that size under its name. *)
Lemma rename_loop_renamed m s n t work_to_id l l' :
  id_to_arch !! s = Some m ->
  (n, s) ∈ work_to_id -> NoDup work_to_id.*1 ->
  (Renames.get m l = None \/ Renames.get m l = Some t) ->
  (forall fid a, id_to_arch !! fid = Some a -> a <> n) ->
  apart id_to_arch work_to_id -> NoDup l.*1 ->
  Renames.rename_loop false id_to_arch work_to_id l = (Ret tt, l') ->
  Renames.get n l' = Some t.
Proof.
  intros Hid. revert l.
  induction work_to_id as [|[k fid] rest IH]; intros l Hn Hw Hm Ha Hk Hnd; simpl.
  { by apply elem_of_nil in Hn. }
  apply NoDup_cons in Hw as [Hk1 Hw]. simpl in Hk1.
  destruct (decide (k = n)) as [->|Hkn].
  - assert (fid = s) as ->.
    { apply elem_of_cons in Hn as [[= ->]|Hn]; [done|].
      destruct Hk1. apply list_elem_of_fmap. by exists (n, s). }
    rewrite Hid.
    destruct (Renames.rename m n l) as [[[]|e] l1] eqn:Er; [|done].
    assert (m <> n) as Hmn by (by eapply Ha).
    destruct (rename_Ret _ _ _ _ Hnd Hmn Er) as (N1 & _ & Hdst & [t' Hs] & _).
    apply rename_loop_kept; [|  |done|by eapply apart_cons|done].
    + rewrite Hdst. destruct Hm as [Hm|Hm]; congruence.
    + intros fid Hin. destruct Hk1. apply list_elem_of_fmap. by exists (n, fid).
  - assert ((n, s) ∈ rest) as Hn'.
    { apply elem_of_cons in Hn as [[= -> ->]|?]; done. }
    destruct (id_to_arch !! fid) as [a|] eqn:Ea.
    + destruct (Renames.rename a k l) as [[[]|e] l1] eqn:Er; [|done].
      assert (a <> k) as Hak.
      { intros ->. eapply (Hk k fid); [by left|done|done]. }
      destruct (rename_Ret _ _ _ _ Hnd Hak Er) as (N1 & Hgone & _ & _ & Ho).
      apply IH; [done|done| |done|by eapply apart_cons|done].
      destruct (decide (a = m)) as [->|Ham]; [by left|].
      rewrite Ho; [done|congruence|].
      apply not_eq_sym. eapply (Hk k fid); [by left|done].
    + apply IH; [done..|by eapply apart_cons|done].
Qed.
End rename_loop.
(** *** The recursion of lines 131-134 *)

#[global] Instance top_kept_preorder : PreOrder top_kept.
Proof.
  split.
  - intros l. repeat split. intros n. by left.
  - intros l1 l2 l3 (K1 & F1 & G1) (K2 & F2 & G2). split; [congruence|].
    split; [congruence|]. intros n.
    destruct (G1 n) as [E1|(x1 & y1 & E1 & E1')], (G2 n) as [E2|(x2 & y2 & E2 & E2')].
    + left. congruence.
    + right. exists x2, y2. split; congruence.
    + right. exists x1, y1. split; congruence.
    + right. exists x1, y2. split; congruence.
Qed.

Lemma top_kept_set n x y l :
  Renames.get n l = Some (Renames.Folder x) ->
  top_kept l (Renames.set n (Renames.Folder y) l).
Proof.
  intros Hn. unfold top_kept, Renames.fnames.
  induction l as [|[k t] l IH]; simpl in *; [done|].
  destruct (decide (k = n)) as [->|Hne]; simpl.
  - simplify_eq. simpl. repeat split. intros m. case_decide; [|by left].
    right. by exists x, y.
  - destruct (IH Hn) as (I1 & I2 & I3). split; [by f_equal|]. split.
    + destruct (Renames.is_file t); simpl; [f_equal|]; done.
    + intros m. case_decide; [by left|]. apply I3.
Qed.

Lemma attempt_renames_Folder difference dry_run work archive :
  exists archive',
    (Renames.attempt_renames difference dry_run work (Renames.Folder archive)).2
    = Renames.Folder archive'.
Proof.
  destruct work as [s|work]; simpl; [by eexists|].
  destruct (Renames.recurse _ _ _) as [[[]|e] l1]; [|by eexists].
  destruct (Renames.rename_files _ _ _ _) as [o l2]. by eexists.
Qed.

Lemma recurse_top_kept difference dry_run subs archive o archive' :
  Renames.recurse (Renames.attempt_renames difference dry_run) subs archive = (o, archive') ->
  top_kept archive archive'.
Proof.
  revert archive. induction subs as [|[n sub] subs IH]; intros archive; simpl.
  { by intros [= _ <-]. }
  destruct sub as [s|l]; [apply IH|].
  destruct (Renames.get n archive) as [[s|a]|] eqn:E; try apply IH.
  destruct (attempt_renames_Folder difference dry_run (Renames.Folder l) a) as [a' Ha].
  destruct (Renames.attempt_renames _ _ _ _) as [[[]|e] t]; simpl in Ha; subst t.
  - intros H. etrans; [by eapply top_kept_set|]. by eapply IH.
  - intros [= _ <-]. by eapply top_kept_set.
Qed.

(** *** Candidates *)

Lemma elem_of_fnames n l :
  NoDup l.*1 -> n ∈ Renames.fnames l <-> exists s, Renames.get n l = Some (Renames.File s).
Proof.
  intros Hnd. unfold Renames.fnames. split.
  - intros ((k & t) & -> & [Hin Hf]%list_elem_of_In%filter_In)%list_elem_of_fmap.
    simpl in *. destruct t as [s|]; [|done]. exists s.
    apply tget_elem; [done|]. by apply list_elem_of_In.
  - intros [s Hs]. apply list_elem_of_fmap. exists (n, Renames.File s). split; [done|].
    apply list_elem_of_In, filter_In. split; [|done].
    by apply list_elem_of_In, tget_Some_elem.
Qed.

Lemma NoDup_fnames l : NoDup l.*1 -> NoDup (Renames.fnames l).
Proof.
  unfold Renames.fnames. induction l as [|[k t] l IH]; simpl; [constructor|].
  intros [Hk Hl]%NoDup_cons. destruct (Renames.is_file t); simpl; [|auto].
  apply NoDup_cons. split; [|auto].
  intros ((k' & t') & -> & [Hin _]%list_elem_of_In%filter_In)%list_elem_of_fmap.
  apply Hk. apply list_elem_of_fmap. exists (k', t'). split; [done|].
  by apply list_elem_of_In.
Qed.

Section candidates.
Context (difference : list string -> list string -> list string).
Context (Hdiff : set_difference difference).
Context (work archive : Renames.dir).
Context (Hwork : NoDup work.*1) (Harch : NoDup archive.*1).

Let work_candidates := difference (Renames.fnames work) (Renames.fnames archive).
Let arch_candidates := difference (Renames.fnames archive) (Renames.fnames work).
Let work_to_id := (fun p => (p, Renames.st_size_of work p)) <$> work_candidates.
Let id_to_arch : gmap N string :=
  foldl (fun m p => <[Renames.st_size_of archive p := p]> m) ∅ arch_candidates.

Lemma elem_of_work_candidates n :
  n ∈ work_candidates <-> n ∈ Renames.fnames work /\ n ∉ Renames.fnames archive.
Proof. unfold work_candidates. rewrite (Hdiff _ _). apply list_elem_of_difference. Qed.

Lemma elem_of_arch_candidates n :
  n ∈ arch_candidates <-> n ∈ Renames.fnames archive /\ n ∉ Renames.fnames work.
Proof. unfold arch_candidates. rewrite (Hdiff _ _). apply list_elem_of_difference. Qed.

Lemma work_to_id_elem n s :
  Renames.get n work = Some (Renames.File s) -> n ∉ Renames.fnames archive ->
  (n, s) ∈ work_to_id.
Proof.
  intros Hn Ha. apply list_elem_of_fmap. exists n. split.
  - unfold Renames.st_size_of. by rewrite Hn.
  - apply elem_of_work_candidates. split; [|done]. apply elem_of_fnames; eauto.
Qed.

Lemma work_to_id_NoDup : NoDup work_to_id.*1.
Proof.
  assert (forall l : list string,
            ((fun p => (p, Renames.st_size_of work p)) <$> l).*1 = l) as E.
  { induction l as [|p l IH]; simpl; [done|]. by f_equal. }
  unfold work_to_id. rewrite E. unfold work_candidates. rewrite (Hdiff _ _).
  apply NoDup_list_difference. by apply NoDup_fnames.
Qed.

Lemma id_to_arch_value fid a :
  id_to_arch !! fid = Some a ->
  Renames.get a archive = Some (Renames.File fid) /\ a ∉ Renames.fnames work.
Proof.
  intros [H|[Hin Hs]]%id_to_arch_lookup; [by rewrite lookup_empty in H|].
  apply elem_of_arch_candidates in Hin as [Hf Hw]. split; [|done].
  apply elem_of_fnames in Hf as [s Hs']; [|done].
  unfold Renames.st_size_of in Hs. rewrite Hs' in Hs. by subst.
Qed.

Lemma id_to_arch_key m s :
  Renames.get m archive = Some (Renames.File s) -> m ∉ Renames.fnames work ->
  is_Some (id_to_arch !! s).
Proof.
  intros Hm Hw. apply id_to_arch_is_Some. right. exists m. split.
  - apply elem_of_arch_candidates. split; [|done]. apply elem_of_fnames; eauto.
  - unfold Renames.st_size_of. by rewrite Hm.
Qed.

Lemma candidates_apart : apart id_to_arch work_to_id.
Proof.
  intros k fid fid' a (p & [= -> ->] & Hp)%list_elem_of_fmap Ha ->.
  apply id_to_arch_value in Ha as [_ Ha].
  apply elem_of_work_candidates in Hp as [Hp _]. done.
Qed.

Lemma rename_files_eq n s m :
  Renames.get n work = Some (Renames.File s) -> n ∉ Renames.fnames archive ->
  Renames.get m archive = Some (Renames.File s) -> m ∉ Renames.fnames work ->
  Renames.rename_files difference false work archive
  = Renames.rename_loop false id_to_arch work_to_id archive.
Proof.
  intros Hn Hna Hm Hmw.
  assert (n ∈ work_candidates) as Hwc.
  { apply elem_of_work_candidates. split; [|done]. apply elem_of_fnames; eauto. }
  assert (m ∈ arch_candidates) as Hac.
  { apply elem_of_arch_candidates. split; [|done]. apply elem_of_fnames; eauto. }
  unfold Renames.rename_files, id_to_arch, work_to_id.
  unfold work_candidates, arch_candidates in *.
  destruct (difference (Renames.fnames work) (Renames.fnames archive)) as [|w1 wc];
    [by apply elem_of_nil in Hwc|].
  destruct (difference (Renames.fnames archive) (Renames.fnames work)) as [|a1 ac];
    [by apply elem_of_nil in Hac|].
  done.
Qed.
End candidates.
(** *** The pass on a pair of directories *)

Lemma attempt_renames_top difference work archive :
  exists o1 archive1,
    Renames.recurse (Renames.attempt_renames difference false) work archive = (o1, archive1) /\
    top_kept archive archive1 /\
    Renames.attempt_renames difference false (Renames.Folder work) (Renames.Folder archive)
    = match o1 with
      | Raise e => (Raise e, Renames.Folder archive1)
      | Ret _ =>
          ((Renames.rename_files difference false work archive1).1,
           Renames.Folder (Renames.rename_files difference false work archive1).2)
      end.
Proof.
  destruct (Renames.recurse (Renames.attempt_renames difference false) work archive)
    as [o1 archive1] eqn:E.
  exists o1, archive1. split; [done|]. split; [by eapply recurse_top_kept|].
  simpl. rewrite E. destruct o1 as [[]|e]; [|done].
  by destruct (Renames.rename_files _ _ _ _).
Qed.

Lemma top_kept_file l l' n s :
  top_kept l l' -> Renames.get n l = Some (Renames.File s) ->
  Renames.get n l' = Some (Renames.File s).
Proof.
  intros (_ & _ & H) Hn. destruct (H n) as [->|(x & y & E & _)]; congruence.
Qed.

(** X10: two regular files of the work directory with one size, neither
    of which the archive has as a regular file, together with an archive
    file of that size which the work directory does not have, make a pass
    that is not a dry run end with an exception: [id_to_arch] holds one
    archive file for the size, and the second rename finds it gone. *)
Theorem same_size_twice_fails difference work archive n1 n2 m s :
  set_difference difference -> NoDup work.*1 -> NoDup archive.*1 ->
  Renames.get n1 work = Some (Renames.File s) ->
  Renames.get n2 work = Some (Renames.File s) -> n1 <> n2 ->
  n1 ∉ Renames.fnames archive -> n2 ∉ Renames.fnames archive ->
  Renames.get m archive = Some (Renames.File s) -> m ∉ Renames.fnames work ->
  exists e t,
    Renames.attempt_renames difference false (Renames.Folder work) (Renames.Folder archive)
    = (Raise e, t).
Proof.
  intros Hdiff Hw Ha H1 H2 Hne Ha1 Ha2 Hm Hmw.
  destruct (attempt_renames_top difference work archive) as (o1 & a1 & _ & Hk & ->).
  destruct o1 as [[]|e]; [|by eauto].
  pose proof Hk as (K1 & K2 & _).
  assert (NoDup a1.*1) as Hnd by (by rewrite K1).
  rewrite <- K2 in Ha1, Ha2.
  pose proof (top_kept_file _ _ _ _ Hk Hm) as Hm1.
  rewrite (rename_files_eq difference Hdiff work a1 Hw Hnd n1 s m) by done.
  destruct (id_to_arch_key difference Hdiff work a1 Hnd m s Hm1 Hmw) as [m' Hm'].
  match goal with
  | |- context [Renames.rename_loop false ?i ?wti a1] =>
      destruct (rename_loop_twice i m' s n1 n2 wti a1 Hm') as (e & l' & ->)
  end; [..|by eauto]; try done.
  - by apply work_to_id_elem.
  - by apply work_to_id_elem.
  - by apply candidates_apart.
Qed.

Lemma same_size_twice_fails_witness :
  exists e t,
    Renames.attempt_renames list_difference false
      (Renames.Folder [("x", Renames.File 7%N); ("y", Renames.File 7%N)])
      (Renames.Folder [("old", Renames.File 7%N)])
    = (Raise e, t).
Proof.
  apply (same_size_twice_fails list_difference
           [("x", Renames.File 7%N); ("y", Renames.File 7%N)]
           [("old", Renames.File 7%N)] "x" "y" "old" 7%N).
  - intros a b. reflexivity.
  - apply (bool_decide_unpack _). vm_compute. exact I.
  - apply (bool_decide_unpack _). vm_compute. exact I.
  - reflexivity.
  - reflexivity.
  - apply (bool_decide_unpack _). vm_compute. exact I.
  - apply (bool_decide_unpack _). vm_compute. exact I.
  - apply (bool_decide_unpack _). vm_compute. exact I.
  - reflexivity.
  - apply (bool_decide_unpack _). vm_compute. exact I.
Defined.

(** X11: when the pass returns, a regular file of the work directory that
    the archive does not have, and whose size is the size of an archive
    file that the work directory does not have, is in the archive under its
    work name, with that size. *)
Theorem renamed_file_follows difference work archive n m s t :
  set_difference difference -> NoDup work.*1 -> NoDup archive.*1 ->
  Renames.get n work = Some (Renames.File s) -> n ∉ Renames.fnames archive ->
  Renames.get m archive = Some (Renames.File s) -> m ∉ Renames.fnames work ->
  Renames.attempt_renames difference false (Renames.Folder work) (Renames.Folder archive)
  = (Ret tt, t) ->
  exists archive', t = Renames.Folder archive' /\
    Renames.get n archive' = Some (Renames.File s).
Proof.
  intros Hdiff Hw Ha Hn Hna Hm Hmw.
  destruct (attempt_renames_top difference work archive) as (o1 & a1 & _ & Hk & ->).
  destruct o1 as [[]|e]; [|done].
  pose proof Hk as (K1 & K2 & _).
  assert (NoDup a1.*1) as Hnd by (by rewrite K1).
  rewrite <- K2 in Hna.
  pose proof (top_kept_file _ _ _ _ Hk Hm) as Hm1.
  rewrite (rename_files_eq difference Hdiff work a1 Hw Hnd n s m) by done.
  destruct (id_to_arch_key difference Hdiff work a1 Hnd m s Hm1 Hmw) as [m' Hm'].
  destruct (Renames.rename_loop _ _ _ _) as [o l'] eqn:El. simpl.
  intros [= -> <-]. exists l'. split; [done|].
  eapply (rename_loop_renamed _ m' s n); [done| | | | | |done|done].
  - by apply work_to_id_elem.
  - by apply work_to_id_NoDup.
  - right. by apply (id_to_arch_value difference Hdiff work a1 Hnd) in Hm' as [? _].
  - intros fid a Hfa ->.
    apply (id_to_arch_value difference Hdiff work a1 Hnd) in Hfa as [Hf _].
    apply Hna. apply elem_of_fnames; eauto.
  - by apply candidates_apart.
Qed.

Lemma renamed_file_follows_witness :
  exists archive',
    Renames.Folder [("new", Renames.File 7%N); ("keep", Renames.File 3%N)]
    = Renames.Folder archive' /\
    Renames.get "new" archive' = Some (Renames.File 7%N).
Proof.
  apply (renamed_file_follows list_difference
           [("new", Renames.File 7%N); ("keep", Renames.File 3%N)]
           [("old", Renames.File 7%N); ("keep", Renames.File 3%N)]
           "new" "old" 7%N).
  - intros a b. reflexivity.
  - apply (bool_decide_unpack _). vm_compute. exact I.
  - apply (bool_decide_unpack _). vm_compute. exact I.
  - reflexivity.
  - apply (bool_decide_unpack _). vm_compute. exact I.
  - reflexivity.
  - apply (bool_decide_unpack _). vm_compute. exact I.
  - vm_compute. reflexivity.
Defined.
(** *** What the pass keeps *)

Lemma anonymous_is_file t t' :
  anonymous t' = anonymous t -> Renames.is_file t' = Renames.is_file t.
Proof. by destruct t, t'. Qed.

Lemma anonymous_rekey src dst s l :
  Renames.get src l = Some (Renames.File s) ->
  anonymous (Renames.Folder (Renames.rekey src dst l)) = anonymous (Renames.Folder l).
Proof.
  intros Hs. simpl. f_equal. induction l as [|[k x] l IH]; simpl in *; [done|].
  case_decide; subst; simpl.
  - by simplify_eq.
  - f_equal. auto.
Qed.

Lemma anonymous_set n x x' l :
  Renames.get n l = Some x -> anonymous x' = anonymous x ->
  anonymous (Renames.Folder (Renames.set n x' l)) = anonymous (Renames.Folder l).
Proof.
  intros Hs Hx. simpl. f_equal. induction l as [|[k y] l IH]; simpl in *; [done|].
  case_decide; subst; simpl.
  - simplify_eq. by rewrite Hx, (anonymous_is_file _ _ Hx).
  - f_equal. auto.
Qed.

Lemma tkeys_set n x l : (Renames.set n x l).*1 = l.*1.
Proof.
  induction l as [|[k y] l IH]; simpl; [done|]. case_decide; simpl; [done|]. by f_equal.
Qed.

Lemma Forall_set (P : string * Renames.tree -> Prop) n x l :
  (forall k, P (k, x)) -> Forall P l -> Forall P (Renames.set n x l).
Proof.
  intros Hx. induction 1 as [|[k y] l Hy Hl IH]; simpl; [constructor|].
  case_decide; constructor; auto.
Qed.

Lemma Forall_rekey (P : string * Renames.tree -> Prop) src dst l :
  (forall k k' x, P (k, x) -> P (k', x)) -> Forall P l -> Forall P (Renames.rekey src dst l).
Proof.
  intros Hx. induction 1 as [|[k y] l Hy Hl IH]; simpl; [constructor|].
  case_decide; constructor; eauto.
Qed.

Lemma elem_of_fnames_rekey n src dst l :
  n ∈ Renames.fnames (Renames.rekey src dst l) -> n = dst \/ n ∈ Renames.fnames l.
Proof.
  unfold Renames.fnames. induction l as [|[k x] l IH]; simpl; [by right|].
  case_decide; subst; simpl.
  - destruct (Renames.is_file x); simpl; [|by right].
    intros [->|?]%elem_of_cons; [by left|]. right. by right.
  - destruct (Renames.is_file x); simpl; [|done].
    intros [->|?]%elem_of_cons; [right; by left|].
    destruct IH as [?|?]; [done|by left|]. right. by right.
Qed.

Lemma tget_fnames n s l : Renames.get n l = Some (Renames.File s) -> n ∈ Renames.fnames l.
Proof.
  intros H%tget_Some_elem. apply list_elem_of_fmap. exists (n, Renames.File s).
  split; [done|]. apply list_elem_of_In, filter_In. split; [by apply list_elem_of_In|done].
Qed.

(** Every rename of the loop gives a regular file a name that was free. *)
Lemma rename_loop_anonymous id_to_arch work_to_id l o l' :
  NoDup l.*1 -> NoDup work_to_id.*1 -> apart id_to_arch work_to_id ->
  (forall fid a, id_to_arch !! fid = Some a ->
     Renames.get a l = None \/ exists s, Renames.get a l = Some (Renames.File s)) ->
  (forall k fid, (k, fid) ∈ work_to_id -> k ∉ Renames.fnames l) ->
  Forall (fun e => well_formed e.2) l ->
  Renames.rename_loop false id_to_arch work_to_id l = (o, l') ->
  anonymous (Renames.Folder l') = anonymous (Renames.Folder l) /\
  well_formed (Renames.Folder l').
Proof.
  revert l. induction work_to_id as [|[k fid] rest IH]; intros l Hnd Hw Hap HJ Hk Hwf; simpl.
  { intros [= _ <-]. split; [done|by constructor]. }
  apply NoDup_cons in Hw as [Hk1 Hw].
  assert (forall k' fid', (k', fid') ∈ rest -> k' ∉ Renames.fnames l) as Hk'.
  { intros k' fid' Hin. apply (Hk k' fid'). by right. }
  destruct (id_to_arch !! fid) as [a|] eqn:Ea;
    [|apply IH; try done; by eapply apart_cons].
  assert (a <> k) as Hak.
  { intros ->. eapply (Hap k fid); [by left|done|done]. }
  destruct (Renames.rename a k l) as [o1 l1] eqn:Er.
  unfold Renames.rename in Er. rewrite decide_False in Er by done.
  destruct (HJ _ _ Ea) as [Hg|[s Hg]]; rewrite Hg in Er.
  { simplify_eq. intros [= _ <-]. split; [done|by constructor]. }
  destruct (Renames.get k l) as [[s'|d']|] eqn:Ed.
  - destruct (Hk k fid); [by left|]. by eapply tget_fnames.
  - simplify_eq. intros [= _ <-]. split; [done|by constructor].
  - simplify_eq. destruct (tkeys_rekey a k l Hnd Ed) as [N1 G1].
    intros H. apply IH in H as [H1 H2].
    + split; [|done]. etrans; [exact H1|]. by eapply anonymous_rekey.
    + done.
    + done.
    + by eapply apart_cons.
    + intros fid' a' Ea'. destruct (decide (a' = a)) as [->|Hne]; [left; by apply G1|].
      rewrite tget_rekey_ne; [by eapply HJ|by apply not_eq_sym|].
      eapply (Hap k fid); [by left|done].
    + intros k' fid' Hin [->|Hf]%elem_of_fnames_rekey.
      * apply Hk1. apply list_elem_of_fmap. by exists (k, fid').
      * by eapply Hk'.
    + by apply Forall_rekey.
Qed.

Lemma rename_files_anonymous difference work archive o archive' :
  set_difference difference -> NoDup work.*1 ->
  well_formed (Renames.Folder archive) ->
  Renames.rename_files difference false work archive = (o, archive') ->
  anonymous (Renames.Folder archive') = anonymous (Renames.Folder archive) /\
  well_formed (Renames.Folder archive').
Proof.
  intros Hdiff Hw Hwf. inversion Hwf as [|? Hnd Hall]; subst.
  unfold Renames.rename_files.
  destruct (difference (Renames.fnames work) (Renames.fnames archive)) as [|w1 wc] eqn:Ew;
    [by intros [= _ <-]|].
  destruct (difference (Renames.fnames archive) (Renames.fnames work)) as [|a1 ac] eqn:Ea;
    [by intros [= _ <-]|].
  rewrite <- Ew, <- Ea. apply rename_loop_anonymous; try done.
  - by apply work_to_id_NoDup.
  - by apply candidates_apart.
  - intros fid a H. right. exists fid.
    by apply (id_to_arch_value difference Hdiff work archive Hnd) in H as [? _].
  - intros k fid (p & [= -> ->] & Hp)%list_elem_of_fmap.
    by apply (elem_of_work_candidates difference Hdiff) in Hp as [_ ?].
Qed.

(** X12: however the pass ends, the archive tree differs from what it was
    in the names of regular files only: directories, their names, the
    order of the entries and the sizes of the files are as they were. No
    rename of the pass replaces an entry. *)
Theorem attempt_renames_keeps_content difference work_path archive_path o t :
  set_difference difference -> well_formed work_path -> well_formed archive_path ->
  Renames.attempt_renames difference false work_path archive_path = (o, t) ->
  anonymous t = anonymous archive_path /\ well_formed t.
Proof.
  intros Hdiff. revert archive_path o t.
  induction work_path as [s|work IH] using tree_induction; intros archive_path o t Hw Ha.
  { destruct archive_path; simpl; by intros [= _ <-]. }
  destruct archive_path as [s|archive]; [by intros [= _ <-]|]. simpl.
  inversion Hw as [|? Hwnd Hwall]; subst.
  assert (forall subs archive o1 archive1,
            Forall (fun e => forall a o t, well_formed e.2 -> well_formed a ->
                               Renames.attempt_renames difference false e.2 a = (o, t) ->
                               anonymous t = anonymous a /\ well_formed t) subs ->
            Forall (fun e => well_formed e.2) subs ->
            well_formed (Renames.Folder archive) ->
            Renames.recurse (Renames.attempt_renames difference false) subs archive
            = (o1, archive1) ->
            anonymous (Renames.Folder archive1) = anonymous (Renames.Folder archive) /\
            well_formed (Renames.Folder archive1)) as Hrec.
  { clear. intros subs. induction subs as [|[n sub] subs IHs];
      intros archive o1 archive1 Hcall Hsubs Hwf; simpl.
    { by intros [= _ <-]. }
    apply Forall_cons in Hcall as [Hc Hcall]. apply Forall_cons in Hsubs as [Hs Hsubs].
    destruct sub as [s|l]; [by apply IHs|].
    destruct (Renames.get n archive) as [[s|a]|] eqn:E; try (by apply IHs).
    inversion Hwf as [|? Hnd Hall]; subst.
    assert (well_formed (Renames.Folder a)) as Hwa.
    { apply tget_Some_elem in E. rewrite Forall_forall in Hall. by apply (Hall _ E). }
    destruct (Renames.attempt_renames difference false (Renames.Folder l) (Renames.Folder a))
      as [o2 a'] eqn:Ec.
    destruct (Hc _ _ _ Hs Hwa Ec) as [An Wf].
    assert (anonymous (Renames.Folder (Renames.set n a' archive))
            = anonymous (Renames.Folder archive) /\
            well_formed (Renames.Folder (Renames.set n a' archive))) as [A1 W1].
    { split; [by eapply anonymous_set|]. constructor; [by rewrite tkeys_set|].
      by apply Forall_set. }
    destruct o2 as [[]|e].
    - intros H. destruct (IHs _ _ _ Hcall Hsubs W1 H) as [A2 W2].
      split; [by etrans|done].
    - by intros [= _ <-]. }
  destruct (Renames.recurse _ _ _) as [o1 archive1] eqn:E1.
  destruct (Hrec _ _ _ _ IH Hwall Ha E1) as [A1 W1].
  destruct o1 as [[]|e]; [|by intros [= _ <-]].
  destruct (Renames.rename_files difference false work archive1) as [o2 archive2] eqn:E2.
  intros [= _ <-].
  destruct (rename_files_anonymous _ _ _ _ _ Hdiff Hwnd W1 E2) as [A2 W2].
  split; [by etrans|done].
Qed.

Lemma attempt_renames_keeps_content_witness :
  let work := Renames.Folder [("sub", Renames.Folder [("b", Renames.File 5%N)]);
                              ("new", Renames.File 7%N)] in
  let arch := Renames.Folder [("sub", Renames.Folder [("a", Renames.File 5%N)]);
                              ("old", Renames.File 7%N)] in
  let t := (Renames.attempt_renames list_difference false work arch).2 in
  anonymous t = anonymous arch /\ well_formed t.
Proof.
  intros work arch t.
  apply (attempt_renames_keeps_content list_difference work arch (Ret tt) t).
  - intros a b. reflexivity.
  - apply wf_Folder; [apply (bool_decide_unpack _); vm_compute; exact I|].
    repeat constructor. apply (bool_decide_unpack _); vm_compute; exact I.
  - apply wf_Folder; [apply (bool_decide_unpack _); vm_compute; exact I|].
    repeat constructor. apply (bool_decide_unpack _); vm_compute; exact I.
  - vm_compute. reflexivity.
Defined.

(** ** The older script *)

Lemma legacy_sync_loop args todo w :
  rename args = false -> test_no_rsync args = false ->
  Legacy.sync_loop args todo w = sync_loop args todo w.
Proof.
  intros Hr Ht. revert w. induction todo as [|it todo IH]; intros w; simpl; [done|].
  rewrite Hr, Ht. rewrite bind_ret_l. unfold bind.
  destruct (rsync_dir _ _ _ w) as [[[]|e] w1]; [apply IH|done].
Qed.

Lemma world_eta w : mk_world (work w) (archive w) (clock w) (ticks w) (trace w) = w.
Proof. by destruct w. Qed.

(** X13: without [--rename], the script of the package and the older
    script at the top of [src] agree when [--test-no-rsync] is not given.
    With [--test-no-rsync] they leave the same world, but the older [main]
    returns [None] where the newer one returns 1 for skipped entries that
    are to be reported, and 0 otherwise. *)
Theorem legacy_main_agrees args w :
  rename args = false ->
  (test_no_rsync args = false -> Legacy.main args w = main args w) /\
  (test_no_rsync args = true ->
   (Legacy.main args w).2 = (main args w).2 /\
   (forall r, (Legacy.main args w).1 = Ret r -> r = None) /\
   (forall ds w1, mark_requested args = None -> reconcile args w = (Ret ds, w1) ->
      (main args w).1
      = Ret (Some (if report_skipped args && bool_decide (skipped ds <> []) then 1 else 0)%Z))).
Proof.
  intros Hr. split.
  - intros Ht. unfold Legacy.main, main. destruct (mark_requested args); [done|].
    rewrite Ht. unfold bind at 1 3.
    destruct (reconcile args w) as [[ds|e] w1]; [|done].
    unfold bind. by rewrite legacy_sync_loop.
  - intros Ht.
    assert (forall ds w1, sync_loop args (rsync_todo ds) w1 = (Ret tt, w1)) as Hs.
    { intros ds w1. rewrite sync_loop_eq. f_equal.
      assert (sync_events args (rsync_todo ds) = []) as ->.
      { unfold sync_events. rewrite Hr, Ht. induction (rsync_todo ds); simpl; by f_equal. }
      rewrite app_nil_r. apply world_eta. }
    unfold Legacy.main, main. destruct (mark_requested args) as [m|] eqn:Em.
    + split; [done|]. split; [|done].
      unfold bind. destruct (mark_dir _ _ _ w) as [[x|e] w1]; simpl; [|done].
      by intros r [= <-].
    + rewrite Ht. destruct (reconcile args w) as [[ds|e] w1] eqn:Er.
      * rewrite !(bind_Ret _ _ _ _ _ Er). rewrite !(bind_Ret _ _ _ _ _ (Hs ds w1)).
        split; [|split].
        -- destruct (skipped ds); [|destruct (report_skipped args)]; done.
        -- by intros r [= <-].
        -- intros ds' w1' _ [= <- <-].
           destruct (skipped ds); [|destruct (report_skipped args)]; simpl;
             by rewrite ?andb_false_r.
      * rewrite !(bind_Raise _ _ _ _ _ Er). split; [done|]. split; [done|]. by intros.
Qed.

Lemma legacy_main_agrees_witness :
  let args := mk_Args "/w" "/a" false false None false false false [] true in
  let w := mk_world [("b", dir_with Absent); ("a", dir_with (Text "A1"))]
             [("b", NotDir)] (fun _ => epoch) 0 [] in
  (Legacy.main args w).2 = (main args w).2 /\
  (forall r, (Legacy.main args w).1 = Ret r -> r = None) /\
  (forall ds w1, mark_requested args = None -> reconcile args w = (Ret ds, w1) ->
      (main args w).1
      = Ret (Some (if report_skipped args && bool_decide (skipped ds <> []) then 1 else 0)%Z)).
Proof.
  intros args w.
  exact (proj2 (legacy_main_agrees args w eq_refl) eq_refl).
Defined.
